(** * knut: the day-indexed processing pipeline

    A shallow embedding of the balancing engine, the gain valuation, the
    accrual expansion, the transaction order and the account/commodity
    filter of the journal assembler, with the properties the specification
    states about them. *)

From Stdlib Require Import QArith Qcanon.
From stdpp Require Import base gmap strings list fin_maps numbers pretty sorting.

Set Default Proof Using "Type".

(** ** Results of fallible code *)

Inductive result (E A : Type) : Type :=
| Ok (a : A)
| Err (e : E).
Arguments Ok {E A} a.
Arguments Err {E A} e.

Global Instance result_bind {E} : MBind (result E) := λ A B k r,
  match r with
  | Ok a => k a
  | Err e => Err e
  end.

(** A [for _, x := range xs] loop whose body may return an error. *)
Fixpoint forM {E S X} (body : S → X → result E S) (s : S) (xs : list X)
  : result E S :=
  match xs with
  | [] => Ok s
  | x :: xs' => s' ← body s x; forM body s' xs'
  end.

Definition is_ok {E A} (r : result E A) : bool :=
  match r with Ok _ => true | Err _ => false end.

(** ** Exact decimals

    [decimal.Decimal] (shopspring) is an arbitrary-precision decimal, an
    integer coefficient with a power of ten; every operation the pipeline
    uses is exact on the number it denotes and depends on that number only,
    so a decimal is modelled by the rational it denotes, in canonical form. *)

Module Decimal.

Definition Zero : Qc := 0%Qc.
Definition NewFromInt (n : Z) : Qc := Qc_of_Z n.
Definition Add (d d2 : Qc) : Qc := (d + d2)%Qc.
Definition Sub (d d2 : Qc) : Qc := (d - d2)%Qc.
Definition Neg (d : Qc) : Qc := (- d)%Qc.
Definition Mul (d d2 : Qc) : Qc := (d * d2)%Qc.
Definition Equal (d d2 : Qc) : bool := bool_decide (d = d2).
Definition IsZero (d : Qc) : bool := bool_decide (d = 0%Qc).
Definition IsNegative (d : Qc) : bool := bool_decide (d < 0)%Qc.
Definition LessThan (d d2 : Qc) : bool := bool_decide (d < d2)%Qc.

(** The sum of a list of decimals. *)
Definition Sum (ds : list Qc) : Qc := foldr Qcplus 0%Qc ds.

(** [10^precision] for a precision of either sign. *)
Definition pow10 (precision : Z) : Qc := Q2Qc (Qpower (10 # 1) precision).

(** The integer part of a rational, rounded towards zero, as [big.Int]'s
    [QuoRem] rounds. *)
Definition trunc (x : Qc) : Z := Z.quot (Qnum (this x)) (Zpos (Qden (this x))).

(** [d.QuoRem(d2, precision)]: the quotient [q] is the multiple of
    [10^(-precision)] nearest to [d / d2] towards zero and the remainder is
    [d - d2 * q]. A zero divisor panics. *)
Definition QuoRem (d d2 : Qc) (precision : Z) : option (Qc * Qc) :=
  if bool_decide (d2 = 0%Qc) then None
  else
    let q := (NewFromInt (trunc (d / d2 * pow10 precision)) / pow10 precision)%Qc in
    Some (q, (d - d2 * q)%Qc).

End Decimal.

(** ** Accounts and commodities

    Accounts and commodities are interned by name, so pointer identity is
    identity of names. *)

(** Modelled from the spec: the five account types, one for each root
    segment an account name may start with. *)
Inductive AccountType : Type := ASSETS | LIABILITIES | EQUITY | INCOME | EXPENSES.

Global Instance AccountType_eq_dec : EqDecision AccountType.
Proof. solve_decision. Defined.

Definition AccountType_code (t : AccountType) : nat :=
  match t with
  | ASSETS => 0 | LIABILITIES => 1 | EQUITY => 2 | INCOME => 3 | EXPENSES => 4
  end.

Definition AccountType_decode (n : nat) : AccountType :=
  match n with
  | 0 => ASSETS | 1 => LIABILITIES | 2 => EQUITY | 3 => INCOME | _ => EXPENSES
  end.

Global Instance AccountType_countable : Countable AccountType.
Proof.
  apply (inj_countable' AccountType_code AccountType_decode).
  by intros [].
Defined.

(** Modelled from the spec: [journal.Account], a colon-separated name whose
    root segment fixes the type of the account; the record holds the type for
    the root segment, and the segments after it. *)
Record Account : Type := mkAccount {
  acc_type : AccountType;
  acc_segments : list string;
}.

Global Instance Account_eq_dec : EqDecision Account.
Proof. solve_decision. Defined.

Global Instance Account_countable : Countable Account.
Proof.
  apply (inj_countable' (λ a, (acc_type a, acc_segments a))
                        (λ p, mkAccount p.1 p.2)).
  by intros [].
Defined.

Definition AccountType_name (t : AccountType) : string :=
  match t with
  | ASSETS => "Assets"
  | LIABILITIES => "Liabilities"
  | EQUITY => "Equity"
  | INCOME => "Income"
  | EXPENSES => "Expenses"
  end.

(** Modelled from the spec: [Account.Type], the type derived from the root
    segment. *)
Definition Account_Type (a : Account) : AccountType := acc_type a.

(** Modelled from the spec: [Account.Name], the fully qualified name. *)
Definition Account_Name (a : Account) : string :=
  String.concat ":" (AccountType_name (acc_type a) :: acc_segments a).

(** Modelled from the spec: [journal.Commodity], interned by its name. *)
Definition Commodity : Type := string.

Definition Commodity_Name (c : Commodity) : string := c.

(** Days are counted from a fixed epoch; every date is a midnight. *)
Definition Time : Type := Z.

Definition Time_Equal (t t2 : Time) : bool := bool_decide (t = t2).
Definition Time_Before (t t2 : Time) : bool := bool_decide (t < t2)%Z.

(** ** Directives ([ast/directive.go])

    The source range a directive carries is left out: no function below
    reads it. *)

Module ast.

Record Open := mkOpen { o_Date : Time; o_Account : Account }.
Record Close := mkClose { c_Date : Time; c_Account : Account }.

(** A lot. Its price is a machine float that nothing below reads; it is
    not part of the model. *)
Record Lot := mkLot { l_Date : Time; l_Label : string; l_Commodity : Commodity }.

Record Posting := mkPosting {
  Amount : Qc;
  Credit : Account;
  Debit : Account;
  p_Commodity : Commodity;
  Targets : list Commodity;
  p_Lot : option Lot;
}.

Definition NewPosting (crAccount drAccount : Account) (commodity : Commodity)
    (amt : Qc) : Posting :=
  if Decimal.IsNegative amt then
    mkPosting (Decimal.Neg amt) drAccount crAccount commodity [] None
  else
    mkPosting amt crAccount drAccount commodity [] None.

Definition NewPostingWithTargets (crAccount drAccount : Account)
    (commodity : Commodity) (amt : Qc) (targets : list Commodity) : Posting :=
  let p := NewPosting crAccount drAccount commodity amt in
  mkPosting (Amount p) (Credit p) (Debit p) (p_Commodity p) targets (p_Lot p).

Definition Posting_Less (p p2 : Posting) : bool :=
  if negb (bool_decide (Account_Name (Credit p) = Account_Name (Credit p2))) then
    String.ltb (Account_Name (Credit p)) (Account_Name (Credit p2))
  else if negb (bool_decide (Account_Name (Debit p) = Account_Name (Debit p2))) then
    String.ltb (Account_Name (Debit p)) (Account_Name (Debit p2))
  else if negb (Decimal.Equal (Amount p) (Amount p2)) then
    Decimal.LessThan (Amount p) (Amount p2)
  else String.ltb (Commodity_Name (p_Commodity p)) (Commodity_Name (p_Commodity p2)).

Definition Posting_Equal (p p2 : Posting) : bool :=
  bool_decide (Credit p = Credit p2)
  && bool_decide (Debit p = Debit p2)
  && Decimal.Equal (Amount p) (Amount p2)
  && bool_decide (p_Commodity p = p_Commodity p2).

Record Period := mkPeriod { Start : Time; End : Time }.

Inductive Interval := Once | Daily | Weekly | Monthly | Quarterly | Yearly.

Record Accrual := mkAccrual {
  a_Interval : Interval;
  T0 : Time;
  T1 : Time;
  a_Account : Account;
}.

(** The add-ons of a transaction are untyped values; an accrual is the
    only kind the assembler knows. *)
Inductive AddOn :=
| AddOnAccrual (a : Accrual)
| AddOnOther (tag : string).

Record Transaction := mkTransaction {
  t_Date : Time;
  Description : string;
  Tags : list string;
  Postings : list Posting;
  AddOns : list AddOn;
}.

(** The loop of [Transaction.Less]. The index [i] is declared before the
    loop and the loop body never assigns it, so each iteration tests the
    same pair of postings; [fuel] bounds the number of iterations the model
    runs, and [None] stands for a loop that is still running. *)
Fixpoint Less_loop (fuel : nat) (ps ps2 : list Posting) (i : nat) : option bool :=
  match fuel with
  | O => None
  | S fuel' =>
    if bool_decide (i < length ps) && bool_decide (i < length ps2) then
      match ps !! i, ps2 !! i with
      | Some p, Some p2 =>
        if negb (Posting_Equal p p2) then Some (Posting_Less p p2)
        else Less_loop fuel' ps ps2 i
      | _, _ => None (* not reached: [i] is below both lengths *)
      end
    else Some (bool_decide (length ps < length ps2))
  end.

Definition Transaction_Less (fuel : nat) (t t2 : Transaction) : option bool :=
  if negb (Time_Equal (t_Date t) (t_Date t2)) then
    Some (Time_Before (t_Date t) (t_Date t2))
  else if negb (bool_decide (Description t = Description t2)) then
    Some (String.ltb (Description t) (Description t2))
  else Less_loop fuel (Postings t) (Postings t2) 0.

Record Price := mkPrice {
  pr_Date : Time; pr_Commodity : Commodity; pr_Target : Commodity; pr_Price : Qc;
}.

Record Assertion := mkAssertion {
  as_Date : Time; as_Account : Account; as_Amount : Qc; as_Commodity : Commodity;
}.

Record Value := mkValue {
  v_Date : Time; v_Account : Account; v_Amount : Qc; v_Commodity : Commodity;
}.

(** The amounts a list of transactions carries, transaction by
    transaction. *)
Definition amountsOf (ts : list Transaction) : list (list Qc) :=
  (λ t, Amount <$> Postings t) <$> ts.

Definition isAL (a : Account) : bool :=
  bool_decide (Account_Type a = ASSETS) || bool_decide (Account_Type a = LIABILITIES).

Definition isIE (a : Account) : bool :=
  bool_decide (Account_Type a = INCOME) || bool_decide (Account_Type a = EXPENSES).

Definition accrualDescription (description : string) (i n : nat) : string :=
  description +:+ " (accrual " +:+ pretty i +:+ "/" +:+ pretty n +:+ ")".

(** The four accounts [Expand] routes the posting through: the credit and
    debit of the single transaction, then those of the period
    transactions. *)
Definition accrualAccounts (a : Accrual) (posting : Posting)
    : (Account * Account) * (Account * Account) :=
  if isAL (Credit posting) && isIE (Debit posting) then
    ((Credit posting, a_Account a), (a_Account a, Debit posting))
  else if isIE (Credit posting) && isAL (Debit posting) then
    ((a_Account a, Debit posting), (Credit posting, a_Account a))
  else if isIE (Credit posting) && isIE (Debit posting) then
    ((a_Account a, a_Account a), (Credit posting, Debit posting))
  else
    ((Credit posting, Debit posting), (a_Account a, a_Account a)).

(** [Accrual.Expand]. [Periods] is [date.Periods]. [None] is a panic:
    reading [t.Postings[0]] of a transaction without postings, or
    dividing by an empty list of periods. *)
Definition Expand (Periods : Time → Time → Interval → list Period)
    (a : Accrual) (t : Transaction) : option (list Transaction) :=
  match Postings t with
  | [] => None
  | posting :: _ =>
    let '((crAccountSingle, drAccountSingle), (crAccountMulti, drAccountMulti)) :=
      accrualAccounts a posting in
    let periods := Periods (T0 a) (T1 a) (a_Interval a) in
    match Decimal.QuoRem (Amount posting)
            (Decimal.NewFromInt (Z.of_nat (length periods))) 1 with
    | None => None
    | Some (amount, rem) =>
      let multi :=
        if bool_decide (crAccountMulti ≠ drAccountMulti) then
          imap (λ i period,
                  mkTransaction (End period)
                    (accrualDescription (Description t) (i + 1) (length periods))
                    (Tags t)
                    [NewPosting crAccountMulti drAccountMulti (p_Commodity posting)
                       (if bool_decide (i = 0) then Decimal.Add amount rem
                        else amount)]
                    [])
               periods
        else [] in
      let single :=
        if bool_decide (crAccountSingle ≠ drAccountSingle) then
          [mkTransaction (t_Date t) (Description t) (Tags t)
             [NewPosting crAccountSingle drAccountSingle (p_Commodity posting)
                (Amount posting)]
             []]
        else [] in
      Some (multi ++ single)
    end
  end.

End ast.

(** ** Position maps ([lib/common/amounts]) *)

Module amounts.

(** A position key: an account and a commodity. *)
Abbreviation CommodityAccount := (Account * Commodity)%type.

Abbreviation Amounts := (gmap (Account * Commodity) Qc).

Definition AccountCommodityKey (a : Account) (c : Commodity) : CommodityAccount :=
  (a, c).

(** Reading a Go map at a missing key gives the zero decimal. *)
Definition get (am : Amounts) (pos : CommodityAccount) : Qc :=
  default Decimal.Zero (am !! pos).

(** Modelled from the spec: [Amounts.Amount], the amount of a position,
    zero when the position is absent. *)
Definition Amount (am : Amounts) (a : Account) (c : Commodity) : Qc :=
  get am (a, c).

(** Modelled from the spec: [Amounts.Add], which adds a decimal to the
    position at a key, creating the position when it is absent. *)
Definition Add (am : Amounts) (pos : CommodityAccount) (v : Qc) : Amounts :=
  <[pos := Decimal.Add (get am pos) v]> am.

(** Modelled from the spec: [Amounts.Book], which applies
    [amounts[(cr,c)] -= a; amounts[(dr,c)] += a]. *)
Definition Book (am : Amounts) (cr dr : Account) (a : Qc) (c : Commodity)
    : Amounts :=
  let am1 := <[(cr, c) := Decimal.Sub (get am (cr, c)) a]> am in
  <[(dr, c) := Decimal.Add (get am1 (dr, c)) a]> am1.

(** Modelled from the spec: [Amounts.Clone], a copy of the map; a copy of
    an immutable map is the map. *)
Definition Clone (am : Amounts) : Amounts := am.

(** The sum of all positions of commodity [k]. *)
Definition total (k : Commodity) (am : Amounts) : Qc :=
  map_fold (λ pos v acc, if bool_decide (pos.2 = k) then (acc + v)%Qc else acc)
           0%Qc am.

(** What a position contributes to the total of commodity [k]. *)
Definition weight (k : Commodity) (pos : CommodityAccount) (v : Qc) : Qc :=
  if bool_decide (pos.2 = k) then v else 0%Qc.

(** The positions that stay when account [a] is closed. *)
Definition keeps (a : Account) (e : CommodityAccount * Qc) : Prop :=
  e.1.1 ≠ a.

Global Instance keeps_dec a e : Decision (keeps a e).
Proof. unfold keeps. apply _. Defined.

(** An enumeration of the positions of a map, in any order: what a Go
    [range] over the map visits. *)
Definition enumerates (order : list (CommodityAccount * Qc)) (am : Amounts)
    : Prop :=
  ∀ pos v, (pos, v) ∈ order ↔ am !! pos = Some v.

End amounts.

Import amounts.

(** ** The journal context *)

Module journal.

(** The context interns accounts and commodities and resolves the
    designated accounts. [ValuationAccountFor] is the one lookup the
    stages below use; its rule is a parameter of the model. *)
Record Context := mkContext {
  ValuationAccountFor : Account → Account;
}.

(** Normalised prices of one day: the price of each reachable commodity
    in the valuation commodity. *)
Abbreviation NormalizedPrices := (gmap Commodity Qc).

End journal.

Module Day.

Record t := mk {
  Date : Time;
  Prices : list ast.Price;
  Assertions : list ast.Assertion;
  Values : list ast.Value;
  Openings : list ast.Open;
  Transactions : list ast.Transaction;
  Closings : list ast.Close;
  Amounts : gmap (Account * Commodity) Qc;
  Value : gmap (Account * Commodity) Qc;
  Normalized : gmap Commodity Qc;
}.

Definition empty (d : Time) : t := mk d [] [] [] [] [] [] ∅ ∅ ∅.

Definition with_Transactions (d : t) (ts : list ast.Transaction) : t :=
  mk (Date d) (Prices d) (Assertions d) (Values d) (Openings d) ts
     (Closings d) (Amounts d) (Value d) (Normalized d).

Definition with_Prices (d : t) (ps : list ast.Price) : t :=
  mk (Date d) ps (Assertions d) (Values d) (Openings d) (Transactions d)
     (Closings d) (Amounts d) (Value d) (Normalized d).

Definition with_Assertions (d : t) (l : list ast.Assertion) : t :=
  mk (Date d) (Prices d) l (Values d) (Openings d) (Transactions d)
     (Closings d) (Amounts d) (Value d) (Normalized d).

Definition with_Values (d : t) (l : list ast.Value) : t :=
  mk (Date d) (Prices d) (Assertions d) l (Openings d) (Transactions d)
     (Closings d) (Amounts d) (Value d) (Normalized d).

Definition with_Openings (d : t) (l : list ast.Open) : t :=
  mk (Date d) (Prices d) (Assertions d) (Values d) l (Transactions d)
     (Closings d) (Amounts d) (Value d) (Normalized d).

Definition with_Closings (d : t) (l : list ast.Close) : t :=
  mk (Date d) (Prices d) (Assertions d) (Values d) (Openings d)
     (Transactions d) l (Amounts d) (Value d) (Normalized d).

Definition with_Amounts (d : t) (am : gmap (Account * Commodity) Qc) : t :=
  mk (Date d) (Prices d) (Assertions d) (Values d) (Openings d)
     (Transactions d) (Closings d) am (Value d) (Normalized d).

End Day.

(** ** The balancer of [process/balancer.go] *)

Module balancer.

Import ast.

Record Balancer := mkBalancer { Context : journal.Context }.

(** Every error the balancer returns, by the place that returns it. *)
Inductive Error :=
| AccountAlreadyOpen (a : Account)
| AccountAlreadyClosed (a : Account)
| CreditNotOpen (t : Transaction) (a : Account)
| DebitNotOpen (t : Transaction) (a : Account)
| ValueAccountNotOpen (v : Value)
| AssertionAccountNotOpen (a : Assertion)
| AssertionFailed (a : Assertion) (actual : Qc)
| NonzeroClose (c : ast.Close).

(** [accounts] is a [map[*Account]bool]; a missing key reads [false]. *)
Abbreviation accounts := (gmap Account bool).

Definition has (oa : accounts) (a : Account) : bool := default false (oa !! a).

Definition Open (oa : accounts) (a : Account) : result Error accounts :=
  if has oa a then Err (AccountAlreadyOpen a)
  else Ok (<[a := true]> oa).

Definition Close (oa : accounts) (a : Account) : result Error accounts :=
  if negb (has oa a) then Err (AccountAlreadyClosed a)
  else Ok (delete a oa).

Definition IsOpen (oa : accounts) (a : Account) : bool :=
  has oa a || bool_decide (Account_Type a = EQUITY).

Definition processOpenings (oa : accounts) (d : Day.t) : result Error accounts :=
  forM (λ oa o, Open oa (o_Account o)) oa (Day.Openings d).

Definition bookPosting (oa : accounts) (t : Transaction) (am : Amounts)
    (p : Posting) : result Error Amounts :=
  if negb (IsOpen oa (Credit p)) then Err (CreditNotOpen t (Credit p))
  else if negb (IsOpen oa (Debit p)) then Err (DebitNotOpen t (Debit p))
  else Ok (Book am (Credit p) (Debit p) (ast.Amount p) (p_Commodity p)).

Definition processTransactions (oa : accounts) (am : Amounts) (d : Day.t)
    : result Error Amounts :=
  forM (λ am t, forM (bookPosting oa t) am (Postings t)) am (Day.Transactions d).

Definition valuationDescription (c : Commodity) (a : Account) : string :=
  "Valuation adjustment for " +:+ Commodity_Name c +:+ " in " +:+ Account_Name a.

Definition processValue (pr : Balancer) (oa : accounts)
    (st : Amounts * list Transaction) (v : Value)
    : result Error (Amounts * list Transaction) :=
  let '(am, transactions) := st in
  if negb (IsOpen oa (v_Account v)) then Err (ValueAccountNotOpen v)
  else
    let valAcc := journal.ValuationAccountFor (Context pr) (v_Account v) in
    let posting :=
      NewPostingWithTargets valAcc (v_Account v) (v_Commodity v)
        (Decimal.Sub (v_Amount v) (amounts.Amount am (v_Account v) (v_Commodity v)))
        [v_Commodity v] in
    let am' := Book am (Credit posting) (Debit posting) (ast.Amount posting)
                    (p_Commodity posting) in
    Ok (am', transactions ++ [mkTransaction (v_Date v)
                (valuationDescription (v_Commodity v) (v_Account v))
                [] [posting] []]).

Definition processValues (pr : Balancer) (oa : accounts) (am : Amounts)
    (d : Day.t) : result Error (Amounts * list Transaction) :=
  forM (processValue pr oa) (am, []) (Day.Values d).

Definition checkAssertion (oa : accounts) (amts : Amounts) (_ : unit)
    (a : Assertion) : result Error unit :=
  if negb (IsOpen oa (as_Account a)) then Err (AssertionAccountNotOpen a)
  else
    let position := (as_Account a, as_Commodity a) in
    match amts !! position with
    | Some va =>
      if negb (Decimal.Equal va (as_Amount a)) then Err (AssertionFailed a va)
      else Ok ()
    | None => Err (AssertionFailed a Decimal.Zero)
    end.

Definition processAssertions (oa : accounts) (amts : Amounts) (d : Day.t)
    : result Error unit :=
  forM (checkAssertion oa amts) () (Day.Assertions d).

(** The body of the loop over the positions in [processClosings]. *)
Definition closePosition (c : ast.Close) (am : Amounts)
    (entry : (Account * Commodity) * Qc) : result Error Amounts :=
  let '(pos, amount) := entry in
  if negb (bool_decide (pos.1 = c_Account c)) then Ok am
  else if negb (Decimal.IsZero amount) then Err (NonzeroClose c)
  else Ok (delete pos am).

(** One closing. The positions are visited in the order [order] lists
    them; Go visits a map in an unspecified order. *)
Definition processClosingIn (order : list ((Account * Commodity) * Qc))
    (st : accounts * Amounts) (c : ast.Close) : result Error (accounts * Amounts) :=
  am ← forM (closePosition c) st.2 order;
  oa ← Close st.1 (c_Account c);
  Ok (oa, am).

Definition processClosing (st : accounts * Amounts) (c : ast.Close)
    : result Error (accounts * Amounts) :=
  processClosingIn (map_to_list st.2) st c.

Definition processClosings (oa : accounts) (am : Amounts) (d : Day.t)
    : result Error (accounts * Amounts) :=
  forM processClosing (oa, am) (Day.Closings d).

(** The body of the loop of [Process2]: one day in, one day out. *)
Definition processDay (pr : Balancer) (st : accounts * Amounts) (d : Day.t)
    : result Error ((accounts * Amounts) * Day.t) :=
  oa ← processOpenings st.1 d;
  am ← processTransactions oa st.2 d;
  r ← processValues pr oa am d;
  _ ← processAssertions oa r.1 d;
  st' ← processClosings oa r.1 d;
  Ok (st', Day.with_Amounts
             (Day.with_Transactions d (Day.Transactions d ++ r.2))
             (Clone st'.2)).

(** The days pushed to the result channel and the maps the stage holds
    after the input channel is drained. The channels are the lists of the
    days that travel through them; a cancelled context is outside the
    model. *)
Fixpoint run (pr : Balancer) (st : accounts * Amounts) (ds : list Day.t)
    : result Error ((accounts * Amounts) * list Day.t) :=
  match ds with
  | [] => Ok (st, [])
  | d :: ds' =>
    r ← processDay pr st d;
    r' ← run pr r.1 ds';
    Ok (r'.1, r.2 :: r'.2)
  end.

Definition Process2 (pr : Balancer) (ds : list Day.t)
    : result Error ((accounts * Amounts) * list Day.t) :=
  run pr (∅, ∅) ds.

(** Account [a] is gone from the maps of the stage: it is not in the map
    of open accounts and no position of it is left, zero or not. *)
Definition gone (a : Account) (st : accounts * Amounts) : Prop :=
  st.1 !! a = None ∧ ∀ k, st.2 !! (a, k) = None.

End balancer.

(** ** The assembler of days ([ASTBuilder.Source2]) *)

Module astbuilder.

Import ast.

(** Modelled from the spec: [journal.Filter], two predicates, each a
    regular expression in the program. *)
Record Filter := mkFilter {
  MatchAccount : Account → bool;
  MatchCommodity : Commodity → bool;
}.

Definition Posting_Matches (p : Posting) (b : Filter) : bool :=
  (MatchAccount b (Credit p) || MatchAccount b (Debit p))
  && MatchCommodity b (p_Commodity p).

(** What the parser sends down its channel. *)
Inductive Directive :=
| DOpen (o : ast.Open)
| DPrice (p : ast.Price)
| DTransaction (t : ast.Transaction)
| DAssertion (a : ast.Assertion)
| DValue (v : ast.Value)
| DClose (c : ast.Close)
| DCurrency (date : Time) (c : Commodity)
| DInclude (path : string).

Inductive Error :=
| UnknownDirective (d : Directive)
| UnknownAddon (a : AddOn)
| ExpandPanic (t : ast.Transaction).

(** The days of an [ast.AST], by date. *)
Abbreviation AST := (gmap Z Day.t).

(** [AST.Day]: the day of a date, made on first use, and the [Add]
    methods, as [Journal] has them. *)
Definition AST_Day (days : AST) (d : Time) : Day.t :=
  default (Day.empty d) (days !! d).

Definition AddOpen (days : AST) (o : ast.Open) : AST :=
  let d := AST_Day days (o_Date o) in
  <[o_Date o := Day.with_Openings d (Day.Openings d ++ [o])]> days.

Definition AddPrice (days : AST) (p : ast.Price) : AST :=
  let d := AST_Day days (pr_Date p) in
  <[pr_Date p := Day.with_Prices d (Day.Prices d ++ [p])]> days.

Definition AddTransaction (days : AST) (t : ast.Transaction) : AST :=
  let d := AST_Day days (t_Date t) in
  <[t_Date t := Day.with_Transactions d (Day.Transactions d ++ [t])]> days.

Definition AddValue (days : AST) (v : ast.Value) : AST :=
  let d := AST_Day days (v_Date v) in
  <[v_Date v := Day.with_Values d (Day.Values d ++ [v])]> days.

Definition AddAssertion (days : AST) (a : ast.Assertion) : AST :=
  let d := AST_Day days (as_Date a) in
  <[as_Date a := Day.with_Assertions d (Day.Assertions d ++ [a])]> days.

Definition AddClose (days : AST) (c : ast.Close) : AST :=
  let d := AST_Day days (c_Date c) in
  <[c_Date c := Day.with_Closings d (Day.Closings d ++ [c])]> days.

Record ASTBuilder := mkASTBuilder { Context : journal.Context;
  Journal : string;
  Expand : bool;
  Filter_ : Filter;
}.

Definition with_Postings (t : Transaction) (ps : list Posting) : Transaction :=
  mkTransaction (t_Date t) (Description t) (Tags t) ps (AddOns t).

(** The loop over the add-ons of a transaction. *)
Definition addOnStep (Periods : Time → Time → Interval → list Period)
    (t : Transaction) (days : AST) (addOn : AddOn) : result Error AST :=
  match addOn with
  | AddOnAccrual acc =>
    match ast.Expand Periods acc t with
    | Some tss => Ok (foldl AddTransaction days tss)
    | None => Err (ExpandPanic t)
    end
  | AddOnOther _ => Err (UnknownAddon addOn)
  end.

(** The body of the loop of [Source2]: the type switch on one directive. *)
Definition addDirective (Periods : Time → Time → Interval → list Period)
    (pr : ASTBuilder) (days : AST) (d : Directive) : result Error AST :=
  match d with
  | DOpen t => Ok (AddOpen days t)
  | DPrice t => Ok (AddPrice days t)
  | DTransaction t =>
    let filtered := filter (λ p, Posting_Matches p (Filter_ pr) = true) (Postings t) in
    if bool_decide (length filtered = 0) then Ok days
    else
      let t := if bool_decide (length filtered < length (Postings t))
               then with_Postings t filtered else t in
      if bool_decide (0 < length (AddOns t)) then
        forM (addOnStep Periods t) days (AddOns t)
      else Ok (AddTransaction days t)
  | DAssertion t =>
    if negb (MatchAccount (Filter_ pr) (as_Account t)) then Ok days
    else if negb (MatchCommodity (Filter_ pr) (as_Commodity t)) then Ok days
    else Ok (AddAssertion days t)
  | DValue t =>
    if negb (MatchAccount (Filter_ pr) (v_Account t)) then Ok days
    else if negb (MatchCommodity (Filter_ pr) (v_Commodity t)) then Ok days
    else Ok (AddValue days t)
  | DClose t =>
    if negb (MatchAccount (Filter_ pr) (c_Account t)) then Ok days
    else Ok (AddClose days t)
  | _ => Err (UnknownDirective d)
  end.

(** [CompareDays]: days are ordered by date. *)
Definition Day_le (d d2 : Day.t) : Prop := (Day.Date d ≤ Day.Date d2)%Z.

Global Instance Day_le_dec : RelDecision Day_le.
Proof. intros d d2. unfold Day_le. apply _. Defined.

(** The days in ascending order of date, as [SortedDays] returns them;
    [sortTransactions] is the sort it applies to the transactions of each
    day. *)
Definition SortedDays (sortTransactions : list Transaction → list Transaction)
    (days : AST) : list Day.t :=
  merge_sort Day_le
    ((λ e : Z * Day.t,
        Day.with_Transactions e.2 (sortTransactions (Day.Transactions e.2)))
       <$> map_to_list days).

(** The AST after the parser's channel is drained. *)
Definition assemble (Periods : Time → Time → Interval → list Period)
    (pr : ASTBuilder) (ds : list Directive) : result Error AST :=
  forM (addDirective Periods pr) ∅ ds.

(** The Close, Assertion and Value directives of a stream that are dated
    [date] and pass the filter as the specification words it: a Close by its
    account, an Assertion or a Value by its account and its commodity. *)
Definition retainedClosings (b : Filter) (date : Time) (ds : list Directive)
    : list ast.Close :=
  ds ≫= λ d,
    match d with
    | DClose c =>
      if bool_decide (c_Date c = date) && MatchAccount b (c_Account c)
      then [c] else []
    | _ => []
    end.

Definition retainedAssertions (b : Filter) (date : Time) (ds : list Directive)
    : list ast.Assertion :=
  ds ≫= λ d,
    match d with
    | DAssertion a =>
      if bool_decide (as_Date a = date) && MatchAccount b (as_Account a)
         && MatchCommodity b (as_Commodity a)
      then [a] else []
    | _ => []
    end.

Definition retainedValues (b : Filter) (date : Time) (ds : list Directive)
    : list ast.Value :=
  ds ≫= λ d,
    match d with
    | DValue v =>
      if bool_decide (v_Date v = date) && MatchAccount b (v_Account v)
         && MatchCommodity b (v_Commodity v)
      then [v] else []
    | _ => []
    end.

(** The directives of a day that the filter decides on. *)
Definition filtered (days : AST) (date : Time)
    : list ast.Close * list ast.Assertion * list ast.Value :=
  (Day.Closings (AST_Day days date), Day.Assertions (AST_Day days date),
   Day.Values (AST_Day days date)).

(** The days [Source2] pushes to its result channel. *)
Definition Source2 (Periods : Time → Time → Interval → list Period)
    (sortTransactions : list Transaction → list Transaction)
    (pr : ASTBuilder) (ds : list Directive) : result Error (list Day.t) :=
  days ← assemble Periods pr ds;
  Ok (SortedDays sortTransactions days).

End astbuilder.

(** ** Balancing and valuation in one pass ([journal.Balance], [process.go]) *)

Module process.

Record Posting := mkPosting {
  Account_ : Account;
  Other : Account;
  p_Commodity : Commodity;
  Amount : Qc;
  Value : Qc;
  Targets : list Commodity;
}.

Record PostingBuilder := mkPostingBuilder {
  Credit : Account;
  Debit : Account;
  pb_Commodity : Commodity;
  pb_Amount : Qc;
  pb_Value : Qc;
  pb_Targets : list Commodity;
}.

Record Transaction := mkTransaction {
  t_Date : Time;
  Description : string;
  Postings : list Posting;
}.

Record Day := mkDay {
  Date : Time;
  Prices : list ast.Price;
  Assertions : list ast.Assertion;
  Values : list ast.Value;
  Openings : list ast.Open;
  Transactions : list Transaction;
  Closings : list ast.Close;
  Normalized : gmap Commodity Qc;
}.

Definition with_Transactions (d : Day) (ts : list Transaction) : Day :=
  mkDay (Date d) (Prices d) (Assertions d) (Values d) (Openings d) ts
        (Closings d) (Normalized d).

(** What the stage needs from the rest of the package: the valuation
    account rule of the context, [PostingBuilder.Build], and the sort
    [compare.Sort(_, CompareTransactions)]. *)
Record Env := mkEnv {
  jctx : journal.Context;
  Build : PostingBuilder → list Posting;
  sortTransactions : list Transaction → list Transaction;
}.

Inductive Error :=
| AccountAlreadyOpen (o : ast.Open)
| AccountNotOpen (t : Transaction) (a : Account)
| ValueAccountNotOpen (v : ast.Value)
| AssertionAccountNotOpen (a : ast.Assertion)
| AssertionFailed (a : ast.Assertion) (actual : Qc)
| NonzeroClose (c : ast.Close) (amount : Qc) (k : Commodity)
| CloseAccountNotOpen (c : ast.Close)
| NoPrice (k : Commodity)
| NoValuation (k : Commodity).

(** The maps and the set the closure returned by [Balance] captures. *)
Record State := mkState {
  st_amounts : gmap (Account * Commodity) Qc;
  st_values : gmap (Account * Commodity) Qc;
  st_accounts : gset Account;
}.

Definition init : State := mkState ∅ ∅ ∅.

(** Modelled from the spec: [NormalizedPrices.Valuate], the amount times
    the normalised price of the commodity, an error when the commodity has
    no price. *)
Definition Valuate (n : gmap Commodity Qc) (c : Commodity) (a : Qc) : option Qc :=
  match n !! c with
  | Some price => Some (Decimal.Mul a price)
  | None => None
  end.

Definition processOpenings (accounts : gset Account) (d : Day)
    : result Error (gset Account) :=
  forM (λ (accounts : gset Account) o,
          if bool_decide (ast.o_Account o ∈ accounts)
          then Err (AccountAlreadyOpen o)
          else Ok ({[ast.o_Account o]} ∪ accounts))
       accounts (Openings d).

Definition bookPosting (accounts : gset Account) (t : Transaction)
    (am : Amounts) (p : Posting) : result Error Amounts :=
  if negb (bool_decide (Account_ p ∈ accounts))
  then Err (AccountNotOpen t (Account_ p))
  else if ast.isAL (Account_ p)
       then Ok (amounts.Add am (AccountCommodityKey (Account_ p) (p_Commodity p))
                            (Amount p))
       else Ok am.

Definition processTransactions (accounts : gset Account) (am : Amounts) (d : Day)
    : result Error Amounts :=
  forM (λ am t, forM (bookPosting accounts t) am (Postings t)) am (Transactions d).

Definition valuationDescription (c : Commodity) (a : Account) : string :=
  "Valuation adjustment for " +:+ Commodity_Name c +:+ " in " +:+ Account_Name a.

Definition processValue (env : Env) (accounts : gset Account)
    (st : Amounts * list Transaction) (v : ast.Value)
    : result Error (Amounts * list Transaction) :=
  let '(am, transactions) := st in
  if negb (bool_decide (ast.v_Account v ∈ accounts))
  then Err (ValueAccountNotOpen v)
  else
    let valAcc := journal.ValuationAccountFor (jctx env) (ast.v_Account v) in
    let amount :=
      Decimal.Sub (ast.v_Amount v)
        (amounts.get am (AccountCommodityKey (ast.v_Account v) (ast.v_Commodity v))) in
    let ps := Build env
                (mkPostingBuilder valAcc (ast.v_Account v) (ast.v_Commodity v)
                   amount Decimal.Zero [ast.v_Commodity v]) in
    Ok (amounts.Add am (AccountCommodityKey (ast.v_Account v) (ast.v_Commodity v))
                    amount,
        transactions ++ [mkTransaction (ast.v_Date v)
           (valuationDescription (ast.v_Commodity v) (ast.v_Account v)) ps]).

Definition processValues (env : Env) (accounts : gset Account) (am : Amounts)
    (d : Day) : result Error (Amounts * Day) :=
  r ← forM (processValue env accounts) (am, Transactions d) (Values d);
  Ok (r.1, with_Transactions d (sortTransactions env r.2)).

Definition checkAssertion (accounts : gset Account) (am : Amounts) (_ : unit)
    (a : ast.Assertion) : result Error unit :=
  if negb (bool_decide (ast.as_Account a ∈ accounts))
  then Err (AssertionAccountNotOpen a)
  else
    let position := AccountCommodityKey (ast.as_Account a) (ast.as_Commodity a) in
    match am !! position with
    | Some va =>
      if negb (Decimal.Equal va (ast.as_Amount a)) then Err (AssertionFailed a va)
      else Ok ()
    | None => Err (AssertionFailed a Decimal.Zero)
    end.

Definition processAssertions (accounts : gset Account) (am : Amounts) (d : Day)
    : result Error unit :=
  forM (checkAssertion accounts am) () (Assertions d).

Definition closePosition (c : ast.Close) (am : Amounts)
    (entry : (Account * Commodity) * Qc) : result Error Amounts :=
  let '(pos, amount) := entry in
  if negb (bool_decide (pos.1 = ast.c_Account c)) then Ok am
  else if negb (Decimal.IsZero amount) then Err (NonzeroClose c amount pos.2)
  else Ok (delete pos am).

Definition processClosingIn (order : list ((Account * Commodity) * Qc))
    (st : gset Account * Amounts) (c : ast.Close)
    : result Error (gset Account * Amounts) :=
  am ← forM (closePosition c) st.2 order;
  if negb (bool_decide (ast.c_Account c ∈ st.1)) then Err (CloseAccountNotOpen c)
  else Ok (st.1 ∖ {[ast.c_Account c]}, am).

Definition processClosing (st : gset Account * Amounts) (c : ast.Close)
    : result Error (gset Account * Amounts) :=
  processClosingIn (map_to_list st.2) st c.

Definition processClosings (accounts : gset Account) (am : Amounts) (d : Day)
    : result Error (gset Account * Amounts) :=
  forM processClosing (accounts, am) (Closings d).

Definition with_Value (p : Posting) (value : Qc) : Posting :=
  mkPosting (Account_ p) (Other p) (p_Commodity p) (Amount p) value (Targets p).

(** One posting of [valuateTransactions]: the posting is valuated in
    place and an asset or liability posting is added to [values]. *)
Definition valuatePosting (v : Commodity) (normalized : gmap Commodity Qc)
    (values : Amounts) (posting : Posting) : result Error (Amounts * Posting) :=
  posting' ←
    (if negb (bool_decide (v = p_Commodity posting)) then
       match Valuate normalized (p_Commodity posting) (Amount posting) with
       | Some value => Ok (with_Value posting value)
       | None => Err (NoPrice (p_Commodity posting))
       end
     else Ok (with_Value posting (Amount posting)));
  if ast.isAL (Account_ posting') then
    Ok (amounts.Add values
          (AccountCommodityKey (Account_ posting') (p_Commodity posting'))
          (Value posting'),
        posting')
  else Ok (values, posting').

(** A loop that rewrites the elements of a list while it threads a state. *)
Fixpoint mapM {E S X} (body : S → X → result E (S * X)) (s : S) (xs : list X)
    : result E (S * list X) :=
  match xs with
  | [] => Ok (s, [])
  | x :: xs' =>
    r ← body s x;
    r' ← mapM body r.1 xs';
    Ok (r'.1, r.2 :: r'.2)
  end.

Definition valuateTransactions (v : Commodity) (values : Amounts) (d : Day)
    : result Error (Amounts * Day) :=
  r ← mapM (λ values t,
              r ← mapM (valuatePosting v (Normalized d)) values (Postings t);
              Ok (r.1, mkTransaction (t_Date t) (Description t) r.2))
           values (Transactions d);
  Ok (r.1, with_Transactions d r.2).

Definition gainDescription (c : Commodity) (a : Account) : string :=
  "Adjust value of " +:+ Commodity_Name c +:+ " in account " +:+ Account_Name a.

(** The transaction [valuateGains] appends for a gain on a position. *)
Definition gainTransaction (env : Env) (date : Time) (pos : Account * Commodity)
    (gain : Qc) : Transaction :=
  mkTransaction date (gainDescription pos.2 pos.1)
    (Build env
       (mkPostingBuilder (journal.ValuationAccountFor (jctx env) pos.1) pos.1
          pos.2 Decimal.Zero gain [pos.2])).

(** The body of the loop of [valuateGains] over the positions. *)
Definition valuateGain (env : Env) (v : Commodity) (date : Time)
    (normalized : gmap Commodity Qc) (st : list Transaction * Amounts)
    (entry : (Account * Commodity) * Qc)
    : result Error (list Transaction * Amounts) :=
  let '(pos, amt) := entry in
  if bool_decide (pos.2 = v) then Ok st
  else if negb (ast.isAL pos.1) then Ok st
  else
    match Valuate normalized pos.2 amt with
    | None => Err (NoValuation pos.2)
    | Some value =>
      let gain := Decimal.Sub value (amounts.get st.2 pos) in
      if Decimal.IsZero gain then Ok st
      else
        let credit := journal.ValuationAccountFor (jctx env) pos.1 in
        Ok (st.1 ++ [gainTransaction env date pos gain],
            amounts.Add (amounts.Add st.2 pos gain)
                        (AccountCommodityKey credit pos.2) (Decimal.Neg gain))
    end.

(** [valuateGains], visiting the positions in the order [order] lists
    them; Go visits a map in an unspecified order. *)
Definition valuateGainsIn (order : list ((Account * Commodity) * Qc))
    (env : Env) (v : Commodity) (values : Amounts) (d : Day)
    : result Error (Amounts * Day) :=
  r ← forM (valuateGain env v (Date d) (Normalized d)) (Transactions d, values) order;
  Ok (r.2, with_Transactions d r.1).

Definition valuateGains (env : Env) (v : Commodity) (am values : Amounts) (d : Day)
    : result Error (Amounts * Day) :=
  valuateGainsIn (map_to_list am) env v values d.

(** The gain on a position as the specification words it: nothing for a
    position in the valuation commodity or outside the asset and liability
    accounts, otherwise the valuation of the amount minus [values[(a,k)]],
    read from the map [values] as it is when the stage starts on the day;
    nothing again when that difference is zero. *)
Definition gainOf (v : Commodity) (normalized : gmap Commodity Qc)
    (values : Amounts) (entry : (Account * Commodity) * Qc)
    : result Error (option Qc) :=
  if bool_decide (entry.1.2 = v) then Ok None
  else if negb (ast.isAL entry.1.1) then Ok None
  else
    match Valuate normalized entry.1.2 entry.2 with
    | None => Err (NoValuation entry.1.2)
    | Some value =>
      let gain := Decimal.Sub value (amounts.get values entry.1) in
      if Decimal.IsZero gain then Ok None else Ok (Some gain)
    end.

(** The update for a gain: one transaction more, [values[(a,k)] += gain]
    and [values[(valuation account of a, k)] -= gain]. *)
Definition applyGain (env : Env) (date : Time) (st : list Transaction * Amounts)
    (pos : Account * Commodity) (gain : Qc) : list Transaction * Amounts :=
  (st.1 ++ [gainTransaction env date pos gain],
   amounts.Add (amounts.Add st.2 pos gain)
     (journal.ValuationAccountFor (jctx env) pos.1, pos.2) (Decimal.Neg gain)).

(** One position of the specification: the gain is computed from
    [values0], the values at the start, whatever was updated since. *)
Definition specGain (env : Env) (v : Commodity) (date : Time)
    (normalized : gmap Commodity Qc) (values0 : Amounts)
    (st : list Transaction * Amounts) (entry : (Account * Commodity) * Qc)
    : result Error (list Transaction * Amounts) :=
  g ← gainOf v normalized values0 entry;
  Ok (match g with
      | Some gain => applyGain env date st entry.1 gain
      | None => st
      end).

(** The gain of an entry as a number, zero where there is none. *)
Definition gainAt (v : Commodity) (normalized : gmap Commodity Qc)
    (values0 : Amounts) (entry : (Account * Commodity) * Qc) : Qc :=
  match gainOf v normalized values0 entry with
  | Ok (Some gain) => gain
  | _ => 0%Qc
  end.

(** The transactions of the specification for a list of positions. *)
Definition gainTransactions (env : Env) (v : Commodity) (date : Time)
    (normalized : gmap Commodity Qc) (values0 : Amounts)
    (order : list ((Account * Commodity) * Qc)) : list Transaction :=
  order ≫= λ entry,
    match gainOf v normalized values0 entry with
    | Ok (Some gain) => [gainTransaction env date entry.1 gain]
    | _ => []
    end.

(** The sum of the gains of the positions whose valuation position is
    [key]. *)
Definition gainsCreditedTo (env : Env) (v : Commodity)
    (normalized : gmap Commodity Qc) (values0 : Amounts)
    (order : list ((Account * Commodity) * Qc)) (key : Account * Commodity) : Qc :=
  Decimal.Sum
    (order ≫= λ entry,
       if bool_decide ((journal.ValuationAccountFor (jctx env) entry.1.1, entry.1.2) = key)
       then [gainAt v normalized values0 entry] else []).

(** The valuation accounts of the asset and liability accounts met in a
    list of positions are not asset or liability accounts themselves. *)
Definition valuation_apart (env : Env)
    (order : list ((Account * Commodity) * Qc)) : Prop :=
  ∀ entry, entry ∈ order → ast.isAL entry.1.1 = true →
    ast.isAL (journal.ValuationAccountFor (jctx env) entry.1.1) = false.

(** The function [Balance] returns, with the captured maps made explicit;
    [v] is the valuation commodity, if one is configured. *)
Definition Balance (env : Env) (v : option Commodity) (st : State) (d : Day)
    : result Error (State * Day) :=
  accounts ← processOpenings (st_accounts st) d;
  am ← processTransactions accounts (st_amounts st) d;
  r ← processValues env accounts am d;
  _ ← processAssertions accounts r.1 r.2;
  r2 ← match v with
       | Some v =>
         r1 ← valuateTransactions v (st_values st) r.2;
         valuateGains env v r.1 r1.1 r1.2
       | None => Ok (st_values st, r.2)
       end;
  cl ← processClosings accounts r.1 r2.2;
  Ok (mkState cl.2 r2.1 cl.1, r2.2).

End process.

(** ** The balancer with a set of open accounts ([Balancer.Process]) *)

Module balancer_Process.

Import ast.

(** [sortTransactions] is [compare.Sort(_, ast.CompareTransactions)], which
    is declared elsewhere. *)
Record Balancer := mkBalancer { Context : journal.Context;
  sortTransactions : list Transaction → list Transaction;
}.

Inductive Error :=
| AccountAlreadyOpen (o : ast.Open)
| CreditNotOpen (t : Transaction) (a : Account)
| DebitNotOpen (t : Transaction) (a : Account)
| ValueAccountNotOpen (v : Value)
| AssertionAccountNotOpen (a : Assertion)
| AssertionFailed (a : Assertion) (actual : Qc)
| NonzeroClose (c : ast.Close) (amount : Qc) (k : Commodity)
| CloseAccountNotOpen (c : ast.Close).

(** [accounts] is a [map[*Account]struct{}], a set. [Open] and [Close]
    return the new set with the flag the Go methods return. *)
Definition Open (oa : gset Account) (a : Account) : gset Account * bool :=
  if bool_decide (a ∈ oa) then (oa, false) else ({[a]} ∪ oa, true).

Definition Close (oa : gset Account) (a : Account) : gset Account * bool :=
  if negb (bool_decide (a ∈ oa)) then (oa, false) else (oa ∖ {[a]}, true).

Definition IsOpen (oa : gset Account) (a : Account) : bool :=
  bool_decide (a ∈ oa).

Definition processOpenings (oa : gset Account) (d : Day.t)
    : result Error (gset Account) :=
  forM (λ oa o,
          let r := Open oa (o_Account o) in
          if negb r.2 then Err (AccountAlreadyOpen o) else Ok r.1)
       oa (Day.Openings d).

Definition bookPosting (oa : gset Account) (t : Transaction) (amts : Amounts)
    (p : Posting) : result Error Amounts :=
  if negb (IsOpen oa (Credit p)) then Err (CreditNotOpen t (Credit p))
  else if negb (IsOpen oa (Debit p)) then Err (DebitNotOpen t (Debit p))
  else
    let amts1 := amounts.Add amts (AccountCommodityKey (Credit p) (p_Commodity p))
                             (Decimal.Neg (ast.Amount p)) in
    Ok (amounts.Add amts1 (AccountCommodityKey (Debit p) (p_Commodity p))
                    (ast.Amount p)).

Definition processTransactions (oa : gset Account) (amts : Amounts) (d : Day.t)
    : result Error Amounts :=
  forM (λ amts t, forM (bookPosting oa t) amts (Postings t)) amts
       (Day.Transactions d).

(** Modelled from the spec: [ast.PostingWithTargets], the posting
    constructor of this version; for a negative amount it swaps credit and
    debit and negates, as [NewPostingWithTargets] does. *)
Definition PostingWithTargets (crAccount drAccount : Account)
    (commodity : Commodity) (amt : Qc) (targets : list Commodity) : Posting :=
  NewPostingWithTargets crAccount drAccount commodity amt targets.

Definition processValue (pr : Balancer) (oa : gset Account)
    (st : Amounts * list Transaction) (v : Value)
    : result Error (Amounts * list Transaction) :=
  let '(amts, transactions) := st in
  if negb (IsOpen oa (v_Account v)) then Err (ValueAccountNotOpen v)
  else
    let valAcc := journal.ValuationAccountFor (Context pr) (v_Account v) in
    let p :=
      PostingWithTargets valAcc (v_Account v) (v_Commodity v)
        (Decimal.Sub (v_Amount v)
           (amounts.get amts (AccountCommodityKey (v_Account v) (v_Commodity v))))
        [v_Commodity v] in
    let amts1 := amounts.Add amts (AccountCommodityKey (Credit p) (p_Commodity p))
                             (Decimal.Neg (ast.Amount p)) in
    let amts2 := amounts.Add amts1 (AccountCommodityKey (Debit p) (p_Commodity p))
                             (ast.Amount p) in
    Ok (amts2, transactions ++ [mkTransaction (v_Date v)
          (balancer.valuationDescription (v_Commodity v) (v_Account v))
          [] [p] []]).

Definition processValues (pr : Balancer) (oa : gset Account) (amts : Amounts)
    (d : Day.t) : result Error (Amounts * Day.t) :=
  r ← forM (processValue pr oa) (amts, Day.Transactions d) (Day.Values d);
  Ok (r.1, Day.with_Transactions d (sortTransactions pr r.2)).

Definition checkAssertion (oa : gset Account) (amts : Amounts) (_ : unit)
    (a : Assertion) : result Error unit :=
  if negb (IsOpen oa (as_Account a)) then Err (AssertionAccountNotOpen a)
  else
    let position := AccountCommodityKey (as_Account a) (as_Commodity a) in
    match amts !! position with
    | Some va =>
      if negb (Decimal.Equal va (as_Amount a)) then Err (AssertionFailed a va)
      else Ok ()
    | None => Err (AssertionFailed a Decimal.Zero)
    end.

Definition processAssertions (oa : gset Account) (amts : Amounts) (d : Day.t)
    : result Error unit :=
  forM (checkAssertion oa amts) () (Day.Assertions d).

Definition closePosition (c : ast.Close) (am : Amounts)
    (entry : (Account * Commodity) * Qc) : result Error Amounts :=
  let '(pos, amount) := entry in
  if negb (bool_decide (pos.1 = c_Account c)) then Ok am
  else if negb (Decimal.IsZero amount) then Err (NonzeroClose c amount pos.2)
  else Ok (delete pos am).

Definition processClosingIn (order : list ((Account * Commodity) * Qc))
    (st : gset Account * Amounts) (c : ast.Close)
    : result Error (gset Account * Amounts) :=
  am ← forM (closePosition c) st.2 order;
  let r := Close st.1 (c_Account c) in
  if negb r.2 then Err (CloseAccountNotOpen c) else Ok (r.1, am).

Definition processClosing (st : gset Account * Amounts) (c : ast.Close)
    : result Error (gset Account * Amounts) :=
  processClosingIn (map_to_list st.2) st c.

Definition processClosings (oa : gset Account) (am : Amounts) (d : Day.t)
    : result Error (gset Account * Amounts) :=
  forM processClosing (oa, am) (Day.Closings d).

(** The function [Process] applies to each day it consumes. *)
Definition processDay (pr : Balancer) (st : gset Account * Amounts) (d : Day.t)
    : result Error ((gset Account * Amounts) * Day.t) :=
  oa ← processOpenings st.1 d;
  am ← processTransactions oa st.2 d;
  r ← processValues pr oa am d;
  _ ← processAssertions oa r.1 r.2;
  st' ← processClosings oa r.1 r.2;
  Ok (st', Day.with_Amounts r.2 (Clone st'.2)).

Fixpoint run (pr : Balancer) (st : gset Account * Amounts) (ds : list Day.t)
    : result Error ((gset Account * Amounts) * list Day.t) :=
  match ds with
  | [] => Ok (st, [])
  | d :: ds' =>
    r ← processDay pr st d;
    r' ← run pr r.1 ds';
    Ok (r'.1, r.2 :: r'.2)
  end.

Definition Process (pr : Balancer) (ds : list Day.t)
    : result Error ((gset Account * Amounts) * list Day.t) :=
  run pr (∅, ∅) ds.

End balancer_Process.

(** ** The valuator of [process/valuator.go] *)

Module valuator.

Import ast.

(** The context of this stage answers with an account or an error. *)
Record Valuator := mkValuator { ValuationAccountFor : Account → option Account;
  Valuation : option Commodity;
}.

(** [val.Day]: a balanced day with the prices, the values and the valuated
    transactions of the day. *)
Record Day := mkDay {
  Date : Time;
  Day_ : Day.t;
  Prices : gmap Commodity Qc;
  Values : gmap (Account * Commodity) Qc;
  Transactions : list Transaction;
}.

Definition gainDescription (c : Commodity) (a : Account) : string :=
  "Adjust value of " +:+ Commodity_Name c +:+ " in account " +:+ Account_Name a.

(** The body of the loop of [computeValuationTransactions] over the
    amounts of the day; [None] is a panic. The state is the list of
    transactions and the map of values of the day. *)
Definition computeValuation (pr : Valuator) (v : Commodity) (date : Time)
    (prices : gmap Commodity Qc) (st : list Transaction * Amounts)
    (entry : (Account * Commodity) * Qc) : option (list Transaction * Amounts) :=
  let '(pos, va) := entry in
  if bool_decide (pos.2 = v) then Some st
  else if negb (bool_decide (Account_Type pos.1 = ASSETS))
          && negb (bool_decide (Account_Type pos.1 = LIABILITIES)) then Some st
  else
    match process.Valuate prices pos.2 va with
    | None => None
    | Some value =>
      let diff := Decimal.Sub value (amounts.get st.2 pos) in
      if Decimal.IsZero diff then Some st
      else
        match ValuationAccountFor pr pos.1 with
        | None => None
        | Some valAcc =>
          Some (st.1 ++ [mkTransaction date (gainDescription pos.2 pos.1) []
                           [NewPosting valAcc pos.1 pos.2 diff] []],
                Book st.2 valAcc pos.1 diff pos.2)
        end
    end.

Definition with_state (day : Day) (st : list Transaction * Amounts) : Day :=
  mkDay (Date day) (Day_ day) (Prices day) st.2 st.1.

(** [computeValuationTransactions], visiting the amounts in the order
    [order] lists them. *)
Definition computeValuationTransactionsIn (order : list ((Account * Commodity) * Qc))
    (pr : Valuator) (day : Day) : option Day :=
  match Valuation pr with
  | None => Some day
  | Some v =>
    with_state day
      <$> foldl (λ st entry,
                   st ≫= λ st, computeValuation pr v (Date day) (Prices day) st entry)
                (Some (Transactions day, Values day)) order
  end.

Definition computeValuationTransactions (pr : Valuator) (day : Day) : option Day :=
  computeValuationTransactionsIn (map_to_list (Day.Amounts (Day_ day))) pr day.

End valuator.

(** ** Orders and outcomes read off [ast/directive.go] *)

Module ast_order.

Import ast.

(** What [Posting.Less] compares, in the order it compares it: the name of
    the credit account, the name of the debit account, the amount and the
    name of the commodity. *)
Definition Posting_key (p : Posting) : string * string * Qc * string :=
  (Account_Name (Credit p), Account_Name (Debit p), Amount p,
   Commodity_Name (p_Commodity p)).

(** What a call of [Transaction.Less] comes to: the boolean it returns, or
    [None] where it does not return. *)
Definition Less_outcome (t t2 : Transaction) : option bool :=
  if negb (Time_Equal (t_Date t) (t_Date t2)) then
    Some (Time_Before (t_Date t) (t_Date t2))
  else if negb (bool_decide (Description t = Description t2)) then
    Some (String.ltb (Description t) (Description t2))
  else
    match Postings t, Postings t2 with
    | p :: _, p2 :: _ =>
      if Posting_Equal p p2 then None else Some (Posting_Less p p2)
    | ps, ps2 => Some (bool_decide (length ps < length ps2))
    end.

(** The postings of a list of transactions, in the order the balancer
    books them. *)
Definition postingsOf (ts : list Transaction) : list Posting :=
  ts ≫= Postings.

(** The positions after a list of postings is booked, whatever accounts
    are open. *)
Definition bookAll (am : Amounts) (ps : list Posting) : Amounts :=
  foldl (λ am p, Book am (Credit p) (Debit p) (Amount p) (p_Commodity p)) am ps.

(** What moving [x] of commodity [c] from [cr] to [dr] adds to the
    position [pos]. *)
Definition effect (cr dr : Account) (c : Commodity) (x : Qc)
    (pos : Account * Commodity) : Qc :=
  ((if decide (pos = (dr, c)) then x else 0)
   - (if decide (pos = (cr, c)) then x else 0))%Qc.

End ast_order.

(** ** The two balancers side by side *)

Module balancers.

(** The set of open accounts of [Balancer.Process] and the map of
    [Balancer.Process2] hold the same accounts. *)
Definition agree (s : gset Account) (m : gmap Account bool) : Prop :=
  ∀ a, a ∈ s ↔ balancer.has m a = true.

(** What [Process2] leaves of a day: everything but the list of
    transactions, which grows, and the snapshot of the amounts. *)
Definition directivesOf (d : Day.t)
    : Time * list ast.Price * list ast.Assertion * list ast.Value
      * list ast.Open * list ast.Close :=
  (Day.Date d, Day.Prices d, Day.Assertions d, Day.Values d, Day.Openings d,
   Day.Closings d).

End balancers.

(** ** The values [journal.Balance] books *)

Module process_values.

Import process.

(** The postings of a list of transactions, in order. *)
Definition allPostings (ts : list Transaction) : list Posting := ts ≫= Postings.

(** The sum of the values of the postings of asset and liability accounts
    at a position. *)
Definition bookedValue (ps : list Posting) (pos : Account * Commodity) : Qc :=
  Decimal.Sum
    (Value <$> filter (λ p, ast.isAL (Account_ p) = true
                            ∧ (Account_ p, p_Commodity p) = pos) ps).

(** A posting can be valued: it is in the valuation commodity or its
    commodity has a normalised price. *)
Definition priced (v : Commodity) (normalized : gmap Commodity Qc) (p : Posting)
    : Prop :=
  p_Commodity p = v ∨ is_Some (normalized !! p_Commodity p).

(** The value of a posting in the valuation commodity. *)
Definition valueOf (v : Commodity) (normalized : gmap Commodity Qc) (p : Posting)
    : option Qc :=
  if bool_decide (p_Commodity p = v) then Some (Amount p)
  else Valuate normalized (p_Commodity p) (Amount p).

End process_values.

(** ** The stream of the valuator ([Valuator.ProcessStream]) *)

Module valuator_stream.

Import ast valuator.

(** The error [Prices.Valuate] returns for a commodity without a price. *)
Inductive Error := NoPrice (c : Commodity).

Definition with_Amount (p : Posting) (a : Qc) : Posting :=
  mkPosting a (Credit p) (Debit p) (p_Commodity p) (Targets p) (p_Lot p).

Section stream.

(** [Prices.Valuate] returns a decimal and an error. Beside [nil] the
    decimal is the amount times the price; [onError] is the decimal it
    returns beside an error, which the valuator goes on to book. *)
Variable onError : Commodity → Qc → Qc.

Definition Valuate (prices : gmap Commodity Qc) (c : Commodity) (a : Qc)
    : Qc * option Error :=
  match process.Valuate prices c a with
  | Some value => (value, None)
  | None => (onError c a, Some (NoPrice c))
  end.

(** The body of the loop of [valuateAndBookTransaction]: the posting is
    valued in the copy the loop ranges over, booked, and stored in the
    clone of the transaction. The state is the map of values and the errors
    so far. *)
Definition valuateAndBookPosting (pr : Valuator) (prices : gmap Commodity Qc)
    (st : Amounts * list Error) (posting : Posting)
    : (Amounts * list Error) * Posting :=
  let '(posting, errors) :=
    match Valuation pr with
    | Some v =>
      if negb (bool_decide (v = p_Commodity posting)) then
        let r := Valuate prices (p_Commodity posting) (Amount posting) in
        (with_Amount posting r.1,
         match r.2 with Some err => st.2 ++ [err] | None => st.2 end)
      else (posting, st.2)
    | None => (posting, st.2)
    end in
  ((Book st.1 (Credit posting) (Debit posting) (Amount posting) (p_Commodity posting),
    errors),
   posting).

(** A loop that rewrites the elements of a list while it threads a
    state. *)
Definition mapAccum {S X} (body : S → X → S * X) (s : S) (xs : list X) : S * list X :=
  foldl (λ acc x, let r := body acc.1 x in (r.1, acc.2 ++ [r.2])) (s, []) xs.

Definition valuateAndBookTransaction (pr : Valuator) (day : Day) (t : Transaction)
    : Day * list Error :=
  let r := mapAccum (valuateAndBookPosting pr (Prices day)) (Values day, [])
                    (Postings t) in
  let tx := mkTransaction (t_Date t) (Description t) (Tags t) r.2 (AddOns t) in
  (mkDay (Date day) (Day_ day) (Prices day) r.1.1 (Transactions day ++ [tx]), r.1.2).

(** The body of the loop of [ProcessStream]: the day takes over the map of
    values, the transactions of the balanced day are valued and booked, the
    errors are sent on, and the adjustments of the valuation are computed.
    [None] is a panic, which ends the program. *)
Definition processDay (pr : Valuator) (values : Amounts) (day : Day)
    : option (Day * list Error) :=
  let day0 := mkDay (Date day) (Day_ day) (Prices day) values (Transactions day) in
  let r := foldl (λ acc t,
                    let r := valuateAndBookTransaction pr acc.1 t in
                    (r.1, acc.2 ++ r.2))
                 (day0, []) (Day.Transactions (Day_ day)) in
  day' ← computeValuationTransactions pr r.1;
  Some (day', r.2).

(** The days and the errors the stage sends on; the next day starts from
    a clone of the values of the day before. *)
Fixpoint run (pr : Valuator) (values : Amounts) (days : list Day)
    : option (list Day * list Error) :=
  match days with
  | [] => Some ([], [])
  | day :: days' =>
    r ← processDay pr values day;
    r' ← run pr (Clone (Values r.1)) days';
    Some (r.1 :: r'.1, r.2 ++ r'.2)
  end.

Definition ProcessStream (pr : Valuator) (days : list Day)
    : option (list Day * list Error) :=
  run pr ∅ days.

End stream.

(** The valuation account of every asset or liability account is an
    account of another kind. *)
Definition valuation_apart (pr : Valuator) : Prop :=
  ∀ a valAcc, isAL a = true → ValuationAccountFor pr a = Some valAcc →
              isAL valAcc = false.

End valuator_stream.

(** ** The journal and its first and last date ([Journal]) *)

Module journal_Journal.

Import ast.

(** 9999-12-31 and the zero value of [time.Time], 0001-01-01, as days
    from 1970-01-01. *)
Definition Date_9999_12_31 : Time := 2932896%Z.
Definition zeroTime : Time := (-719162)%Z.

Definition Time_After (t t2 : Time) : bool := bool_decide (t2 < t)%Z.

Record Journal := mkJournal { Context : journal.Context;
  Days : gmap Z Day.t;
  min_ : Time;
  max_ : Time;
}.

Definition New (ctx : journal.Context) : Journal :=
  mkJournal ctx ∅ Date_9999_12_31 zeroTime.

Definition with_Days (j : Journal) (days : gmap Z Day.t) : Journal :=
  mkJournal (Context j) days (min_ j) (max_ j).

Definition AddOpen (j : Journal) (o : ast.Open) : Journal :=
  with_Days j (astbuilder.AddOpen (Days j) o).

Definition AddPrice (j : Journal) (p : ast.Price) : Journal :=
  with_Days j (astbuilder.AddPrice (Days j) p).

Definition AddTransaction (j : Journal) (t : Transaction) : Journal :=
  let d := astbuilder.AST_Day (Days j) (t_Date t) in
  let max' := if Time_Before (max_ j) (Day.Date d) then Day.Date d else max_ j in
  let min' := if Time_After (min_ j) (t_Date t) then Day.Date d else min_ j in
  mkJournal (Context j) (astbuilder.AddTransaction (Days j) t) min' max'.

Definition AddValue (j : Journal) (v : ast.Value) : Journal :=
  with_Days j (astbuilder.AddValue (Days j) v).

Definition AddAssertion (j : Journal) (a : ast.Assertion) : Journal :=
  with_Days j (astbuilder.AddAssertion (Days j) a).

Definition AddClose (j : Journal) (c : ast.Close) : Journal :=
  with_Days j (astbuilder.AddClose (Days j) c).

Definition Min (j : Journal) : Time := min_ j.
Definition Max (j : Journal) : Time := max_ j.

(** The journals a program can build: a new journal, and what the [Add]
    methods make of it; the list holds the transactions that were added, in
    the order of the calls. *)
Inductive built (ctx : journal.Context) : Journal → list Transaction → Prop :=
| built_New : built ctx (New ctx) []
| built_AddOpen j ts o : built ctx j ts → built ctx (AddOpen j o) ts
| built_AddPrice j ts p : built ctx j ts → built ctx (AddPrice j p) ts
| built_AddTransaction j ts t :
    built ctx j ts → built ctx (AddTransaction j t) (ts ++ [t])
| built_AddValue j ts v : built ctx j ts → built ctx (AddValue j v) ts
| built_AddAssertion j ts a : built ctx j ts → built ctx (AddAssertion j a) ts
| built_AddClose j ts c : built ctx j ts → built ctx (AddClose j c) ts.

(** Every day of the map is stored under its own date. *)
Definition keyed (days : gmap Z Day.t) : Prop :=
  ∀ k d, days !! k = Some d → Day.Date d = k.

End journal_Journal.

(** ** What the assembler keeps of a stream *)

Module astbuilder_kept.

Import ast astbuilder.

(** The Open and the Price directives of a stream that are dated [date],
    in the order of the stream. *)
Definition opened (date : Time) (ds : list Directive) : list ast.Open :=
  ds ≫= λ d,
    match d with
    | DOpen o => if bool_decide (o_Date o = date) then [o] else []
    | _ => []
    end.

Definition quoted (date : Time) (ds : list Directive) : list ast.Price :=
  ds ≫= λ d,
    match d with
    | DPrice p => if bool_decide (pr_Date p = date) then [p] else []
    | _ => []
    end.

(** The postings of a transaction that pass the filter, and the
    transaction cut down to them. *)
Definition kept (b : Filter) (t : Transaction) : list Posting :=
  filter (λ p, Posting_Matches p b = true) (Postings t).

Definition restricted (b : Filter) (t : Transaction) : Transaction :=
  with_Postings t (kept b t).

(** The directive is of a kind the assembler has no case for. *)
Definition unknown (d : Directive) : bool :=
  match d with
  | DCurrency _ _ | DInclude _ => true
  | _ => false
  end.

End astbuilder_kept.

(** ** The scanner ([scanner.Scanner]) *)

Module scanner.

Local Open Scope Z_scope.

(** A rune is an [int32]; the scanner compares runes and stores them, and
    does no arithmetic on them. *)
Definition rune : Type := Z.

(** [EOF] is [rune(0)]. *)
Definition EOF : rune := 0.

Definition RuneError : rune := 65533.

Definition newline : rune := 10.

(** [utf8.RuneLen]: the number of bytes of the encoding of a rune, -1 for
    a value that is no rune. *)
Definition RuneLen (r : rune) : Z :=
  if bool_decide (r < 0) then -1
  else if bool_decide (r ≤ 127) then 1
  else if bool_decide (r ≤ 2047) then 2
  else if bool_decide (55296 ≤ r) && bool_decide (r ≤ 57343) then -1
  else if bool_decide (r ≤ 65535) then 3
  else if bool_decide (r ≤ 1114111) then 4
  else -1.

(** Arithmetic on a 64-bit [int] wraps around. *)
Definition int (z : Z) : Z := (z + 2 ^ 63) `mod` 2 ^ 64 - 2 ^ 63.

Record FilePosition := mkFilePosition {
  fp_Path : string;
  Line : Z;
  Column : Z;
  BytePos : Z;
  RunePos : Z;
}.

(** What [ReadRune] of an [io.RuneReader] reports beside the rune. *)
Inductive ioerror := io_EOF | io_failure (msg : string).

(** An [io.RuneReader] is the sequence of the results of its [ReadRune]
    calls to come, each a rune or a failure; when the sequence is used up
    [ReadRune] reports [io.EOF], call after call. *)
Definition Reader : Type := list (result string rune).

Definition Reader_ReadRune (r : Reader) : (rune * option ioerror) * Reader :=
  match r with
  | [] => ((0, Some io_EOF), [])
  | Ok ch :: r' => ((ch, None), r')
  | Err msg :: r' => ((0, Some (io_failure msg)), r')
  end.

Record Scanner := mkScanner {
  reader : Reader;
  current : rune;
  Path : string;
  pos : FilePosition;
}.

Inductive Error :=
| ReadFailed (msg : string)
| ExpectedRune (want got : rune)
| ExpectedString (want : list rune) (got : list rune).

Definition New (r : Reader) (path : string) : result Error Scanner :=
  let '((ch, err), r') := Reader_ReadRune r in
  match err with
  | Some (io_failure msg) => Err (ReadFailed msg)
  | _ =>
    let ch := match err with Some io_EOF => EOF | _ => ch end in
    Ok (mkScanner r' ch path (mkFilePosition path 1 1 0 0))
  end.

Definition Current (s : Scanner) : rune := current s.

Definition Position (s : Scanner) : FilePosition := pos s.

(** [Advance]: the scanner after the call, and the error the call
    returns, if any. A read that fails is used up all the same. *)
Definition Advance (s : Scanner) : Scanner * option Error :=
  let '((ch, err), r') := Reader_ReadRune (reader s) in
  match err with
  | Some (io_failure msg) =>
    (mkScanner r' (current s) (Path s) (pos s), Some (ReadFailed msg))
  | _ =>
    let ch := match err with Some io_EOF => EOF | _ => ch end in
    let p := pos s in
    let bytePos := int (BytePos p + RuneLen (current s)) in
    let runePos := int (RunePos p + 1) in
    let p' :=
      if bool_decide (current s = newline)
      then mkFilePosition (fp_Path p) (int (Line p + 1)) 1 bytePos runePos
      else mkFilePosition (fp_Path p) (Line p) (int (Column p + 1)) bytePos runePos in
    (mkScanner r' ch (Path s) p', None)
  end.

(** [Scanner.ReadRune], the scanner as an [io.RuneReader]: the rune and
    its size, or the error. *)
Definition ReadRune (s : Scanner) : Scanner * result Error (rune * Z) :=
  let '(s', err) := Advance s in
  match err with
  | Some e => (s', Err e)
  | None => (s', Ok (Current s', RuneLen (Current s')))
  end.

(** [strings.Builder.WriteRune]: the builder holds text, so a value that
    is no rune is written as U+FFFD. The text is kept as its runes. *)
Definition WriteRune (b : list rune) (r : rune) : list rune :=
  b ++ [if bool_decide (RuneLen r = -1) then RuneError else r].

(** The loops run while [fuel] lasts; [None] stands for a loop that is
    still running. *)
Fixpoint ReadWhile_loop (fuel : nat) (pred : rune → bool) (s : Scanner)
    (b : list rune) : option (Scanner * (list rune * option Error)) :=
  match fuel with
  | O => None
  | S fuel' =>
    if pred (Current s) && negb (bool_decide (Current s = EOF)) then
      let b := WriteRune b (Current s) in
      let '(s', err) := Advance s in
      match err with
      | Some e => Some (s', (b, Some e))
      | None => ReadWhile_loop fuel' pred s' b
      end
    else Some (s, (b, None))
  end.

Definition ReadWhile (fuel : nat) (pred : rune → bool) (s : Scanner)
    : option (Scanner * (list rune * option Error)) :=
  ReadWhile_loop fuel pred s [].

Fixpoint ConsumeWhile (fuel : nat) (pred : rune → bool) (s : Scanner)
    : option (Scanner * option Error) :=
  match fuel with
  | O => None
  | S fuel' =>
    if pred (Current s) then
      let '(s', err) := Advance s in
      match err with
      | Some e => Some (s', Some e)
      | None => ConsumeWhile fuel' pred s'
      end
    else Some (s, None)
  end.

Fixpoint ConsumeUntil (fuel : nat) (pred : rune → bool) (s : Scanner)
    : option (Scanner * option Error) :=
  match fuel with
  | O => None
  | S fuel' =>
    if negb (pred (Current s)) then
      let '(s', err) := Advance s in
      match err with
      | Some e => Some (s', Some e)
      | None => ConsumeUntil fuel' pred s'
      end
    else Some (s, None)
  end.

Definition ConsumeRune (r : rune) (s : Scanner) : Scanner * option Error :=
  if negb (bool_decide (Current s = r)) then (s, Some (ExpectedRune r (Current s)))
  else Advance s.

(** [ParseString]: the loop ranges over the runes of [str]. *)
Fixpoint ParseString_loop (str rest : list rune) (s : Scanner) (b : list rune)
    : Scanner * option Error :=
  match rest with
  | [] => (s, None)
  | ch :: rest' =>
    let b := WriteRune b (Current s) in
    if negb (bool_decide (ch = Current s)) then (s, Some (ExpectedString str b))
    else
      let '(s', err) := Advance s in
      match err with
      | Some e => (s', Some e)
      | None => ParseString_loop str rest' s' b
      end
  end.

Definition ParseString (str : list rune) (s : Scanner) : Scanner * option Error :=
  ParseString_loop str str s [].

(** *** The text a scanner moves over *)

(** The scanner after [k] calls of [Advance]. *)
Definition advanced (k : nat) (s : Scanner) : Scanner :=
  Nat.iter k (λ s, (Advance s).1) s.

(** The longest prefix of a list whose elements satisfy [p]. *)
Fixpoint takeWhile {A} (p : A → bool) (l : list A) : list A :=
  match l with
  | [] => []
  | x :: l' => if p x then x :: takeWhile p l' else []
  end.

(** The runes after the last newline of a text. *)
Definition lastLine (text : list rune) : list rune :=
  reverse (takeWhile (λ r, negb (bool_decide (r = newline))) (reverse text)).

(** The position of a scanner that has moved over [text] from the start
    of a file: the runes and the bytes of the text are counted, the line is
    one more than the newlines in it, and the column is one more than the
    runes after the last of them. *)
Definition positionAfter (path : string) (text : list rune) : FilePosition :=
  mkFilePosition path
    (1 + Z.of_nat (length (filter (λ r, r = newline) text)))
    (1 + Z.of_nat (length (lastLine text)))
    (foldr Z.add 0 (RuneLen <$> text))
    (Z.of_nat (length text)).

(** The runes a scanner over the text [input] meets: those of the text,
    then [EOF] for ever. *)
Definition runeAt (input : list rune) (i : nat) : rune := nth i input EOF.

Definition met (input : list rune) (k : nat) : list rune :=
  runeAt input <$> seq 0 k.

(** What [WriteRune] makes of a text. *)
Definition written (text : list rune) : list rune :=
  (λ r, if bool_decide (RuneLen r = -1) then RuneError else r) <$> text.

End scanner.

(** ** The formatter ([format.Format]) *)

Module format.

Import scanner.

Local Open Scope Z_scope.

(** [model.Range]: [Format] compares the two ends with an [int]. *)
Record Range := mkRange {
  Start : Z;
  End_ : Z;
}.

(** What the formatter returns: the error of the channel or of the source,
    [io.EOF] among them, the error of a write, or the error for a value
    that is neither an error nor a directive. *)
Inductive Error :=
| Failed (e : ioerror)
| WriteFailed (msg : string)
| InvalidDirective (desc : string).

(** [string(r)]: the text of one rune, U+FFFD for a value that is no
    rune. *)
Definition string_of_rune (r : rune) : list rune :=
  [if bool_decide (RuneLen r = -1) then RuneError else r].

Section Format.

(** The destination is an [io.Writer]: a call of [Write] leaves it in a
    new state and may fail. *)
Variable Dest : Type.
Variable Write : Dest → list rune → Dest * option string.

(** A directive has a position and writes itself to a destination. *)
Record directive := mkDirective {
  Position : Range;
  WriteTo : Dest → Dest * option string;
}.

(** The values of the channel. *)
Inductive item :=
| ItemError (e : ioerror)
| ItemDirective (d : directive)
| ItemOther (desc : string).

(** The first inner loop: [n] runes are copied from the source to the
    destination. *)
Fixpoint copy (n : nat) (src : Reader) (dest : Dest)
    : (Reader * Dest) * option Error :=
  match n with
  | O => ((src, dest), None)
  | S n' =>
    let '((r, err), src') := Reader_ReadRune src in
    match err with
    | Some e => ((src', dest), Some (Failed e))
    | None =>
      let '(dest', werr) := Write dest (string_of_rune r) in
      match werr with
      | Some msg => ((src', dest'), Some (WriteFailed msg))
      | None => copy n' src' dest'
      end
    end
  end.

(** The second inner loop: [n] runes of the source are read and dropped. *)
Fixpoint seek (n : nat) (src : Reader) : Reader * option Error :=
  match n with
  | O => (src, None)
  | S n' =>
    let '((_, err), src') := Reader_ReadRune src in
    match err with
    | Some e => (src', Some (Failed e))
    | None => seek n' src'
    end
  end.

(** The loop over the channel; [srcPos] is the position in the source the
    loop believes to be at. A loop [for i := a; i < b; i++] runs [b - a]
    times, and not at all when [b ≤ a]. *)
Fixpoint Format_loop (ch : list item) (srcPos : Z) (src : Reader) (dest : Dest)
    : (Reader * Dest) * option Error :=
  match ch with
  | [] => ((src, dest), None)
  | ItemError io_EOF :: _ =>
    let '(dest', werr) := Write dest [newline] in
    ((src, dest'), WriteFailed <$> werr)
  | ItemError e :: _ => ((src, dest), Some (Failed e))
  | ItemDirective d :: ch' =>
    let '((src1, dest1), err) :=
      copy (Z.to_nat (Start (Position d) - srcPos)) src dest in
    match err with
    | Some e => ((src1, dest1), Some e)
    | None =>
      let '(src2, err) :=
        seek (Z.to_nat (End_ (Position d) - Start (Position d))) src1 in
      match err with
      | Some e => ((src2, dest1), Some e)
      | None =>
        let '(dest2, werr) := WriteTo d dest1 in
        match werr with
        | Some msg => ((src2, dest2), Some (WriteFailed msg))
        | None => Format_loop ch' (End_ (Position d)) src2 dest2
        end
      end
    end
  | ItemOther desc :: _ => ((src, dest), Some (InvalidDirective desc))
  end.

Definition Format (ch : list item) (src : Reader) (dest : Dest)
    : (Reader * Dest) * option Error :=
  Format_loop ch 0 src dest.

End Format.

Arguments mkDirective {Dest}.
Arguments Position {Dest}.
Arguments WriteTo {Dest}.
Arguments ItemError {Dest}.
Arguments ItemDirective {Dest}.
Arguments ItemOther {Dest}.
Arguments copy {Dest}.
Arguments Format_loop {Dest}.
Arguments Format {Dest}.

(** *** Formatting into a buffer *)

(** A buffer takes every write. *)
Definition buffer_Write (b : list rune) (text : list rune)
    : list rune * option string :=
  (b ++ text, None).

(** A directive at a range of the source that writes [text]. *)
Definition printed (e : Range * list rune) : directive (list rune) :=
  mkDirective e.1 (λ b, buffer_Write b e.2).

(** The runes of the source from position [from] up to position [to]. *)
Definition between (src : list rune) (from to : Z) : list rune :=
  take (Z.to_nat (to - from)) (drop (Z.to_nat from) src).

(** The text between the directives, with the text each directive writes
    in the place of its range. *)
Fixpoint formatted (src : list rune) (pos : Z) (es : list (Range * list rune))
    : list rune :=
  match es with
  | [] => []
  | e :: es' =>
    written (between src pos (Start e.1)) ++ e.2 ++ formatted src (End_ e.1) es'
  end.

(** The ranges follow each other from [pos] on and lie in a source of
    [len] runes. *)
Fixpoint in_order (pos : Z) (es : list (Range * list rune)) (len : Z) : Prop :=
  match es with
  | [] => pos ≤ len
  | e :: es' => pos ≤ Start e.1 ∧ Start e.1 ≤ End_ e.1 ∧ in_order (End_ e.1) es' len
  end.

(** The end of the last range, [pos] if there is none. *)
Definition last_end (pos : Z) (es : list (Range * list rune)) : Z :=
  foldl (λ _ e, End_ e.1) pos es.

End format.

(** ** Concrete journals *)

Module examples.

Import ast.
Local Open Scope Z_scope.

Definition coffee : Transaction :=
  mkTransaction 19358 "Coffee" []
    [NewPosting (mkAccount ASSETS ["Cash"]) (mkAccount EXPENSES ["Food"]) "USD"
       (Decimal.NewFromInt 3)]
    [].

Definition ok_or {E A} (r : result E A) (a : A) : A :=
  match r with Ok a' => a' | Err _ => a end.

Definition cash : Account := mkAccount ASSETS ["Cash"].
Definition salary : Account := mkAccount INCOME ["Salary"].
Definition opening : Account := mkAccount EQUITY ["Opening"].

(** The valuation account of [Assets:Cash] is [Equity:Valuation:Cash]. *)
Definition jctx0 : journal.Context :=
  journal.mkContext (λ a, mkAccount EQUITY ("Valuation" :: acc_segments a)).

Definition pr0 : balancer.Balancer := balancer.mkBalancer jctx0.

Definition usd (n : Z) : Qc := Decimal.NewFromInt n.

Definition wages : Transaction :=
  mkTransaction 19359 "Wages" [] [NewPosting salary cash "USD" (usd 100)] [].

(** 2023-01-01: the two accounts are opened. *)
Definition day_open : Day.t :=
  Day.mk 19358 [] [] [] [mkOpen 19358 cash; mkOpen 19358 salary] [] [] ∅ ∅ ∅.

(** 2023-01-02: wages are paid, then the cash is counted: 150 USD. *)
Definition day_value : Day.t :=
  Day.mk 19359 [] [] [mkValue 19359 cash (usd 150) "USD"] [] [wages] [] ∅ ∅ ∅.

Definition close_cash : Close := mkClose 19360 cash.

(** 2023-01-03: the cash is spent and the account is closed. *)
Definition day_close : Day.t :=
  Day.mk 19360 [] [mkAssertion 19360 cash (usd 0) "USD"] [] []
    [mkTransaction 19360 "Spend" [] [NewPosting cash opening "USD" (usd 150)] []]
    [close_cash] ∅ ∅ ∅.

(** An equity account that no directive opened is closed. *)
Definition day_close_equity : Day.t :=
  Day.mk 19358 [] [] [] [] [] [mkClose 19358 opening] ∅ ∅ ∅.

(** An assertion of a zero balance on a position nothing was booked to. *)
Definition assert_zero : Assertion := mkAssertion 19359 cash (usd 0) "EUR".

Definition no_run : (gmap Account bool * gmap (Account * Commodity) Qc) * list Day.t :=
  ((∅, ∅), []).

(** The three days, balanced by [Process2]. *)
Definition run3 :=
  ok_or (balancer.Process2 pr0 [day_open; day_value; day_close]) no_run.

(** The first two days, balanced by [Process2]; the maps of the balancer
    after them, and the third day balanced from there. *)
Definition run2 := ok_or (balancer.Process2 pr0 [day_open; day_value]) no_run.

Definition state2 := run2.1.

Definition day3 :=
  ok_or (balancer.processDay pr0 state2 day_close) (state2, day_close).

(** The count of the cash on 2023-01-02. *)
Definition count_cash : Value := mkValue 19359 cash (usd 150) "USD".

Definition bank : Account := mkAccount ASSETS ["Bank"].
Definition rent : Account := mkAccount EXPENSES ["Rent"].
Definition accrued : Account := mkAccount LIABILITIES ["Accrual"].

(** The months of 2023, by their first and last day. *)
Definition months2023 : list Period :=
  [mkPeriod 19358 19388; mkPeriod 19389 19416; mkPeriod 19417 19447;
   mkPeriod 19448 19477; mkPeriod 19478 19508; mkPeriod 19509 19538;
   mkPeriod 19539 19569; mkPeriod 19570 19600; mkPeriod 19601 19630;
   mkPeriod 19631 19661; mkPeriod 19662 19691; mkPeriod 19692 19722].

Definition Periods2023 (t0 t1 : Time) (i : Interval) : list Period := months2023.

Definition accrue2023 : Accrual := mkAccrual Monthly 19358 19722 accrued.

(** The rent of the year, 1000 USD, paid on the first day. *)
Definition rent_posting : Posting := NewPosting bank rent "USD" (usd 1000).

Definition rent2023 : Transaction :=
  mkTransaction 19358 "Rent" [] [rent_posting] [AddOnAccrual accrue2023].

(** A filter for the asset accounts and the commodity USD. *)
Definition assets_in_usd : astbuilder.Filter :=
  astbuilder.mkFilter (λ a, bool_decide (Account_Type a = ASSETS))
                      (λ c, bool_decide (c = "USD")).

Definition builder0 : astbuilder.ASTBuilder :=
  astbuilder.mkASTBuilder jctx0 "journal.knut" true assets_in_usd.

(** A stream with a Close of an asset account and an Assertion on the same
    account in a commodity the filter does not match. *)
Definition stream0 : list astbuilder.Directive :=
  [astbuilder.DOpen (mkOpen 19358 cash); astbuilder.DAssertion assert_zero;
   astbuilder.DTransaction rent2023; astbuilder.DClose close_cash].

Definition assembled0 : gmap Z Day.t :=
  ok_or (astbuilder.assemble Periods2023 builder0 stream0) ∅.

Definition foreign : Account := mkAccount ASSETS ["Foreign"].

(** A builder of postings: the credit side, then the debit side. *)
Definition Build0 (pb : process.PostingBuilder) : list process.Posting :=
  [process.mkPosting (process.Credit pb) (process.Debit pb) (process.pb_Commodity pb)
     (Decimal.Neg (process.pb_Amount pb)) (Decimal.Neg (process.pb_Value pb))
     (process.pb_Targets pb);
   process.mkPosting (process.Debit pb) (process.Credit pb) (process.pb_Commodity pb)
     (process.pb_Amount pb) (process.pb_Value pb) (process.pb_Targets pb)].

Definition env0 : process.Env := process.mkEnv jctx0 Build0 id.

(** 2023-01-03: 100 EUR are held, valued at 110 USD so far; the price of
    the day is 1.2 USD. *)
Definition held : gmap (Account * Commodity) Qc := {[(foreign, "EUR") := usd 100]}.

Definition valued : gmap (Account * Commodity) Qc := {[(foreign, "EUR") := usd 110]}.

Definition day_gain : process.Day :=
  process.mkDay 19360 [] [] [] [] [] []
    {["EUR" := Q2Qc (6 # 5); "USD" := Q2Qc 1]}.

Definition gained : gmap (Account * Commodity) Qc * process.Day :=
  ok_or (process.valuateGains env0 "USD" held valued day_gain) (valued, day_gain).

(** The opening balance, taken from an equity account nobody opened. *)
Definition day_equity : Day.t :=
  Day.mk 19358 [] [] [] [mkOpen 19358 cash]
    [mkTransaction 19358 "Opening balance" [] [NewPosting opening cash "USD" (usd 100)] []]
    [] ∅ ∅ ∅.

(** The same day, with the postings as [journal.Balance] reads them. *)
Definition day_equity_postings : process.Day :=
  process.mkDay 19358 [] [] [] [mkOpen 19358 cash]
    [process.mkTransaction 19358 "Opening balance"
       (Build0 (process.mkPostingBuilder opening cash "USD" (usd 100) 0%Qc []))]
    [] ∅.

End examples.

(** ** More concrete journals *)

Module samples.

Import ast examples.
Local Open Scope Z_scope.

(** The three accounts of the rent accrual, open. *)
Definition accrual_accounts : gmap Account bool :=
  {[bank := true; rent := true; accrued := true]}.

(** The rent of 2023 expanded over its months, as the transactions of a
    day, and the positions after the balancer booked them. *)
Definition rent_expanded : list Transaction :=
  default [] (Expand Periods2023 accrue2023 rent2023).

Definition rent_day : Day.t := Day.with_Transactions (Day.empty 19358) rent_expanded.

Definition rent_booked : gmap (Account * Commodity) Qc :=
  ok_or (balancer.processTransactions accrual_accounts ∅ rent_day) ∅.

(** 2023-01-04: a refund reaches the cash account, which was closed the
    day before. *)
Definition refund_posting : Posting := NewPosting salary cash "USD" (usd 5).

Definition refund : Transaction := mkTransaction 19361 "Refund" [] [refund_posting] [].

Definition day_after : Day.t := Day.mk 19361 [] [] [] [] [refund] [] ∅ ∅ ∅.

(** The balancer of [Balancer.Process], with a sort that leaves the
    transactions of these days as they are. *)
Definition pr1 : balancer_Process.Balancer := balancer_Process.mkBalancer jctx0 id.

Definition no_run_Process
    : (gset Account * gmap (Account * Commodity) Qc) * list Day.t :=
  ((∅, ∅), []).

Definition run2_Process :=
  ok_or (balancer_Process.Process pr1 [day_open; day_value]) no_run_Process.

(** The state of [journal.Balance] on 2023-01-03, and the day balanced
    from it with USD as the valuation commodity. *)
Definition st_held : process.State := process.mkState held valued {[foreign]}.

Definition balanced_gain : process.State * process.Day :=
  ok_or (process.Balance env0 (Some "USD") st_held day_gain) (st_held, day_gain).

Definition amount_held : Qc :=
  default 0%Qc (process.st_amounts balanced_gain.1 !! (foreign, "EUR")).

(** The valuator of the stream, with USD as the valuation commodity. *)
Definition valuator0 : valuator.Valuator :=
  valuator.mkValuator (λ a, Some (mkAccount EQUITY ("Valuation" :: acc_segments a)))
                      (Some "USD").

(** 2023-01-03 as the valuator receives it: 100 EUR were bought for cash,
    the price of the day is 1.2 USD. *)
Definition eur_bought : Transaction :=
  mkTransaction 19360 "Buy EUR" [] [NewPosting cash foreign "EUR" (usd 100)] [].

Definition val_day : valuator.Day :=
  valuator.mkDay 19360 (Day.mk 19360 [] [] [] [] [eur_bought] [] held ∅ ∅)
    {["EUR" := Q2Qc (6 # 5); "USD" := Q2Qc 1]} ∅ [].

(** A decimal of zero beside the error of [Prices.Valuate]. *)
Definition zero_on_error (c : Commodity) (a : Qc) : Qc := 0%Qc.

Definition streamed0 : list valuator.Day * list valuator_stream.Error :=
  default ([], []) (valuator_stream.ProcessStream zero_on_error valuator0 [val_day]).

Definition val_day_adjusted : valuator.Day :=
  default val_day
    (valuator.computeValuationTransactionsIn
       (map_to_list (Day.Amounts (valuator.Day_ val_day))) valuator0 val_day).

Definition amount_of_day : Qc :=
  default 0%Qc (Day.Amounts (valuator.Day_ val_day) !! (foreign, "EUR")).

(** A journal with an Open and the wages. *)
Definition journal1 : journal_Journal.Journal :=
  journal_Journal.AddTransaction
    (journal_Journal.AddOpen (journal_Journal.New jctx0) (mkOpen 19358 cash)) wages.

(** The days [Source2] sends for the stream. *)
Definition sent0 : list Day.t :=
  ok_or (astbuilder.Source2 Periods2023 id builder0 stream0) [].

(** A stream with a Currency directive. *)
Definition currency_usd : astbuilder.Directive := astbuilder.DCurrency 19358 "USD".

Definition stream_currency : list astbuilder.Directive :=
  [astbuilder.DOpen (mkOpen 19358 cash); currency_usd].

(** A scanner on the first rune of the text "ab", a newline, "c". *)
Definition text_ab_c : list scanner.rune := [97; 98; 10; 99].

Definition scan0 : scanner.Scanner :=
  scanner.mkScanner (Ok <$> [98; 10; 99]) 97 "journal.knut"
    (scanner.mkFilePosition "journal.knut" 1 1 0 0).

Definition isLetter (r : scanner.rune) : bool :=
  bool_decide (97 ≤ r) && bool_decide (r ≤ 122).

Definition isNewline (r : scanner.rune) : bool := bool_decide (r = 10).

Definition anyRune (r : scanner.rune) : bool := true.

(** A directive over the "b" of that text that writes "B", and one that
    ends after the text. *)
Definition edit_b : format.Range * list scanner.rune := (format.mkRange 1 2, [66]).

Definition edit_late : format.Range * list scanner.rune := (format.mkRange 3 9, [66]).

End samples.

(** * Properties *)

(** ** Loops with an error exit *)

Lemma bind_Ok_inv {E A B} (r : result E A) (k : A → result E B) (b : B) :
  r ≫= k = Ok b → ∃ a, r = Ok a ∧ k a = Ok b.
Proof. destruct r as [a|e]; simpl; [eauto|done]. Qed.

Lemma is_ok_ok_or {E A} (r : result E A) (a : A) :
  is_ok r = true → r = Ok (examples.ok_or r a).
Proof. by destruct r. Qed.

Section forM_facts.
Context {E S X : Type}.
Implicit Types (body : S → X → result E S) (s : S) (xs : list X).

Lemma forM_cons body s x xs :
  forM body s (x :: xs) = s' ← body s x; forM body s' xs.
Proof. done. Qed.

Lemma forM_app body s xs ys :
  forM body s (xs ++ ys) = s' ← forM body s xs; forM body s' ys.
Proof.
  revert s. induction xs as [|x xs IH]; intros s; simpl; [done|].
  destruct (body s x) as [s'|e]; simpl; [apply IH|done].
Qed.

(** An invariant of the loop body that holds at the start holds at a
    successful end. *)
Lemma forM_invariant (P : S → Prop) body s xs s' :
  (∀ s x s', x ∈ xs → P s → body s x = Ok s' → P s') →
  P s → forM body s xs = Ok s' → P s'.
Proof.
  revert s. induction xs as [|x xs IH]; intros s Hbody Hs Hrun; simpl in Hrun.
  - by inversion Hrun; subst.
  - destruct (body s x) as [s1|e] eqn:Hx; simpl in Hrun; [|done].
    apply (IH s1); [|by eapply Hbody; [left| |]|done].
    intros ? ? ? ?. apply Hbody. by right.
Qed.

(** A loop that succeeded ran its body successfully on every element. *)
Lemma forM_Ok_inv body s xs s' x :
  forM body s xs = Ok s' → x ∈ xs → ∃ s0 s1, body s0 x = Ok s1.
Proof.
  revert s. induction xs as [|y xs IH]; intros s Hrun Hx; [by inversion Hx|].
  simpl in Hrun. destruct (body s y) as [s1|e] eqn:Hy; simpl in Hrun; [|done].
  apply elem_of_cons in Hx as [->|Hx]; eauto.
Qed.
End forM_facts.

(** ** The order on transactions *)

Module ast_facts.

Import ast examples.

(** The loop of [Transaction.Less] never ends once it meets two equal
    postings at the index it started from: the index does not move. *)
Lemma Less_loop_stuck fuel ps ps2 i p p2 :
  ps !! i = Some p → ps2 !! i = Some p2 → Posting_Equal p p2 = true →
  Less_loop fuel ps ps2 i = None.
Proof.
  intros Hp Hp2 Heq. induction fuel as [|fuel IH]; simpl; [done|].
  rewrite Hp, Hp2, Heq. simpl.
  apply lookup_lt_Some in Hp. apply lookup_lt_Some in Hp2.
  by rewrite !bool_decide_eq_true_2 by done.
Qed.

Lemma Transaction_Less_stuck fuel t t2 p p2 :
  t_Date t = t_Date t2 → Description t = Description t2 →
  Postings t !! 0 = Some p → Postings t2 !! 0 = Some p2 →
  Posting_Equal p p2 = true →
  Transaction_Less fuel t t2 = None.
Proof.
  intros Hd Hdesc Hp Hp2 Heq. unfold Transaction_Less, Time_Equal.
  rewrite !bool_decide_eq_true_2 by done. simpl.
  by eapply Less_loop_stuck.
Qed.

(** Where the dates, the descriptions or the leading postings differ, or
    one side has no posting, one iteration is enough. *)
Lemma Transaction_Less_returns t t2 :
  (t_Date t ≠ t_Date t2 ∨ Description t ≠ Description t2 ∨
   match Postings t, Postings t2 with
   | p :: _, p2 :: _ => Posting_Equal p p2 = false
   | _, _ => True
   end) →
  ∃ b, ∀ fuel, Transaction_Less (S fuel) t t2 = Some b.
Proof.
  intros H. unfold Transaction_Less, Time_Equal.
  destruct (decide (t_Date t = t_Date t2)) as [Hd|Hd].
  2:{ rewrite (bool_decide_eq_false_2 _ Hd). simpl. eauto. }
  rewrite (bool_decide_eq_true_2 _ Hd). simpl.
  destruct (decide (Description t = Description t2)) as [Hs|Hs].
  2:{ rewrite (bool_decide_eq_false_2 _ Hs). simpl. eauto. }
  rewrite (bool_decide_eq_true_2 _ Hs). simpl.
  destruct H as [?|[?|H]]; [done..|].
  destruct (Postings t) as [|p ps], (Postings t2) as [|p2 ps2]; simpl.
  - eauto.
  - eauto.
  - eauto.
  - rewrite H. simpl. eauto.
Qed.

(** C9 (fails on the code): [Transaction.Less] is claimed to return for
    every pair of transactions, also when the leading postings are equal.
    For two transactions of one day with the same description and the same
    first posting, such as a coffee bought twice, the comparison is still
    in its loop after any number of iterations. *)
Theorem Transaction_Less_equal_leading_postings_loops :
  ∀ fuel, Transaction_Less fuel coffee coffee = None.
Proof.
  intros fuel. by eapply Transaction_Less_stuck.
Qed.

End ast_facts.

(** ** Totals of position maps *)

Module amounts_facts.

Implicit Types (am : Amounts) (pos : Account * Commodity) (k : Commodity).

Lemma total_empty k : total k ∅ = 0%Qc.
Proof. unfold total. by rewrite map_fold_empty. Qed.

Lemma total_insert_None k am pos v :
  am !! pos = None →
  total k (<[pos := v]> am) = (total k am + weight k pos v)%Qc.
Proof.
  intros Hnone. unfold total, weight.
  rewrite map_fold_insert_L; [|intros; repeat case_bool_decide; ring|done].
  case_bool_decide; ring.
Qed.

Lemma total_delete k am pos v :
  am !! pos = Some v →
  total k (delete pos am) = (total k am - weight k pos v)%Qc.
Proof.
  intros Hsome.
  rewrite <-(insert_delete_id am pos v) at 2 by done.
  rewrite total_insert_None by apply lookup_delete_eq. ring.
Qed.

Lemma total_insert k am pos v :
  total k (<[pos := v]> am)
  = (total k am - weight k pos (get am pos) + weight k pos v)%Qc.
Proof.
  unfold get. destruct (am !! pos) as [old|] eqn:Hpos; simpl.
  - rewrite <-insert_delete_eq, total_insert_None by apply lookup_delete_eq.
    rewrite (total_delete _ _ _ old) by done. ring.
  - rewrite total_insert_None by done. unfold weight, Decimal.Zero. simpl.
    case_bool_decide; ring.
Qed.

Lemma weight_plus k pos (v w : Qc) :
  weight k pos (v + w) = (weight k pos v + weight k pos w)%Qc.
Proof. unfold weight. case_bool_decide; ring. Qed.

Lemma weight_opp k pos (v : Qc) : weight k pos (- v) = (- weight k pos v)%Qc.
Proof. unfold weight. case_bool_decide; ring. Qed.

Lemma total_Add k am pos v :
  total k (amounts.Add am pos v) = (total k am + weight k pos v)%Qc.
Proof.
  unfold amounts.Add, Decimal.Add. rewrite total_insert, weight_plus. ring.
Qed.

(** Booking a posting moves an amount between two positions of one
    commodity: the total of every commodity is unchanged. *)
Lemma total_Book k am cr dr a c :
  total k (Book am cr dr a c) = total k am.
Proof.
  unfold Book, Decimal.Add, Decimal.Sub. rewrite !total_insert.
  unfold Qcminus. rewrite !weight_plus, weight_opp.
  unfold weight. simpl. case_bool_decide; ring.
Qed.

Lemma get_insert am pos pos' v :
  get (<[pos := v]> am) pos' = if decide (pos = pos') then v else get am pos'.
Proof. unfold get. rewrite lookup_insert. by case_decide. Qed.

Lemma total_filter_zero k (P : (Account * Commodity) * Qc → Prop)
    `{!∀ e, Decision (P e)} am :
  (∀ pos v, am !! pos = Some v → ¬ P (pos, v) → v = 0%Qc) →
  total k (filter P am) = total k am.
Proof.
  induction am as [|pos v am Hnone IH] using map_ind; intros Hzero.
  - by rewrite map_filter_empty.
  - assert (total k (filter P am) = total k am) as IH'.
    { apply IH. intros pos' v' Hpos'. apply Hzero.
      rewrite lookup_insert_ne; [done|]. intros ->. congruence. }
    rewrite total_insert_None by done.
    destruct (decide (P (pos, v))) as [HP|HP].
    + rewrite map_filter_insert_True by done.
      rewrite total_insert_None, IH'; [done|].
      apply map_lookup_filter_None. by left.
    + rewrite map_filter_insert_not' by (done || congruence).
      rewrite IH'. rewrite (Hzero pos v); [|by rewrite lookup_insert_eq|done].
      unfold weight. case_bool_decide; ring.
Qed.

Lemma enumerates_map_to_list am : enumerates (map_to_list am) am.
Proof. intros pos v. apply elem_of_map_to_list. Qed.

Lemma IsZero_true (v : Qc) : Decimal.IsZero v = true ↔ v = 0%Qc.
Proof. unfold Decimal.IsZero. apply bool_decide_eq_true. Qed.

End amounts_facts.

(** ** The balancer of [process/balancer.go] *)

Module balancer_facts.

Import ast balancer amounts_facts.

Implicit Types (oa : gmap Account bool) (am : Amounts) (k : Commodity)
  (pos : Account * Commodity) (order : list ((Account * Commodity) * Qc)).

(** *** Closing the positions of an account *)

Lemma closePosition_unfold c am pos v :
  closePosition c am (pos, v)
  = if negb (bool_decide (pos.1 = c_Account c)) then Ok am
    else if negb (Decimal.IsZero v) then Err (NonzeroClose c)
    else Ok (delete pos am).
Proof. done. Qed.

Lemma closePositions_Ok c order am am' :
  forM (closePosition c) am order = Ok am' →
  (∀ pos v, (pos, v) ∈ order → pos.1 = c_Account c → v = 0%Qc) ∧
  (∀ pos, am' !! pos
          = if bool_decide (pos.1 = c_Account c ∧ pos ∈ order.*1) then None
            else am !! pos).
Proof.
  revert am. induction order as [|[p v] order IH]; intros am Hrun.
  - inversion Hrun; subst. split; [by intros ?? ?%elem_of_nil|].
    intros pos. rewrite bool_decide_eq_false_2; [done|].
    intros [_ ?%elem_of_nil]. done.
  - rewrite forM_cons in Hrun. apply bind_Ok_inv in Hrun as (am1 & Hstep & Hrun).
    apply IH in Hrun as [Hzero Hlook]. rewrite closePosition_unfold in Hstep.
    destruct (decide (p.1 = c_Account c)) as [Hp|Hp].
    + rewrite (bool_decide_eq_true_2 _ Hp) in Hstep. simpl in Hstep.
      destruct (Decimal.IsZero v) eqn:Hv; simpl in Hstep; [|done].
      inversion Hstep; subst am1. apply IsZero_true in Hv. split.
      * intros pos w [Heq|Hin]%elem_of_cons Hpos; [by inversion Heq; subst|eauto].
      * intros pos. rewrite Hlook. simpl.
        destruct (decide (pos = p)) as [->|Hne].
        -- rewrite lookup_delete_eq.
           rewrite (bool_decide_eq_true_2 (_ ∧ p ∈ p :: _)); [by case_bool_decide|].
           split; [done|left].
        -- rewrite lookup_delete_ne by done.
           apply (f_equal (λ b : bool, if b then None else am !! pos)).
           apply bool_decide_ext. rewrite elem_of_cons. intuition congruence.
    + rewrite (bool_decide_eq_false_2 _ Hp) in Hstep. simpl in Hstep.
      inversion Hstep; subst am1. split.
      * intros pos w [Heq|Hin]%elem_of_cons Hpos; [|eauto].
        inversion Heq; subst. done.
      * intros pos. rewrite Hlook. simpl.
        apply (f_equal (λ b : bool, if b then None else am !! pos)).
        apply bool_decide_ext. rewrite elem_of_cons. intuition congruence.
Qed.

Lemma closePositions_all_zero c order am :
  (∀ pos v, (pos, v) ∈ order → pos.1 = c_Account c → v = 0%Qc) →
  ∃ am', forM (closePosition c) am order = Ok am'.
Proof.
  revert am. induction order as [|[p v] order IH]; intros am Hzero; [by eexists|].
  rewrite forM_cons, closePosition_unfold.
  destruct (decide (p.1 = c_Account c)) as [Hp|Hp].
  - rewrite (bool_decide_eq_true_2 _ Hp). simpl.
    rewrite (proj2 (IsZero_true v)) by (eapply Hzero; [left|done]). simpl.
    apply IH. intros ????. eapply Hzero; [by right|done].
  - rewrite (bool_decide_eq_false_2 _ Hp). simpl.
    apply IH. intros ????. eapply Hzero; [by right|done].
Qed.

Lemma closePositions_filter c order am am' :
  enumerates order am →
  forM (closePosition c) am order = Ok am' →
  am' = filter (keeps (c_Account c)) am.
Proof.
  intros Henum [_ Hlook]%closePositions_Ok. apply map_eq. intros pos.
  rewrite Hlook. case_bool_decide as Hcase.
  - symmetry. apply map_lookup_filter_None. right. intros v _ Hkeep.
    apply Hkeep. simpl. apply Hcase.
  - destruct (am !! pos) as [v|] eqn:Hpos.
    + symmetry. apply map_lookup_filter_Some. split; [done|].
      intros Ha. apply Hcase. split; [done|].
      apply list_elem_of_fmap. exists (pos, v). split; [done|]. by apply Henum.
    + symmetry. apply map_lookup_filter_None. by left.
Qed.


Lemma closePositions_Err_nonzero c order am e :
  forM (closePosition c) am order = Err e →
  e = NonzeroClose c ∧
  ∃ pos v, (pos, v) ∈ order ∧ pos.1 = c_Account c ∧ v ≠ 0%Qc.
Proof.
  revert am. induction order as [|[p v] order IH]; intros am; [done|].
  rewrite forM_cons, closePosition_unfold.
  case_bool_decide as Hp; simpl.
  - destruct (Decimal.IsZero v) eqn:Hv; simpl.
    + intros (-> & pos & w & ? & ? & ?)%IH. split; [done|].
      exists pos, w. split; [by right|done].
    + intros [= <-]. split; [done|]. exists p, v. split; [left|].
      split; [done|]. intros Hz%IsZero_true. congruence.
  - intros (-> & pos & w & ? & ? & ?)%IH. split; [done|].
    exists pos, w. split; [by right|done].
Qed.

(** *** One closing *)

Lemma processClosingIn_Ok order st c st' :
  enumerates order st.2 →
  processClosingIn order st c = Ok st' →
  has st.1 (c_Account c) = true ∧
  (∀ k v, st.2 !! (c_Account c, k) = Some v → v = 0%Qc) ∧
  st' = (delete (c_Account c) st.1, filter (keeps (c_Account c)) st.2).
Proof.
  intros Henum Hrun. unfold processClosingIn in Hrun.
  apply bind_Ok_inv in Hrun as (am' & Hloop & Hrun).
  apply bind_Ok_inv in Hrun as (oa' & Hclose & Hrun).
  inversion Hrun; subst st'. unfold Close in Hclose.
  destruct (has st.1 (c_Account c)) eqn:Hhas; simpl in Hclose; [|done].
  inversion Hclose; subst oa'. split; [done|]. split.
  - intros k v Hv. apply closePositions_Ok in Hloop as [Hzero _].
    apply (Hzero (c_Account c, k)); [by apply Henum|done].
  - f_equal. by eapply closePositions_filter.
Qed.

Lemma processClosingIn_Err order st c e :
  enumerates order st.2 →
  processClosingIn order st c = Err e →
  (e = NonzeroClose c ∧ ∃ k v, st.2 !! (c_Account c, k) = Some v ∧ v ≠ 0%Qc)
  ∨ (e = AccountAlreadyClosed (c_Account c) ∧ has st.1 (c_Account c) = false
     ∧ ∀ k v, st.2 !! (c_Account c, k) = Some v → v = 0%Qc).
Proof.
  intros Henum Hrun. unfold processClosingIn in Hrun.
  destruct (forM (closePosition c) st.2 order) as [am'|e'] eqn:Hloop; simpl in Hrun.
  - right. unfold Close in Hrun.
    destruct (has st.1 (c_Account c)); simpl in Hrun; [done|].
    inversion Hrun. split; [done|]. split; [done|]. intros k v Hv.
    apply closePositions_Ok in Hloop as [Hzero _].
    apply (Hzero (c_Account c, k)); [by apply Henum|done].
  - left. inversion Hrun; subst e'.
    apply closePositions_Err_nonzero in Hloop as (-> & [a k] & v & Hin & Ha & Hv).
    simpl in Ha. subst a. split; [done|]. exists k, v. split; [|done].
    by apply Henum.
Qed.

(** The order in which the positions are visited does not show in the
    result of a closing. *)
Lemma processClosingIn_any_order order st c :
  enumerates order st.2 → processClosingIn order st c = processClosing st c.
Proof.
  intros Henum. pose proof (enumerates_map_to_list st.2) as Hlist.
  destruct (processClosingIn order st c) as [s1|e1] eqn:H1,
           (processClosing st c) as [s2|e2] eqn:H2.
  - apply processClosingIn_Ok in H1 as (_ & _ & ->); [|done].
    apply processClosingIn_Ok in H2 as (_ & _ & ->); done.
  - apply processClosingIn_Ok in H1 as (Hhas & Hzero & _); [|done].
    apply processClosingIn_Err in H2 as [(_ & k & v & Hv & Hnz)|(_ & Hhas' & _)];
      [|congruence|done].
    destruct Hnz. eauto.
  - apply processClosingIn_Ok in H2 as (Hhas & Hzero & _); [|done].
    apply processClosingIn_Err in H1 as [(_ & k & v & Hv & Hnz)|(_ & Hhas' & _)];
      [|congruence|done].
    destruct Hnz. eauto.
  - apply processClosingIn_Err in H1 as [(-> & k & v & Hv & Hnz)|(-> & _ & Hzero)];
      [| |done];
    (apply processClosingIn_Err in H2 as [(-> & k' & v' & Hv' & Hnz')|(-> & _ & Hzero')];
      [| |done]); try done.
    + destruct Hnz. eauto.
    + destruct Hnz'. eauto.
Qed.

(** Closing removes entries and never adds one. *)
Lemma processClosing_shrinks st c st' :
  processClosing st c = Ok st' → st'.1 ⊆ st.1 ∧ st'.2 ⊆ st.2.
Proof.
  intros (_ & _ & ->)%processClosingIn_Ok; [|apply enumerates_map_to_list].
  simpl. split; [apply delete_subseteq|apply map_filter_subseteq].
Qed.

Lemma processClosing_total k st c st' :
  processClosing st c = Ok st' → total k st'.2 = total k st.2.
Proof.
  intros (_ & Hzero & ->)%processClosingIn_Ok; [|apply enumerates_map_to_list].
  simpl. apply total_filter_zero. intros [a k'] v Hv Hkeep.
  unfold keeps in Hkeep. simpl in Hkeep.
  destruct (decide (a = c_Account c)) as [->|]; [eauto|done].
Qed.

(** *** The closings of a day *)

Lemma processClosing_gone st c st' :
  processClosing st c = Ok st' → gone (c_Account c) st'.
Proof.
  intros (_ & _ & ->)%processClosingIn_Ok; [|apply enumerates_map_to_list].
  split; simpl; [apply lookup_delete_eq|]. intros k.
  apply map_lookup_filter_None. right. intros v _ Hkeep. by apply Hkeep.
Qed.

Lemma processClosing_keeps_gone a st c st' :
  gone a st → processClosing st c = Ok st' → gone a st'.
Proof.
  intros [Hoa Ham] [Hsub1 Hsub2]%processClosing_shrinks. split.
  - eapply lookup_weaken_None; done.
  - intros k. eapply lookup_weaken_None; done.
Qed.

Lemma processClosings_gone oa am d st' c :
  processClosings oa am d = Ok st' → c ∈ Day.Closings d → gone (c_Account c) st'.
Proof.
  unfold processClosings. intros Hrun (l1 & l2 & Hsplit)%list_elem_of_split.
  rewrite Hsplit, forM_app in Hrun.
  apply bind_Ok_inv in Hrun as (st1 & _ & Hrun).
  rewrite forM_cons in Hrun. apply bind_Ok_inv in Hrun as (st2 & Hc & Hrun).
  apply processClosing_gone in Hc.
  eapply (forM_invariant (gone (c_Account c))); [|exact Hc|exact Hrun].
  intros ??? _. apply processClosing_keeps_gone.
Qed.

Lemma processClosings_total k oa am d st' :
  processClosings oa am d = Ok st' → total k st'.2 = total k am.
Proof.
  unfold processClosings. intros Hrun.
  apply (forM_invariant (λ st, total k st.2 = total k am)) in Hrun; [done| |done].
  intros s c s' _ Hs Hc. rewrite <-Hs. by apply (processClosing_total k s c).
Qed.


(** *** Booking *)

Lemma get_Book am cr dr x c pos :
  get (Book am cr dr x c) pos
  = (get am pos - (if decide (pos = (cr, c)) then x else 0)
                + (if decide (pos = (dr, c)) then x else 0))%Qc.
Proof.
  unfold Book, Decimal.Add, Decimal.Sub. rewrite !get_insert.
  repeat case_decide; simplify_eq; ring.
Qed.

(** Booking a negated amount in the opposite direction is the same
    update. *)
Lemma Book_flip am cr dr x c :
  cr ≠ dr → Book am dr cr (Decimal.Neg x) c = Book am cr dr x c.
Proof.
  intros Hne. apply map_eq. intros pos. unfold Book, Decimal.Add, Decimal.Sub, Decimal.Neg.
  rewrite !lookup_insert, !get_insert.
  repeat case_decide; simplify_eq; try done; f_equal; ring.
Qed.

(** Booking the posting that [NewPosting] builds from a signed amount moves
    that signed amount from the credit to the debit side. *)
Lemma Book_NewPosting am cr dr c x :
  cr ≠ dr →
  Book am (Credit (NewPosting cr dr c x)) (Debit (NewPosting cr dr c x))
          (ast.Amount (NewPosting cr dr c x)) (p_Commodity (NewPosting cr dr c x))
  = Book am cr dr x c.
Proof.
  intros Hne. unfold NewPosting.
  destruct (Decimal.IsNegative x); simpl; [by apply Book_flip|done].
Qed.

Lemma Book_NewPostingWithTargets am cr dr c x targets :
  cr ≠ dr →
  Book am (Credit (NewPostingWithTargets cr dr c x targets))
          (Debit (NewPostingWithTargets cr dr c x targets))
          (ast.Amount (NewPostingWithTargets cr dr c x targets))
          (p_Commodity (NewPostingWithTargets cr dr c x targets))
  = Book am cr dr x c.
Proof. apply Book_NewPosting. Qed.

Lemma bookPosting_total k oa t am p am' :
  bookPosting oa t am p = Ok am' → total k am' = total k am.
Proof.
  unfold bookPosting. intros Hrun.
  destruct (IsOpen oa (Credit p)); simpl in Hrun; [|done].
  destruct (IsOpen oa (Debit p)); simpl in Hrun; [|done].
  inversion Hrun. apply total_Book.
Qed.

Lemma processTransactions_total k oa am d am' :
  processTransactions oa am d = Ok am' → total k am' = total k am.
Proof.
  unfold processTransactions. intros Hrun.
  apply (forM_invariant (λ am', total k am' = total k am)) in Hrun; [done| |done].
  intros am1 t am2 _ Ham1 Ht.
  apply (forM_invariant (λ am', total k am' = total k am)) in Ht; [done| |done].
  intros am3 p am4 _ <-. apply bookPosting_total.
Qed.

(** *** Value directives *)

Lemma processValue_total k pr oa st v st' :
  processValue pr oa st v = Ok st' → total k st'.1 = total k st.1.
Proof.
  destruct st as [am txs]. unfold processValue. intros Hrun.
  destruct (IsOpen oa (v_Account v)); simpl in Hrun; [|done].
  inversion Hrun. simpl. apply total_Book.
Qed.

Lemma processValues_total k pr oa am d r :
  processValues pr oa am d = Ok r → total k r.1 = total k am.
Proof.
  unfold processValues. intros Hrun.
  apply (forM_invariant (λ st, total k st.1 = total k am)) in Hrun; [done| |done].
  intros s v s' _ <-. apply processValue_total.
Qed.

(** C2: for a Value directive on an open account the balancer appends one
    transaction with the description "Valuation adjustment for <k> in <a>"
    and the single posting built from (valuation account, a, k,
    v - amounts[(a,k)]), books that posting, and leaves amounts[(a,k)] = v.
    The valuation account of [a] is an account other than [a]. *)
Theorem processValue_sets_position pr oa am transactions v :
  let a := v_Account v in
  let k := v_Commodity v in
  let valAcc := journal.ValuationAccountFor (Context pr) a in
  let delta := Decimal.Sub (v_Amount v) (amounts.Amount am a k) in
  IsOpen oa a = true →
  valAcc ≠ a →
  ∃ am',
    processValue pr oa (am, transactions) v
    = Ok (am', transactions
               ++ [mkTransaction (v_Date v)
                     ("Valuation adjustment for " +:+ Commodity_Name k
                        +:+ " in " +:+ Account_Name a)
                     [] [NewPostingWithTargets valAcc a k delta [k]] []])
    ∧ am' = Book am valAcc a delta k
    ∧ am' !! (a, k) = Some (v_Amount v).
Proof.
  intros a k valAcc delta Hopen Hne. unfold processValue.
  fold a. rewrite Hopen. cbn [negb]. cbv zeta. fold a k valAcc delta.
  rewrite Book_NewPostingWithTargets by done.
  eexists. split; [reflexivity|]. split; [done|].
  unfold Book. rewrite lookup_insert_eq, get_insert.
  rewrite decide_False by congruence.
  f_equal. unfold delta, amounts.Amount, Decimal.Add, Decimal.Sub. ring.
Qed.


(** *** A day, and a run *)

Lemma processDay_total k pr st d r :
  processDay pr st d = Ok r →
  total k r.1.2 = total k st.2 ∧ Day.Amounts r.2 = r.1.2.
Proof.
  unfold processDay. intros Hrun.
  apply bind_Ok_inv in Hrun as (oa & _ & Hrun).
  apply bind_Ok_inv in Hrun as (am & Ht & Hrun).
  apply bind_Ok_inv in Hrun as (rv & Hv & Hrun).
  apply bind_Ok_inv in Hrun as (u & _ & Hrun).
  apply bind_Ok_inv in Hrun as (st' & Hc & Hrun).
  inversion Hrun; subst r. simpl. split; [|done].
  rewrite (processClosings_total k _ _ _ _ Hc).
  rewrite (processValues_total k _ _ _ _ _ Hv).
  apply (processTransactions_total k _ _ _ _ Ht).
Qed.

Lemma run_total k pr st ds r :
  run pr st ds = Ok r →
  total k r.1.2 = total k st.2 ∧
  ∀ d', d' ∈ r.2 → total k (Day.Amounts d') = total k st.2.
Proof.
  revert st r. induction ds as [|d ds IH]; intros st r Hrun.
  - inversion Hrun; subst r. split; [done|]. by intros ? ?%elem_of_nil.
  - simpl in Hrun.
    apply bind_Ok_inv in Hrun as (r1 & Hd & Hrun).
    apply bind_Ok_inv in Hrun as (r2 & Hds & Hrun).
    inversion Hrun; subst r. simpl.
    apply (processDay_total k) in Hd as [Hd1 Hd2].
    apply IH in Hds as [Hds1 Hds2]. split; [congruence|].
    intros d' [->|Hin]%elem_of_cons; [congruence|].
    rewrite (Hds2 _ Hin). done.
Qed.

(** *** Assertions *)

Lemma checkAssertion_Ok_inv oa amts a :
  checkAssertion oa amts () a = Ok () →
  IsOpen oa (as_Account a) = true ∧
  amts !! (as_Account a, as_Commodity a) = Some (as_Amount a).
Proof.
  unfold checkAssertion.
  destruct (IsOpen oa (as_Account a)); cbn [negb]; [|done].
  destruct (amts !! (as_Account a, as_Commodity a)) as [va|]; [|done].
  unfold Decimal.Equal. case_bool_decide; cbn [negb]; [by subst|done].
Qed.

Lemma checkAssertion_Err_open oa amts a e :
  IsOpen oa (as_Account a) = true →
  checkAssertion oa amts () a = Err e → ∃ actual, e = AssertionFailed a actual.
Proof.
  intros Hopen. unfold checkAssertion. rewrite Hopen. cbn [negb].
  destruct (amts !! (as_Account a, as_Commodity a)) as [va|].
  - destruct (Decimal.Equal va (as_Amount a)); cbn [negb]; [done|].
    intros [= <-]. eauto.
  - intros [= <-]. eauto.
Qed.

Lemma processAssertions_Ok oa amts d :
  processAssertions oa amts d = Ok () →
  ∀ a, a ∈ Day.Assertions d →
    IsOpen oa (as_Account a) = true ∧
    amts !! (as_Account a, as_Commodity a) = Some (as_Amount a).
Proof.
  intros Hrun a Ha.
  destruct (forM_Ok_inv _ _ _ _ _ Hrun Ha) as ([] & [] & Hcheck).
  by apply checkAssertion_Ok_inv.
Qed.

(** C3: an assertion on an open account passes exactly when the position
    is present in the map with the asserted amount; it fails with an
    assertion error otherwise, and so it does for a position that was never
    booked, whatever the asserted amount, zero included. *)
Theorem assertion_needs_present_equal_position oa amts a :
  IsOpen oa (as_Account a) = true →
  (checkAssertion oa amts () a = Ok ()
   ↔ amts !! (as_Account a, as_Commodity a) = Some (as_Amount a)) ∧
  (∀ e, checkAssertion oa amts () a = Err e → ∃ actual, e = AssertionFailed a actual) ∧
  (amts !! (as_Account a, as_Commodity a) = None →
   checkAssertion oa amts () a = Err (AssertionFailed a Decimal.Zero)).
Proof.
  intros Hopen. split_and!.
  - split; [by intros [_ ?]%checkAssertion_Ok_inv|].
    intros Hpos. unfold checkAssertion. rewrite Hopen, Hpos. cbn [negb].
    unfold Decimal.Equal. by rewrite bool_decide_eq_true_2.
  - intros e. by apply checkAssertion_Err_open.
  - intros Hpos. unfold checkAssertion. by rewrite Hopen, Hpos.
Qed.


(** *** Closings, seen from a day *)

Lemma processDay_gone pr st d r c :
  processDay pr st d = Ok r → c ∈ Day.Closings d →
  gone (c_Account c) r.1 ∧ ∀ k, Day.Amounts r.2 !! (c_Account c, k) = None.
Proof.
  unfold processDay. intros Hrun Hc.
  apply bind_Ok_inv in Hrun as (oa & _ & Hrun).
  apply bind_Ok_inv in Hrun as (am & _ & Hrun).
  apply bind_Ok_inv in Hrun as (rv & _ & Hrun).
  apply bind_Ok_inv in Hrun as (u & _ & Hrun).
  apply bind_Ok_inv in Hrun as (st' & Hcl & Hrun).
  inversion Hrun; subst r. simpl.
  pose proof (processClosings_gone _ _ _ _ _ Hcl Hc) as Hgone.
  split; [done|]. apply Hgone.
Qed.

(** C4: a Close of account [a] fails when a position of [a] is nonzero or
    when [a] is not in the map of open accounts; otherwise it deletes every
    position of [a] and removes [a] from the open accounts. After a day
    that was balanced with a Close of [a] in it, the maps of the stage and
    the snapshot attached to the day hold no position of [a], zero or not,
    and [a] is not open. *)
Theorem close_removes_every_position pr st d c :
  match processClosing st c with
  | Ok st' =>
    has st.1 (c_Account c) = true ∧
    (∀ k v, st.2 !! (c_Account c, k) = Some v → v = 0%Qc) ∧
    st' = (delete (c_Account c) st.1, filter (keeps (c_Account c)) st.2) ∧
    gone (c_Account c) st'
  | Err e =>
    (e = NonzeroClose c ∧ ∃ k v, st.2 !! (c_Account c, k) = Some v ∧ v ≠ 0%Qc)
    ∨ (e = AccountAlreadyClosed (c_Account c) ∧ has st.1 (c_Account c) = false)
  end ∧
  ∀ r, processDay pr st d = Ok r → c ∈ Day.Closings d →
       gone (c_Account c) r.1 ∧
       ∀ k, Day.Amounts r.2 !! (c_Account c, k) = None.
Proof.
  split; [|intros r; apply processDay_gone].
  destruct (processClosing st c) as [st'|e] eqn:Hrun.
  - pose proof (processClosing_gone _ _ _ Hrun) as Hgone.
    apply processClosingIn_Ok in Hrun as (? & ? & ?);
      [done|apply enumerates_map_to_list].
  - apply processClosingIn_Err in Hrun as [?|(? & ? & _)];
      [by left|by right|apply enumerates_map_to_list].
Qed.

(** *** Accounts that are open without an Open directive *)

Lemma IsOpen_EQUITY oa a : Account_Type a = EQUITY → IsOpen oa a = true.
Proof.
  intros Ht. unfold IsOpen. rewrite (bool_decide_eq_true_2 _ Ht).
  apply orb_true_r.
Qed.

Lemma has_true oa a : has oa a = true ↔ oa !! a = Some true.
Proof.
  unfold has. destruct (oa !! a) as [[]|]; simpl; split; congruence.
Qed.

(** C5 (as amended): every check the balancer makes through [IsOpen], on
    the credit and the debit account of a posting, on the account of a
    Value and on the account of an Assertion, takes an EQUITY account for
    open whether or not an Open directive was processed for it, so none of
    them fails with an account-not-open error for it. A Close does not go
    through [IsOpen]: it succeeds only for an account that is in the map of
    open accounts. *)
Theorem equity_open_for_IsOpen_checks oa a :
  Account_Type a = EQUITY →
  IsOpen oa a = true ∧
  (∀ t am p e, Credit p = a → bookPosting oa t am p = Err e →
               e = DebitNotOpen t (Debit p)) ∧
  (∀ t am p e, Debit p = a → bookPosting oa t am p = Err e →
               e = CreditNotOpen t (Credit p)) ∧
  (∀ pr st v, v_Account v = a → is_ok (processValue pr oa st v) = true) ∧
  (∀ am asn e, as_Account asn = a → checkAssertion oa am () asn = Err e →
               ∃ actual, e = AssertionFailed asn actual) ∧
  (∀ am c, c_Account c = a →
           is_ok (processClosing (oa, am) c) = true → oa !! a = Some true).
Proof.
  intros Ht. pose proof (IsOpen_EQUITY oa a Ht) as Hopen. split_and!; [done|..].
  - intros t am p e <-. unfold bookPosting. rewrite Hopen. cbn [negb].
    destruct (IsOpen oa (Debit p)); cbn [negb]; [done|]. by intros [= <-].
  - intros t am p e <-. unfold bookPosting. rewrite Hopen.
    destruct (IsOpen oa (Credit p)); cbn [negb]; [done|]. by intros [= <-].
  - intros pr [am txs] v <-. unfold processValue. by rewrite Hopen.
  - intros am asn e <-. by apply checkAssertion_Err_open.
  - intros am c <- Hok.
    destruct (processClosing (oa, am) c) as [st'|e] eqn:Hrun; [|done].
    apply processClosingIn_Ok in Hrun as (Hhas & _); [|apply enumerates_map_to_list].
    by apply has_true.
Qed.


(** *** The properties on a journal of three days *)

Import examples.

Lemma processValue_sets_position_witness :
  IsOpen {[cash := true]} cash = true ∧
  journal.ValuationAccountFor (Context pr0) cash ≠ cash ∧
  ∃ am', is_ok (processValue pr0 {[cash := true]} (∅, []) count_cash) = true ∧
         am' = Book ∅ (mkAccount EQUITY ["Valuation"; "Cash"]) cash (usd 150 - 0) "USD" ∧
         am' !! (cash, "USD") = Some (usd 150).
Proof.
  assert (IsOpen {[cash := true]} cash = true) as Hopen by (vm_compute; reflexivity).
  assert (journal.ValuationAccountFor (Context pr0) cash ≠ cash) as Hne by discriminate.
  split; [exact Hopen|]. split; [exact Hne|].
  destruct (processValue_sets_position pr0 {[cash := true]} ∅ [] count_cash Hopen Hne)
    as (am' & Hrun & Hbook & Hpos).
  exists am'. split; [by rewrite Hrun|]. split; [exact Hbook|exact Hpos].
Defined.

Lemma assertion_needs_present_equal_position_witness :
  IsOpen {[cash := true]} cash = true ∧
  checkAssertion {[cash := true]} ∅ () assert_zero
  = Err (AssertionFailed assert_zero Decimal.Zero).
Proof.
  assert (IsOpen {[cash := true]} (as_Account assert_zero) = true) as Hopen
    by (vm_compute; reflexivity).
  split; [exact Hopen|].
  apply (assertion_needs_present_equal_position _ ∅ assert_zero Hopen).
  reflexivity.
Defined.

Lemma close_removes_every_position_witness :
  processDay pr0 state2 day_close = Ok day3 ∧
  close_cash ∈ Day.Closings day_close ∧
  gone cash day3.1 ∧
  ∀ k, Day.Amounts day3.2 !! (cash, k) = None.
Proof.
  assert (processDay pr0 state2 day_close = Ok day3) as Hrun
    by (apply is_ok_ok_or; vm_compute; reflexivity).
  assert (close_cash ∈ Day.Closings day_close) as Hin by left.
  split; [exact Hrun|]. split; [exact Hin|].
  exact (proj2 (close_removes_every_position pr0 state2 day_close (close_cash))
               day3 Hrun Hin).
Defined.

Lemma equity_open_for_IsOpen_checks_witness :
  Account_Type opening = EQUITY ∧ IsOpen ∅ opening = true.
Proof.
  split; [reflexivity|].
  exact (proj1 (equity_open_for_IsOpen_checks ∅ opening eq_refl)).
Defined.

(** C5 (as stated, fails on the code): the check a Close makes is not one
    that takes an EQUITY account for open. Closing [Equity:Opening], which
    no directive opened, fails because the account is not open, although
    [IsOpen] says it is. *)
Lemma Close_of_unopened_EQUITY_account_fails :
  Account_Type opening = EQUITY ∧
  IsOpen ∅ opening = true ∧
  Process2 pr0 [day_close_equity] = Err (AccountAlreadyClosed opening).
Proof. split_and!; vm_compute; reflexivity. Qed.

(** C8 (fails on the code): [Process2] is claimed to emit every day with
    its transactions in the order of [Transaction.Less]. It appends the
    transactions synthesised for the Value directives after the
    transactions of the day and does not sort: the day of 2023-01-02 leaves
    with "Wages" before "Valuation adjustment for USD in Assets:Cash",
    while the order puts the adjustment first. *)
Theorem Process2_emits_adjustments_unsorted :
  Process2 pr0 [day_open; day_value] = Ok run2 ∧
  (λ d, Description <$> Day.Transactions d) <$> run2.2
  = [[]; ["Wages"; "Valuation adjustment for USD in Assets:Cash"]] ∧
  match Day.Transactions <$> run2.2 with
  | [_; [t1; t2]] => Transaction_Less 1 t2 t1 = Some true
  | _ => False
  end.
Proof.
  split_and!.
  - apply is_ok_ok_or. vm_compute. reflexivity.
  - vm_compute. reflexivity.
  - vm_compute. reflexivity.
Qed.

End balancer_facts.

(** ** Exact division with a remainder *)

Module Decimal_facts.

Import Decimal.

Lemma trunc_nonneg (x : Qc) : (0 ≤ x)%Qc → (0 ≤ trunc x)%Z.
Proof.
  intros Hx. unfold trunc. apply Z.quot_pos; [|done].
  unfold Qcle, Qle in Hx. simpl in Hx. lia.
Qed.

Lemma trunc_le (x : Qc) : (0 ≤ x)%Qc → (NewFromInt (trunc x) ≤ x)%Qc.
Proof.
  intros Hx. unfold Qcle, Qle in *. simpl in *. unfold trunc.
  pose proof (Z.mul_quot_le (Qnum x) (Z.pos (Qden x))) as Hq. lia.
Qed.

Lemma NewFromInt_nonneg (n : Z) : (0 ≤ n)%Z → (0 ≤ NewFromInt n)%Qc.
Proof. intros Hn. unfold NewFromInt. rewrite <-Z2Qc_inj_0. by apply (proj1 (Z2Qc_inj_le _ _)). Qed.

Lemma NewFromInt_pos (n : nat) : 0 < n → (0 < NewFromInt (Z.of_nat n))%Qc.
Proof.
  intros Hn. unfold NewFromInt. rewrite <-Z2Qc_inj_0.
  apply (proj1 (Z2Qc_inj_lt _ _)). lia.
Qed.

Lemma NewFromInt_succ (n : nat) :
  NewFromInt (Z.of_nat (S n)) = (NewFromInt (Z.of_nat n) + 1)%Qc.
Proof.
  unfold NewFromInt. rewrite Nat2Z.inj_succ, <-Z.add_1_r, Z2Qc_inj_add.
  by rewrite Z2Qc_inj_1.
Qed.

Lemma pow10_1 : pow10 1 = Qc_of_Z 10.
Proof. by apply Qc_is_canon. Qed.

Lemma QuoRem_Some (d d2 : Qc) (precision : Z) :
  d2 ≠ 0%Qc →
  ∃ q, QuoRem d d2 precision = Some (q, (d - d2 * q)%Qc) ∧
       q = (NewFromInt (trunc (d / d2 * pow10 precision)) / pow10 precision)%Qc.
Proof.
  intros Hne. unfold QuoRem. rewrite bool_decide_eq_false_2 by done. eauto.
Qed.

(** The quotient and remainder give the dividend back. *)
Lemma QuoRem_exact (d d2 : Qc) (precision : Z) (q r : Qc) :
  QuoRem d d2 precision = Some (q, r) → d = (d2 * q + r)%Qc.
Proof.
  unfold QuoRem. case_bool_decide; [done|]. intros [= <- <-]. ring.
Qed.

(** A non-negative dividend and a positive divisor give a non-negative
    quotient and remainder. *)
Lemma QuoRem_nonneg (d d2 q r : Qc) :
  (0 ≤ d)%Qc → (0 < d2)%Qc → QuoRem d d2 1 = Some (q, r) →
  (0 ≤ q)%Qc ∧ (0 ≤ r)%Qc.
Proof.
  intros Hd Hd2. unfold QuoRem.
  rewrite bool_decide_eq_false_2 by (by apply not_eq_sym, Qclt_not_eq).
  intros [= <- <-]. rewrite pow10_1.
  assert (0 < Qc_of_Z 10)%Qc as H10
    by (rewrite <-Z2Qc_inj_0; by apply (proj1 (Z2Qc_inj_lt _ _))).
  assert (0 ≤ d / d2 * Qc_of_Z 10)%Qc as Hx.
  { apply Qcmult_nonneg_nonneg; [|by apply Qclt_le_weak].
    apply Qcmult_nonneg_nonneg; [done|]. by apply Qclt_le_weak, Qcinv_pos. }
  pose proof (trunc_nonneg _ Hx) as Hz. pose proof (trunc_le _ Hx) as Hle.
  set (z := NewFromInt (trunc (d / d2 * Qc_of_Z 10))) in *.
  assert (0 ≤ z)%Qc as Hz' by (by apply NewFromInt_nonneg).
  split.
  - apply Qcmult_nonneg_nonneg; [done|]. by apply Qclt_le_weak, Qcinv_pos.
  - apply Qcle_minus_iff.
    replace (d - d2 * (z / Qc_of_Z 10) + - 0)%Qc
      with ((d / d2 * Qc_of_Z 10 - z) * (d2 / Qc_of_Z 10))%Qc.
    + apply Qcmult_nonneg_nonneg.
      * by apply Qcle_minus_iff in Hle.
      * apply Qcmult_nonneg_nonneg; [by apply Qclt_le_weak|].
        by apply Qclt_le_weak, Qcinv_pos.
    + field. split; by apply not_eq_sym, Qclt_not_eq.
Qed.

Lemma IsNegative_nonneg (d : Qc) : (0 ≤ d)%Qc → IsNegative d = false.
Proof. intros Hd. unfold IsNegative. apply bool_decide_eq_false_2. by apply Qcle_not_lt. Qed.

Lemma Sum_replicate (n : nat) (d : Qc) :
  Sum (replicate n d) = (NewFromInt (Z.of_nat n) * d)%Qc.
Proof.
  induction n as [|n IH].
  - unfold NewFromInt. change (Z.of_nat 0) with 0%Z. rewrite Z2Qc_inj_0.
    unfold Sum. simpl. ring.
  - rewrite NewFromInt_succ. cbn [replicate]. unfold Sum in *. cbn [foldr].
    rewrite IH. ring.
Qed.

End Decimal_facts.

(** ** Accrual expansion *)

Module accrual_facts.

Import ast Decimal_facts examples.

Lemma NewPosting_nonneg cr dr c (amt : Qc) :
  (0 ≤ amt)%Qc → NewPosting cr dr c amt = mkPosting amt cr dr c [] None.
Proof. intros H. unfold NewPosting. by rewrite IsNegative_nonneg. Qed.

Lemma fmap_imap_const {A B C} (h : B → C) (g : nat → A → B) (c : C) (l : list A) :
  (∀ i x, h (g i x) = c) → h <$> imap g l = replicate (length l) c.
Proof.
  revert g. induction l as [|x l IH]; intros g Hg; [done|].
  rewrite imap_cons, fmap_cons, Hg. simpl. f_equal. apply IH.
  intros i y. apply Hg.
Qed.

Lemma fmap_imap_index_free {A B C} (h : B → C) (g : nat → A → B) (f : A → C)
    (l : list A) :
  (∀ i x, h (g i x) = f x) → h <$> imap g l = f <$> l.
Proof.
  revert g. induction l as [|x l IH]; intros g Hg; [done|].
  rewrite imap_cons, !fmap_cons, Hg. f_equal. apply IH. intros i y. apply Hg.
Qed.

Lemma concat_replicate_singleton {A} (n : nat) (x : A) :
  concat (replicate n [x]) = replicate n x.
Proof. induction n as [|n IH]; simpl; [done|]. by rewrite IH. Qed.

(** C7: an accrual that is expanded over N periods gives N transactions,
    one on the last day of each period, each with one posting; the first
    carries share + rem and each of the others carries share, where
    (share, rem) is the quotient and the remainder of the amount divided by
    N, and the N amounts sum to the amount of the posting. The amount of a
    posting is not negative, and the expansion happens where an income or
    expense account takes part in the posting. *)
Theorem accrual_conservation Periods a t posting rest :
  Postings t = posting :: rest →
  (accrualAccounts a posting).2.1 ≠ (accrualAccounts a posting).2.2 →
  (0 ≤ Amount posting)%Qc →
  0 < length (Periods (T0 a) (T1 a) (a_Interval a)) →
  ∃ share rem multi single,
    Decimal.QuoRem (Amount posting)
      (Decimal.NewFromInt (Z.of_nat (length (Periods (T0 a) (T1 a) (a_Interval a)))))
      1 = Some (share, rem) ∧
    Expand Periods a t = Some (multi ++ single) ∧
    t_Date <$> multi = End <$> Periods (T0 a) (T1 a) (a_Interval a) ∧
    amountsOf multi
    = [Decimal.Add share rem]
        :: replicate (length (Periods (T0 a) (T1 a) (a_Interval a)) - 1) [share] ∧
    Decimal.Sum (concat (amountsOf multi)) = Amount posting ∧
    (single = [] ∨
     ∃ tx, single = [tx] ∧ t_Date tx = t_Date t ∧ amountsOf [tx] = [[Amount posting]]).
Proof.
  intros Hps Hne HA HN.
  set (periods := Periods (T0 a) (T1 a) (a_Interval a)) in *.
  pose proof (NewFromInt_pos _ HN) as HNq.
  destruct (QuoRem_Some (Amount posting)
              (Decimal.NewFromInt (Z.of_nat (length periods))) 1)
    as (share & Hq & _); [by apply not_eq_sym, Qclt_not_eq|].
  destruct (QuoRem_nonneg _ _ _ _ HA HNq Hq) as [Hshare Hrem].
  pose proof (QuoRem_exact _ _ _ _ _ Hq) as Hexact.
  set (rem := (Amount posting - Decimal.NewFromInt (Z.of_nat (length periods)) * share)%Qc)
    in *.
  assert (0 ≤ Decimal.Add share rem)%Qc as Hfirst
    by (by apply Qcplus_nonneg_nonneg).
  unfold Expand. rewrite Hps.
  destruct (accrualAccounts a posting) as [[crS drS] [crM drM]] eqn:Hacc.
  simpl in Hne. fold periods. rewrite Hq.
  rewrite (bool_decide_eq_true_2 _ Hne).
  eexists share, rem, _, _. split; [done|]. split; [reflexivity|].
  assert (amountsOf
            (imap (λ i period,
                     mkTransaction (End period)
                       (accrualDescription (Description t) (i + 1) (length periods))
                       (Tags t)
                       [NewPosting crM drM (p_Commodity posting)
                          (if bool_decide (i = 0) then Decimal.Add share rem else share)]
                       []) periods)
          = [Decimal.Add share rem] :: replicate (length periods - 1) [share])
    as Hamounts.
  { destruct periods as [|p0 ps]; [simpl in HN; lia|].
    unfold amountsOf. rewrite imap_cons, fmap_cons. simpl.
    rewrite (NewPosting_nonneg _ _ _ _ Hfirst). simpl. f_equal.
    rewrite Nat.sub_0_r. apply fmap_imap_const. intros i x. simpl.
    by rewrite (NewPosting_nonneg _ _ _ _ Hshare). }
  split; [by apply fmap_imap_index_free|]. split; [exact Hamounts|]. split.
  - rewrite Hamounts. simpl. rewrite concat_replicate_singleton.
    unfold Decimal.Sum. cbn [foldr]. fold (Decimal.Sum (replicate (length periods - 1) share)).
    rewrite Sum_replicate.
    assert (Decimal.NewFromInt (Z.of_nat (length periods))
            = (Decimal.NewFromInt (Z.of_nat (length periods - 1)) + 1)%Qc) as HN1.
    { rewrite <-NewFromInt_succ. do 2 f_equal. lia. }
    unfold rem, Decimal.Add. rewrite HN1. ring.
  - case_bool_decide; [right|by left].
    eexists. split; [reflexivity|]. split; [done|].
    unfold amountsOf. simpl. by rewrite (NewPosting_nonneg _ _ _ _ HA).
Qed.

Lemma accrual_conservation_witness :
  Postings rent2023 = [rent_posting] ∧
  (accrualAccounts accrue2023 rent_posting).2.1
  ≠ (accrualAccounts accrue2023 rent_posting).2.2 ∧
  (0 ≤ Amount rent_posting)%Qc ∧
  0 < length (Periods2023 (T0 accrue2023) (T1 accrue2023) (a_Interval accrue2023)) ∧
  ∃ share rem multi single,
    Expand Periods2023 accrue2023 rent2023 = Some (multi ++ single) ∧
    amountsOf multi = [Decimal.Add share rem] :: replicate 11 [share] ∧
    Decimal.Sum (concat (amountsOf multi)) = Amount rent_posting.
Proof.
  assert (Postings rent2023 = [rent_posting]) as H1 by reflexivity.
  assert ((accrualAccounts accrue2023 rent_posting).2.1
          ≠ (accrualAccounts accrue2023 rent_posting).2.2) as H2
    by (vm_compute; discriminate).
  assert (0 ≤ Amount rent_posting)%Qc as H3 by (vm_compute; discriminate).
  assert (0 < length (Periods2023 (T0 accrue2023) (T1 accrue2023)
                        (a_Interval accrue2023))) as H4 by (vm_compute; lia).
  split_and!; [exact H1|exact H2|exact H3|exact H4|].
  destruct (accrual_conservation Periods2023 accrue2023 rent2023 rent_posting []
              H1 H2 H3 H4) as (share & rem & multi & single & _ & He & _ & Ha & Hs & _).
  exists share, rem, multi, single. split_and!; [exact He|exact Ha|exact Hs].
Defined.

End accrual_facts.

(** ** The filter of the assembler *)

Module astbuilder_facts.

Import ast astbuilder.

Implicit Types (days : gmap Z Day.t) (date : Time) (ds : list Directive).

Lemma AST_Day_insert days k d date :
  AST_Day (<[k := d]> days) date = if decide (k = date) then d else AST_Day days date.
Proof. unfold AST_Day. rewrite lookup_insert. by case_decide. Qed.

Lemma filtered_AddOpen days o date : filtered (AddOpen days o) date = filtered days date.
Proof.
  unfold filtered, AddOpen. rewrite AST_Day_insert. by case_decide; subst.
Qed.

Lemma filtered_AddPrice days p date : filtered (AddPrice days p) date = filtered days date.
Proof.
  unfold filtered, AddPrice. rewrite AST_Day_insert. by case_decide; subst.
Qed.

Lemma filtered_AddTransaction days t date :
  filtered (AddTransaction days t) date = filtered days date.
Proof.
  unfold filtered, AddTransaction. rewrite AST_Day_insert. by case_decide; subst.
Qed.

Lemma filtered_AddTransactions days ts date :
  filtered (foldl AddTransaction days ts) date = filtered days date.
Proof.
  revert days. induction ts as [|t ts IH]; intros days; simpl; [done|].
  by rewrite IH, filtered_AddTransaction.
Qed.

Lemma filtered_AddClose days c date :
  filtered (AddClose days c) date
  = (Day.Closings (AST_Day days date)
       ++ (if bool_decide (c_Date c = date) then [c] else []),
     Day.Assertions (AST_Day days date), Day.Values (AST_Day days date)).
Proof.
  unfold filtered, AddClose. rewrite AST_Day_insert.
  case_decide; subst; [by rewrite bool_decide_eq_true_2|].
  by rewrite bool_decide_eq_false_2, app_nil_r.
Qed.

Lemma filtered_AddAssertion days a date :
  filtered (AddAssertion days a) date
  = (Day.Closings (AST_Day days date),
     Day.Assertions (AST_Day days date)
       ++ (if bool_decide (as_Date a = date) then [a] else []),
     Day.Values (AST_Day days date)).
Proof.
  unfold filtered, AddAssertion. rewrite AST_Day_insert.
  case_decide; subst; [by rewrite bool_decide_eq_true_2|].
  by rewrite bool_decide_eq_false_2, app_nil_r.
Qed.

Lemma filtered_AddValue days v date :
  filtered (AddValue days v) date
  = (Day.Closings (AST_Day days date), Day.Assertions (AST_Day days date),
     Day.Values (AST_Day days date)
       ++ (if bool_decide (v_Date v = date) then [v] else [])).
Proof.
  unfold filtered, AddValue. rewrite AST_Day_insert.
  case_decide; subst; [by rewrite bool_decide_eq_true_2|].
  by rewrite bool_decide_eq_false_2, app_nil_r.
Qed.

(** What one directive adds to the Close, Assertion and Value directives
    of a day. *)
Lemma addDirective_filtered Periods pr days d days' date :
  addDirective Periods pr days d = Ok days' →
  filtered days' date
  = (Day.Closings (AST_Day days date) ++ retainedClosings (Filter_ pr) date [d],
     Day.Assertions (AST_Day days date) ++ retainedAssertions (Filter_ pr) date [d],
     Day.Values (AST_Day days date) ++ retainedValues (Filter_ pr) date [d]).
Proof.
  unfold retainedClosings, retainedAssertions, retainedValues.
  destruct d as [o|p|t|a|v|c|?|?]; simpl; rewrite ?app_nil_r; try done.
  - intros [= <-]. apply filtered_AddOpen.
  - intros [= <-]. apply filtered_AddPrice.
  - case_bool_decide; [by intros [= <-]|].
    set (t' := if bool_decide _ then _ else t).
    case_bool_decide; [|intros [= <-]; apply filtered_AddTransaction].
    intros Hrun.
    apply (forM_invariant (λ days', filtered days' date = filtered days date)) in Hrun;
      [done| |done].
    intros s addOn s' _ Hs. unfold addOnStep.
    destruct addOn as [acc|]; [|done].
    destruct (ast.Expand Periods acc t'); [|done].
    intros [= <-]. by rewrite filtered_AddTransactions.
  - destruct (MatchAccount (Filter_ pr) (as_Account a)); simpl;
      [|rewrite andb_false_r; simpl; rewrite app_nil_r; by intros [= <-]].
    destruct (MatchCommodity (Filter_ pr) (as_Commodity a)); simpl;
      [|rewrite andb_false_r; simpl; rewrite app_nil_r; by intros [= <-]].
    rewrite !andb_true_r. intros [= <-]. rewrite filtered_AddAssertion.
    by case_bool_decide; simpl; rewrite ?app_nil_r.
  - destruct (MatchAccount (Filter_ pr) (v_Account v)); simpl;
      [|rewrite andb_false_r; simpl; rewrite app_nil_r; by intros [= <-]].
    destruct (MatchCommodity (Filter_ pr) (v_Commodity v)); simpl;
      [|rewrite andb_false_r; simpl; rewrite app_nil_r; by intros [= <-]].
    rewrite !andb_true_r. intros [= <-]. rewrite filtered_AddValue.
    by case_bool_decide; simpl; rewrite ?app_nil_r.
  - destruct (MatchAccount (Filter_ pr) (c_Account c)); simpl;
      [|rewrite andb_false_r; simpl; rewrite app_nil_r; by intros [= <-]].
    rewrite !andb_true_r. intros [= <-]. rewrite filtered_AddClose.
    by case_bool_decide; simpl; rewrite ?app_nil_r.
Qed.


Lemma retainedClosings_cons b date d ds :
  retainedClosings b date (d :: ds)
  = retainedClosings b date [d] ++ retainedClosings b date ds.
Proof. unfold retainedClosings. simpl. by rewrite app_nil_r. Qed.

Lemma retainedAssertions_cons b date d ds :
  retainedAssertions b date (d :: ds)
  = retainedAssertions b date [d] ++ retainedAssertions b date ds.
Proof. unfold retainedAssertions. simpl. by rewrite app_nil_r. Qed.

Lemma retainedValues_cons b date d ds :
  retainedValues b date (d :: ds)
  = retainedValues b date [d] ++ retainedValues b date ds.
Proof. unfold retainedValues. simpl. by rewrite app_nil_r. Qed.

(** The Close, Assertion and Value directives of every day after a run of
    the loop: those of the day before the run, then those the filter
    retains, in the order of the stream. *)
Lemma forM_addDirective_filtered Periods pr days ds days' date :
  forM (addDirective Periods pr) days ds = Ok days' →
  filtered days' date
  = (Day.Closings (AST_Day days date) ++ retainedClosings (Filter_ pr) date ds,
     Day.Assertions (AST_Day days date) ++ retainedAssertions (Filter_ pr) date ds,
     Day.Values (AST_Day days date) ++ retainedValues (Filter_ pr) date ds).
Proof.
  revert days. induction ds as [|d ds IH]; intros days Hrun.
  - inversion Hrun. unfold filtered. by rewrite !app_nil_r.
  - rewrite forM_cons in Hrun. apply bind_Ok_inv in Hrun as (days1 & Hd & Hrun).
    rewrite (IH _ Hrun).
    rewrite retainedClosings_cons, retainedAssertions_cons, retainedValues_cons.
    rewrite !app_assoc.
    pose proof (addDirective_filtered _ _ _ _ _ date Hd) as Hstep.
    unfold filtered in Hstep.
    pose proof (f_equal (λ x, x.1.1) Hstep) as Hc.
    pose proof (f_equal (λ x, x.1.2) Hstep) as Ha.
    pose proof (f_equal snd Hstep) as Hv. cbn [fst snd] in Hc, Ha, Hv.
    by rewrite Hc, Ha, Hv.
Qed.

Lemma elem_of_retainedClosings b ds c :
  c ∈ retainedClosings b (c_Date c) ds
  ↔ DClose c ∈ ds ∧ MatchAccount b (c_Account c) = true.
Proof.
  unfold retainedClosings. rewrite list_elem_of_bind. split.
  - intros (d & Hc & Hd). destruct d; try by apply elem_of_nil in Hc.
    destruct (bool_decide _ && _) eqn:Hb; [|by apply elem_of_nil in Hc].
    apply list_elem_of_singleton in Hc as ->.
    by apply andb_true_iff in Hb as [_ ?].
  - intros [Hd Hm]. exists (DClose c). split; [|done].
    rewrite bool_decide_eq_true_2, Hm by done. by left.
Qed.

Lemma elem_of_retainedAssertions b ds a :
  a ∈ retainedAssertions b (as_Date a) ds
  ↔ DAssertion a ∈ ds ∧ MatchAccount b (as_Account a) = true
    ∧ MatchCommodity b (as_Commodity a) = true.
Proof.
  unfold retainedAssertions. rewrite list_elem_of_bind. split.
  - intros (d & Ha & Hd). destruct d; try by apply elem_of_nil in Ha.
    destruct (bool_decide _ && _ && _) eqn:Hb; [|by apply elem_of_nil in Ha].
    apply list_elem_of_singleton in Ha as ->.
    by apply andb_true_iff in Hb as [[_ ?]%andb_true_iff ?].
  - intros (Hd & Hm & Hk). exists (DAssertion a). split; [|done].
    rewrite bool_decide_eq_true_2, Hm, Hk by done. by left.
Qed.

Lemma elem_of_retainedValues b ds v :
  v ∈ retainedValues b (v_Date v) ds
  ↔ DValue v ∈ ds ∧ MatchAccount b (v_Account v) = true
    ∧ MatchCommodity b (v_Commodity v) = true.
Proof.
  unfold retainedValues. rewrite list_elem_of_bind. split.
  - intros (d & Hv & Hd). destruct d; try by apply elem_of_nil in Hv.
    destruct (bool_decide _ && _ && _) eqn:Hb; [|by apply elem_of_nil in Hv].
    apply list_elem_of_singleton in Hv as ->.
    by apply andb_true_iff in Hb as [[_ ?]%andb_true_iff ?].
  - intros (Hd & Hm & Hk). exists (DValue v). split; [|done].
    rewrite bool_decide_eq_true_2, Hm, Hk by done. by left.
Qed.

(** C10: in the days the assembler builds, a Close directive of the stream
    is retained if and only if its account matches the account predicate,
    whatever the commodity predicate says, while an Assertion or a Value is
    retained if and only if its account and its commodity both match. *)
Theorem Close_is_filtered_by_account_alone Periods pr ds days :
  assemble Periods pr ds = Ok days →
  (∀ c, c ∈ Day.Closings (AST_Day days (c_Date c))
        ↔ DClose c ∈ ds ∧ MatchAccount (Filter_ pr) (c_Account c) = true) ∧
  (∀ a, a ∈ Day.Assertions (AST_Day days (as_Date a))
        ↔ DAssertion a ∈ ds ∧ MatchAccount (Filter_ pr) (as_Account a) = true
          ∧ MatchCommodity (Filter_ pr) (as_Commodity a) = true) ∧
  (∀ v, v ∈ Day.Values (AST_Day days (v_Date v))
        ↔ DValue v ∈ ds ∧ MatchAccount (Filter_ pr) (v_Account v) = true
          ∧ MatchCommodity (Filter_ pr) (v_Commodity v) = true).
Proof.
  intros Hrun. unfold assemble in Hrun.
  assert (∀ date, filtered days date
                  = (retainedClosings (Filter_ pr) date ds,
                     retainedAssertions (Filter_ pr) date ds,
                     retainedValues (Filter_ pr) date ds)) as Hall.
  { intros date. by rewrite (forM_addDirective_filtered _ _ _ _ _ date Hrun). }
  split_and!.
  - intros c. pose proof (f_equal (λ x, x.1.1) (Hall (c_Date c))) as Hc.
    cbn [fst snd filtered] in Hc. rewrite Hc. apply elem_of_retainedClosings.
  - intros a. pose proof (f_equal (λ x, x.1.2) (Hall (as_Date a))) as Ha.
    cbn [fst snd filtered] in Ha. rewrite Ha. apply elem_of_retainedAssertions.
  - intros v. pose proof (f_equal snd (Hall (v_Date v))) as Hv.
    cbn [fst snd filtered] in Hv. rewrite Hv. apply elem_of_retainedValues.
Qed.

Import examples.

Lemma Close_is_filtered_by_account_alone_witness :
  assemble Periods2023 builder0 stream0 = Ok assembled0 ∧
  close_cash ∈ Day.Closings (AST_Day assembled0 (c_Date close_cash)) ∧
  assert_zero ∉ Day.Assertions (AST_Day assembled0 (as_Date assert_zero)).
Proof.
  assert (assemble Periods2023 builder0 stream0 = Ok assembled0) as Hrun
    by (apply is_ok_ok_or; vm_compute; reflexivity).
  destruct (Close_is_filtered_by_account_alone Periods2023 builder0 stream0
              assembled0 Hrun) as (Hc & Ha & _).
  split_and!; [exact Hrun| |].
  - apply Hc. split; [|reflexivity]. do 3 right. left.
  - intros (_ & _ & Hk)%Ha. discriminate Hk.
Defined.


End astbuilder_facts.

(** ** The gains of the valuation ([valuateGains]) *)

Module process_facts.

Import process amounts_facts.

Implicit Types (values : Amounts) (order : list ((Account * Commodity) * Qc))
  (st : list Transaction * Amounts) (pos : Account * Commodity).

(** The loop body computes the gain from the running map and applies it. *)
Lemma valuateGain_gainOf env v date normalized st entry :
  valuateGain env v date normalized st entry
  = g ← gainOf v normalized st.2 entry;
    Ok (match g with
        | Some gain => applyGain env date st entry.1 gain
        | None => st
        end).
Proof.
  destruct entry as [pos amt]. unfold valuateGain, gainOf. simpl.
  case_bool_decide; [done|]. destruct (ast.isAL pos.1); simpl; [|done].
  destruct (Valuate normalized pos.2 amt) as [value|]; simpl; [|done].
  by destruct (Decimal.IsZero _).
Qed.

(** The gain of a position depends on [values] at that position only, and
    only for a position of an asset or liability account. *)
Lemma gainOf_ext v normalized values values' entry :
  (ast.isAL entry.1.1 = true → get values entry.1 = get values' entry.1) →
  gainOf v normalized values entry = gainOf v normalized values' entry.
Proof.
  intros Hget. unfold gainOf. case_bool_decide; [done|].
  destruct (ast.isAL entry.1.1); simpl; [|done]. by rewrite Hget.
Qed.

Lemma get_Add values pos pos' x :
  get (amounts.Add values pos x) pos'
  = if decide (pos = pos') then (get values pos + x)%Qc else get values pos'.
Proof. unfold amounts.Add. by rewrite get_insert. Qed.

(** What applying a gain does to the position of an asset or liability
    account, when valuation accounts are not such accounts. *)
Lemma get_applyGain env date st pos gain pos' :
  ast.isAL pos'.1 = true →
  ast.isAL (journal.ValuationAccountFor (jctx env) pos.1) = false →
  get (applyGain env date st pos gain).2 pos'
  = if decide (pos = pos') then (get st.2 pos + gain)%Qc else get st.2 pos'.
Proof.
  intros Hal Hval. unfold applyGain. simpl. rewrite !get_Add.
  rewrite (decide_False (P := _ = pos')); [done|].
  intros <-. simpl in Hal. congruence.
Qed.

Lemma total_applyGain k env date st pos gain :
  total k (applyGain env date st pos gain).2 = total k st.2.
Proof.
  unfold applyGain. simpl. rewrite !total_Add. unfold weight, Decimal.Neg. simpl.
  case_bool_decide; ring.
Qed.


Lemma gainOf_Some_eligible v normalized values entry gain :
  gainOf v normalized values entry = Ok (Some gain) →
  entry.1.2 ≠ v ∧ ast.isAL entry.1.1 = true ∧ gain ≠ 0%Qc ∧
  ∃ value, Valuate normalized entry.1.2 entry.2 = Some value ∧
           gain = Decimal.Sub value (get values entry.1).
Proof.
  unfold gainOf. case_bool_decide; [done|].
  destruct (ast.isAL entry.1.1); simpl; [|done].
  destruct (Valuate normalized entry.1.2 entry.2) as [value|]; [|done].
  destruct (Decimal.IsZero _) eqn:Hz; [done|]. intros [= <-].
  split_and!; [done|done| |by eauto].
  intros Hzero%IsZero_true. congruence.
Qed.

Lemma specGain_unfold env v date normalized values0 st entry :
  specGain env v date normalized values0 st entry
  = g ← gainOf v normalized values0 entry;
    Ok (match g with
        | Some gain => applyGain env date st entry.1 gain
        | None => st
        end).
Proof. done. Qed.

(** The loop of the program, which reads the map it updates, computes what
    the specification computes from the map at the start. *)
Lemma valuateGain_refines env v date normalized values0 st order :
  NoDup order.*1 →
  valuation_apart env order →
  (∀ entry, entry ∈ order → ast.isAL entry.1.1 = true →
     get st.2 entry.1 = get values0 entry.1) →
  forM (valuateGain env v date normalized) st order
  = forM (specGain env v date normalized values0) st order.
Proof.
  revert st. induction order as [|e order IH]; intros st Hnodup Hval Hagree; [done|].
  rewrite !forM_cons, valuateGain_gainOf, specGain_unfold.
  rewrite (gainOf_ext _ _ st.2 values0 e) by (apply Hagree; left).
  rewrite fmap_cons in Hnodup. apply NoDup_cons in Hnodup as [Hfresh Hnodup].
  assert (valuation_apart env order) as Hval'
    by (intros ???; apply Hval; [by right|done]).
  destruct (gainOf v normalized values0 e) as [[gain|]|err] eqn:Hgain; simpl; [| |done].
  - apply IH; [done..|]. intros e' He' Hal.
    apply gainOf_Some_eligible in Hgain as (_ & Hal0 & _).
    rewrite get_applyGain by (done || (apply Hval; [left|done])).
    rewrite decide_False; [apply Hagree; [by right|done]|].
    intros Heq. apply Hfresh. rewrite Heq. apply list_elem_of_fmap. eauto.
  - apply IH; [done..|]. intros e' He' Hal. apply Hagree; [by right|done].
Qed.


Lemma Sum_app (l1 l2 : list Qc) :
  Decimal.Sum (l1 ++ l2) = (Decimal.Sum l1 + Decimal.Sum l2)%Qc.
Proof.
  unfold Decimal.Sum. induction l1 as [|x l1 IH]; simpl; [ring|].
  rewrite IH. ring.
Qed.

Lemma gainTransactions_cons env v date normalized values0 e order :
  gainTransactions env v date normalized values0 (e :: order)
  = gainTransactions env v date normalized values0 [e]
    ++ gainTransactions env v date normalized values0 order.
Proof. unfold gainTransactions. simpl. by rewrite app_nil_r. Qed.

Lemma gainsCreditedTo_cons env v normalized values0 e order key :
  gainsCreditedTo env v normalized values0 (e :: order) key
  = (gainsCreditedTo env v normalized values0 [e] key
     + gainsCreditedTo env v normalized values0 order key)%Qc.
Proof.
  unfold gainsCreditedTo. simpl. by rewrite app_nil_r, Sum_app.
Qed.

(** One position of the specification. *)
Lemma specGain_step env v date normalized values0 st e st1 :
  (ast.isAL e.1.1 = true →
   ast.isAL (journal.ValuationAccountFor (jctx env) e.1.1) = false) →
  specGain env v date normalized values0 st e = Ok st1 →
  is_ok (gainOf v normalized values0 e) = true ∧
  st1.1 = st.1 ++ gainTransactions env v date normalized values0 [e] ∧
  (∀ pos, ast.isAL pos.1 = true →
     get st1.2 pos
     = if decide (e.1 = pos) then (get st.2 pos + gainAt v normalized values0 e)%Qc
       else get st.2 pos) ∧
  (∀ key, ast.isAL key.1 = false →
     get st1.2 key = (get st.2 key - gainsCreditedTo env v normalized values0 [e] key)%Qc) ∧
  (∀ k, total k st1.2 = total k st.2).
Proof.
  intros Hval. rewrite specGain_unfold.
  unfold gainTransactions, gainsCreditedTo, gainAt. simpl.
  destruct (gainOf v normalized values0 e) as [[gain|]|err] eqn:Hgain; simpl; [| |done].
  - intros [= <-]. apply gainOf_Some_eligible in Hgain as (_ & Hal & _).
    specialize (Hval Hal). split_and!; [done|done| | |].
    + intros pos Hpos. rewrite get_applyGain by done. by case_decide; subst.
    + intros key Hkey. unfold applyGain. simpl. rewrite !get_Add.
      rewrite (decide_False (P := e.1 = key)) by (intros <-; congruence).
      rewrite (decide_False (P := e.1 = (_, _)))
        by (intros Heq; rewrite Heq in Hal; simpl in Hal; congruence).
      unfold Decimal.Neg, Decimal.Sum.
      case_decide as Hk; [rewrite bool_decide_eq_true_2 by done; subst key
                         |rewrite bool_decide_eq_false_2 by done]; simpl; ring.
    + intros k. apply total_applyGain.
  - intros [= <-]. split_and!; [done|by rewrite app_nil_r| | |done].
    + intros pos _. case_decide; [ring|done].
    + intros key _. unfold Decimal.Sum. case_bool_decide; simpl; ring.
Qed.

(** All positions of the specification. *)
Lemma specGain_run env v date normalized values0 st order st' :
  NoDup order.*1 →
  valuation_apart env order →
  forM (specGain env v date normalized values0) st order = Ok st' →
  st'.1 = st.1 ++ gainTransactions env v date normalized values0 order ∧
  (∀ pos, ast.isAL pos.1 = true → pos ∉ order.*1 → get st'.2 pos = get st.2 pos) ∧
  (∀ e, e ∈ order → ast.isAL e.1.1 = true →
     get st'.2 e.1 = (get st.2 e.1 + gainAt v normalized values0 e)%Qc) ∧
  (∀ key, ast.isAL key.1 = false →
     get st'.2 key
     = (get st.2 key - gainsCreditedTo env v normalized values0 order key)%Qc) ∧
  (∀ k, total k st'.2 = total k st.2) ∧
  (∀ e, e ∈ order → is_ok (gainOf v normalized values0 e) = true).
Proof.
  revert st. induction order as [|e order IH]; intros st Hnodup Hval Hrun.
  - inversion Hrun; subst st'. split_and!.
    + by rewrite app_nil_r.
    + done.
    + by intros ? ?%elem_of_nil.
    + intros key _. unfold gainsCreditedTo, Decimal.Sum. simpl. ring.
    + done.
    + by intros ? ?%elem_of_nil.
  - rewrite forM_cons in Hrun. apply bind_Ok_inv in Hrun as (st1 & Hstep & Hrun).
    rewrite fmap_cons in Hnodup. apply NoDup_cons in Hnodup as [Hfresh Hnodup].
    apply specGain_step in Hstep as (Hok & Htx & Hpos & Hkey & Htot);
      [|intros; apply Hval; [left|done]].
    apply IH in Hrun as (Htx' & Hout' & Hin' & Hkey' & Htot' & Hok');
      [|done|intros ???; apply Hval; [by right|done]].
    split_and!.
    + by rewrite Htx', Htx, (gainTransactions_cons _ _ _ _ _ e order), app_assoc.
    + intros pos Hal Hnotin. rewrite fmap_cons in Hnotin.
      apply not_elem_of_cons in Hnotin as [Hne Hnotin].
      rewrite Hout', Hpos by done. by rewrite decide_False.
    + intros e' [->|He']%elem_of_cons Hal.
      * rewrite Hout', Hpos by done. by rewrite decide_True.
      * rewrite Hin', Hpos by done. rewrite decide_False; [done|].
        intros Heq. apply Hfresh. rewrite Heq. apply list_elem_of_fmap. eauto.
    + intros key Hal.
      rewrite Hkey', Hkey, (gainsCreditedTo_cons _ _ _ _ e order) by done. ring.
    + intros k. by rewrite Htot'.
    + intros e' [->|He']%elem_of_cons; eauto.
Qed.


Lemma gainOf_eligible v normalized values a k amt value :
  k ≠ v → ast.isAL a = true → Valuate normalized k amt = Some value →
  gainOf v normalized values ((a, k), amt)
  = Ok (if Decimal.IsZero (Decimal.Sub value (get values (a, k))) then None
        else Some (Decimal.Sub value (get values (a, k)))).
Proof.
  intros Hk Hal Hvalue. unfold gainOf. simpl.
  rewrite bool_decide_eq_false_2, Hal, Hvalue by done. simpl.
  by destruct (Decimal.IsZero _).
Qed.

Lemma gainOf_ok_eligible v normalized values a k amt :
  k ≠ v → ast.isAL a = true →
  is_ok (gainOf v normalized values ((a, k), amt)) = true →
  ∃ value, Valuate normalized k amt = Some value.
Proof.
  intros Hk Hal. unfold gainOf. simpl.
  rewrite bool_decide_eq_false_2, Hal by done. simpl.
  destruct (Valuate normalized k amt); [eauto|done].
Qed.

(** C6: with a valuation commodity [v], for every position (a, k) of an
    asset or liability account in the amounts of the day with k other than
    [v], the stage computes gain = valuate(k, amounts[(a,k)]) - values[(a,k)];
    exactly when the gain is not zero it appends a transaction on the date of
    the day, described "Adjust value of <k> in account <a>", whose postings
    are built from (valuation account of a, a, commodity k, amount 0, value
    gain); it adds the gain to values[(a,k)] and subtracts it from the
    position of the valuation account. This holds in whatever order the
    positions are visited. Valuation accounts are not asset or liability
    accounts. *)
Theorem valuateGains_adjusts_each_position env v am values d order r :
  order ≡ₚ map_to_list am →
  valuation_apart env order →
  valuateGainsIn order env v values d = Ok r →
  Transactions r.2
  = Transactions d ++ gainTransactions env v (Date d) (Normalized d) values order ∧
  (∀ a k amt,
     am !! (a, k) = Some amt → ast.isAL a = true → k ≠ v →
     ∃ value,
       Valuate (Normalized d) k amt = Some value ∧
       gainTransactions env v (Date d) (Normalized d) values [((a, k), amt)]
       = (if bool_decide (Decimal.Sub value (get values (a, k)) = 0%Qc) then []
          else [mkTransaction (Date d)
                  ("Adjust value of " +:+ Commodity_Name k
                     +:+ " in account " +:+ Account_Name a)
                  (Build env
                     (mkPostingBuilder
                        (journal.ValuationAccountFor (jctx env) a) a k
                        Decimal.Zero (Decimal.Sub value (get values (a, k)))
                        [k]))]) ∧
       get r.1 (a, k)
       = Decimal.Add (get values (a, k)) (Decimal.Sub value (get values (a, k)))) ∧
  (∀ key, ast.isAL key.1 = false →
     get r.1 key
     = Decimal.Sub (get values key)
         (gainsCreditedTo env v (Normalized d) values order key)) ∧
  (∀ k, total k r.1 = total k values).
Proof.
  intros Hperm Hval Hrun. unfold valuateGainsIn in Hrun.
  apply bind_Ok_inv in Hrun as (st' & Hloop & Hrun). inversion Hrun; subst r.
  assert (NoDup order.*1) as Hnodup
    by (rewrite Hperm; apply NoDup_fst_map_to_list).
  rewrite (valuateGain_refines _ _ _ _ values) in Hloop by done.
  apply specGain_run in Hloop as (Htx & _ & Hin & Hkey & Htot & Hok); [|done..].
  simpl in *. split_and!; [done| |done|done].
  intros a k amt Ham Hal Hk.
  assert (((a, k), amt) ∈ order) as He
    by (rewrite Hperm; by apply elem_of_map_to_list).
  destruct (gainOf_ok_eligible v (Normalized d) values a k amt Hk Hal (Hok _ He))
    as [value Hvalue].
  exists value. split; [done|].
  specialize (Hin _ He Hal). simpl in Hin. rewrite Hin.
  unfold gainTransactions, gainAt. simpl.
  rewrite (gainOf_eligible _ _ _ _ _ _ _ Hk Hal Hvalue).
  unfold Decimal.IsZero, Decimal.Add.
  case_bool_decide as Hz; simpl; [|done]. split; [done|]. rewrite Hz. ring.
Qed.

Import examples.

Lemma valuateGains_adjusts_each_position_witness :
  map_to_list held ≡ₚ map_to_list held ∧
  valuation_apart env0 (map_to_list held) ∧
  valuateGainsIn (map_to_list held) env0 "USD" valued day_gain = Ok gained ∧
  (Description <$> Transactions gained.2)
  = ["Adjust value of EUR in account Assets:Foreign"] ∧
  ∃ value, Valuate (Normalized day_gain) "EUR" (usd 100) = Some value ∧
           get gained.1 (foreign, "EUR")
           = Decimal.Add (get valued (foreign, "EUR"))
                         (Decimal.Sub value (get valued (foreign, "EUR"))).
Proof.
  assert (map_to_list held ≡ₚ map_to_list held) as H1 by reflexivity.
  assert (valuation_apart env0 (map_to_list held)) as H2 by (intros ? _ _; reflexivity).
  assert (valuateGainsIn (map_to_list held) env0 "USD" valued day_gain = Ok gained)
    as H3 by (apply is_ok_ok_or; vm_compute; reflexivity).
  split_and!; [exact H1|exact H2|exact H3|vm_compute; reflexivity|].
  destruct (valuateGains_adjusts_each_position env0 "USD" held valued day_gain
              (map_to_list held) gained H1 H2 H3) as (_ & Hpos & _).
  destruct (Hpos foreign "EUR" (usd 100)) as (value & Hv & _ & Hget);
    [by apply lookup_singleton_eq|reflexivity|discriminate|].
  exists value. split; [exact Hv|exact Hget].
Defined.

End process_facts.

(** ** The balancer with a set of open accounts ([Balancer.Process]) *)

Module balancer_Process_facts.

Import ast balancer_Process amounts_facts.

Implicit Types (oa : gset Account) (am amts : Amounts) (k : Commodity).

Lemma Process_bookPosting_total k oa t amts p amts' :
  bookPosting oa t amts p = Ok amts' → total k amts' = total k amts.
Proof.
  unfold bookPosting.
  destruct (IsOpen oa (Credit p)); cbn [negb]; [|done].
  destruct (IsOpen oa (Debit p)); cbn [negb]; [|done].
  intros [= <-]. rewrite !total_Add. unfold weight, Decimal.Neg. simpl.
  case_bool_decide; ring.
Qed.

Lemma Process_processTransactions_total k oa amts d amts' :
  processTransactions oa amts d = Ok amts' → total k amts' = total k amts.
Proof.
  unfold processTransactions. intros Hrun.
  apply (forM_invariant (λ am', total k am' = total k amts)) in Hrun; [done| |done].
  intros am1 t am2 _ Ham1 Ht.
  apply (forM_invariant (λ am', total k am' = total k amts)) in Ht; [done| |done].
  intros am3 p am4 _ <-. apply Process_bookPosting_total.
Qed.

Lemma Process_processValue_total k pr oa st v st' :
  processValue pr oa st v = Ok st' → total k st'.1 = total k st.1.
Proof.
  destruct st as [amts txs]. unfold processValue.
  destruct (IsOpen oa (v_Account v)); cbn [negb]; [|done].
  intros [= <-]. simpl. rewrite !total_Add. unfold weight, Decimal.Neg. simpl.
  case_bool_decide; ring.
Qed.

(** The two additions of this balancer are the booking of the other. *)
Lemma Add_Add_Book amts cr dr (a : Qc) c :
  amounts.Add (amounts.Add amts (cr, c) (Decimal.Neg a)) (dr, c) a
  = Book amts cr dr a c.
Proof. done. Qed.

(** A Value directive on an open account leaves the position at the
    amount of the directive, as in the other balancer. *)
Lemma Process_processValue_sets_position pr oa amts transactions v st' :
  IsOpen oa (v_Account v) = true →
  journal.ValuationAccountFor (Context pr) (v_Account v) ≠ v_Account v →
  processValue pr oa (amts, transactions) v = Ok st' →
  st'.1 !! (v_Account v, v_Commodity v) = Some (v_Amount v).
Proof.
  intros Hopen Hne. unfold processValue, PostingWithTargets.
  rewrite Hopen. cbn [negb]. cbv zeta.
  intros [= <-]. cbn [fst]. unfold AccountCommodityKey.
  rewrite Add_Add_Book, balancer_facts.Book_NewPosting by done.
  unfold Book. rewrite lookup_insert_eq, get_insert.
  rewrite decide_False by congruence.
  f_equal. unfold Decimal.Add, Decimal.Sub. ring.
Qed.

Lemma closePositions_total k c am0 order am am' :
  (∀ e, e ∈ order → am0 !! e.1 = Some e.2) →
  am ⊆ am0 →
  forM (closePosition c) am order = Ok am' →
  am' ⊆ am0 ∧ total k am' = total k am.
Proof.
  intros Hin Hsub Hrun.
  apply (forM_invariant (λ am', am' ⊆ am0 ∧ total k am' = total k am)) in Hrun;
    [done| |done].
  intros am1 [pos amount] am2 He [Hsub1 Htot]. unfold closePosition.
  case_bool_decide; cbn [negb]; [|by intros [= <-]].
  destruct (Decimal.IsZero amount) eqn:Hz; cbn [negb]; [|done].
  intros [= <-]. apply IsZero_true in Hz. subst amount. split.
  - etrans; [apply delete_subseteq|done].
  - rewrite <-Htot. destruct (am1 !! pos) as [x|] eqn:Hpos.
    + rewrite (total_delete _ _ _ x) by done.
      pose proof (lookup_weaken _ _ _ _ Hpos Hsub1) as Hx.
      pose proof (Hin _ He) as Hz. simpl in Hz. rewrite Hz in Hx.
      inversion Hx; subst x.
      unfold weight. case_bool_decide; ring.
    + by rewrite delete_id.
Qed.

Lemma Process_processClosing_total k st c st' :
  processClosing st c = Ok st' → total k st'.2 = total k st.2.
Proof.
  unfold processClosing, processClosingIn. intros Hrun.
  apply bind_Ok_inv in Hrun as (am' & Hloop & Hrun).
  destruct (Close st.1 (c_Account c)) as [oa' []]; simpl in Hrun; [|done].
  inversion Hrun; subst st'. simpl.
  eapply closePositions_total in Hloop as [_ Htot]; [done| |done].
  intros [pos x] He. by apply elem_of_map_to_list.
Qed.

Lemma Process_processDay_total k pr st d r :
  processDay pr st d = Ok r →
  total k r.1.2 = total k st.2 ∧ Day.Amounts r.2 = r.1.2.
Proof.
  unfold processDay. intros Hrun.
  apply bind_Ok_inv in Hrun as (oa & _ & Hrun).
  apply bind_Ok_inv in Hrun as (am & Ht & Hrun).
  apply bind_Ok_inv in Hrun as (rv & Hv & Hrun).
  apply bind_Ok_inv in Hrun as (u & _ & Hrun).
  apply bind_Ok_inv in Hrun as (st' & Hc & Hrun).
  inversion Hrun; subst r. simpl. split; [|done].
  unfold processClosings in Hc.
  apply (forM_invariant (λ s, total k s.2 = total k st.2)) in Hc; [done| |].
  - intros s c s' _ <-. apply Process_processClosing_total.
  - simpl. unfold processValues in Hv.
    apply bind_Ok_inv in Hv as (rv' & Hvs & Hv). inversion Hv; subst rv. simpl.
    apply (forM_invariant (λ s, total k s.1 = total k st.2)) in Hvs; [done| |].
    + intros s v s' _ <-. apply Process_processValue_total.
    + simpl. by eapply Process_processTransactions_total.
Qed.

(** The sums are zero after a run of this balancer too. *)
Lemma Process_conserves k pr ds r :
  Process pr ds = Ok r →
  total k r.1.2 = 0%Qc ∧ ∀ d', d' ∈ r.2 → total k (Day.Amounts d') = 0%Qc.
Proof.
  unfold Process. rewrite <-(total_empty k).
  change (total k ∅) with (total k ((∅, ∅) : gset Account * Amounts).2).
  generalize ((∅, ∅) : gset Account * Amounts). revert r.
  induction ds as [|d ds IH]; intros r st Hrun.
  - inversion Hrun; subst r. split; [done|]. by intros ? ?%elem_of_nil.
  - simpl in Hrun.
    apply bind_Ok_inv in Hrun as (r1 & Hd & Hrun).
    apply bind_Ok_inv in Hrun as (r2 & Hds & Hrun).
    inversion Hrun; subst r. simpl.
    apply (Process_processDay_total k) in Hd as [Hd1 Hd2].
    apply IH in Hds as [Hds1 Hds2]. split; [congruence|].
    intros d' [->|Hin]%elem_of_cons; [congruence|].
    rewrite (Hds2 _ Hin). done.
Qed.

(** This balancer takes no account for open that is not in its set: an
    EQUITY account that was never opened is not open for it. *)
Lemma IsOpen_set_membership oa a : IsOpen oa a = true ↔ a ∈ oa.
Proof. unfold IsOpen. apply bool_decide_eq_true. Qed.

End balancer_Process_facts.

(** ** The one-pass balancer ([journal.Balance]) on values, assertions and closings *)

Module process_balance_facts.

Import process amounts_facts.

Implicit Types (accounts : gset Account) (am : Amounts).

(** A Value directive on an open account leaves the position at the
    amount of the directive. Only the position of the account is booked. *)
Lemma Balance_processValue_sets_position env accounts am transactions v st' :
  processValue env accounts (am, transactions) v = Ok st' →
  ast.v_Account v ∈ accounts ∧
  st'.1 !! (ast.v_Account v, ast.v_Commodity v) = Some (ast.v_Amount v).
Proof.
  unfold processValue. case_bool_decide; cbn [negb]; [|done].
  intros [= <-]. split; [done|]. cbn [fst].
  unfold amounts.Add, AccountCommodityKey. rewrite lookup_insert_eq.
  f_equal. unfold Decimal.Add, Decimal.Sub. ring.
Qed.

(** An assertion passes exactly when the account is open and the position
    is present with the asserted amount. *)
Lemma checkAssertion_Ok_iff accounts am a :
  checkAssertion accounts am () a = Ok ()
  ↔ ast.as_Account a ∈ accounts ∧
    am !! (ast.as_Account a, ast.as_Commodity a) = Some (ast.as_Amount a).
Proof.
  unfold checkAssertion, AccountCommodityKey.
  case_bool_decide as Hopen; cbn [negb]; [|by split; [|intros []]].
  destruct (am !! _) as [va|]; [|by split; [|intros []]].
  unfold Decimal.Equal. case_bool_decide; cbn [negb]; split; try done.
  - intros _. by subst.
  - by intros [_ [= ->]].
Qed.

(** The loop over the positions succeeds here exactly as in
    [balancer.go]; the two differ in what the error reports. *)
Lemma closePositions_agree c order am am' :
  forM (closePosition c) am order = Ok am' →
  forM (balancer.closePosition c) am order = Ok am'.
Proof.
  revert am. induction order as [|[pos amount] order IH]; intros am;
    [by intros [= <-]|].
  rewrite !forM_cons, balancer_facts.closePosition_unfold.
  change (closePosition c am (pos, amount))
    with (if negb (bool_decide (pos.1 = ast.c_Account c)) then Ok am
          else if negb (Decimal.IsZero amount)
               then Err (NonzeroClose c amount pos.2)
               else Ok (delete pos am) : result Error Amounts).
  case_bool_decide; cbn [negb]; [|apply IH].
  destruct (Decimal.IsZero amount); cbn [negb]; [apply IH|done].
Qed.

(** A successful Close leaves no position of the account and closes it. *)
Lemma processClosing_clears st c st' :
  processClosing st c = Ok st' →
  ast.c_Account c ∈ st.1 ∧
  st' = (st.1 ∖ {[ast.c_Account c]}, filter (keeps (ast.c_Account c)) st.2) ∧
  (ast.c_Account c ∉ st'.1) ∧
  ∀ k, st'.2 !! (ast.c_Account c, k) = None.
Proof.
  unfold processClosing, processClosingIn. intros Hrun.
  apply bind_Ok_inv in Hrun as (am' & Hloop & Hrun).
  case_bool_decide as Hopen; cbn [negb] in Hrun; [|done].
  inversion Hrun; subst st'. simpl.
  apply closePositions_agree, balancer_facts.closePositions_filter in Hloop;
    [|apply enumerates_map_to_list].
  subst am'. split_and!; [done|done| |].
  { rewrite elem_of_difference, elem_of_singleton. by intros [_ []]. }
  intros k. apply map_lookup_filter_None. right. intros v _ Hkeep. by apply Hkeep.
Qed.

End process_balance_facts.

(** ** The gains of [process/valuator.go] *)

Module valuator_facts.

Import ast valuator amounts_facts.

(** For a position of an asset or liability account in another commodity
    than the valuation commodity, with a price and a valuation account, the
    loop body books the difference between the valuation and the value so
    far, and appends the transaction for it when it is not zero. *)
Lemma computeValuation_eligible pr v date prices st a k va value valAcc :
  k ≠ v →
  isAL a = true →
  process.Valuate prices k va = Some value →
  ValuationAccountFor pr a = Some valAcc →
  valAcc ≠ a →
  ∃ st',
    computeValuation pr v date prices st ((a, k), va) = Some st' ∧
    get st'.2 (a, k) = value ∧
    st'.1 = st.1
            ++ (if Decimal.IsZero (Decimal.Sub value (get st.2 (a, k))) then []
                else [mkTransaction date
                        ("Adjust value of " +:+ Commodity_Name k
                           +:+ " in account " +:+ Account_Name a)
                        [] [NewPosting valAcc a k (Decimal.Sub value (get st.2 (a, k)))]
                        []]).
Proof.
  intros Hk Hal Hvalue Hacc Hne. unfold computeValuation. simpl.
  rewrite bool_decide_eq_false_2 by done.
  assert (negb (bool_decide (Account_Type a = ASSETS))
          && negb (bool_decide (Account_Type a = LIABILITIES)) = false) as ->.
  { unfold isAL in Hal. by destruct (bool_decide _), (bool_decide _). }
  rewrite Hvalue. destruct (Decimal.IsZero _) eqn:Hz.
  - eexists. split; [done|]. split; [|by rewrite app_nil_r].
    apply IsZero_true in Hz. unfold Decimal.Sub in Hz.
    rewrite <-(Qcplus_0_r (get st.2 (a, k))), <-Hz. ring.
  - rewrite Hacc. eexists. split; [done|]. split; [|done]. simpl.
    rewrite balancer_facts.get_Book.
    rewrite decide_False, decide_True by congruence.
    unfold Decimal.Sub. ring.
Qed.

End valuator_facts.

(** ** Double-entry conservation *)

Module conservation.

Import ast amounts_facts examples.

(** C1: in a run without a valuation commodity the positions of every
    commodity sum to zero after all days are balanced, in the maps the
    balancer holds and in the snapshot attached to every day it emits;
    booking a posting, in either balancer, and booking the posting
    synthesised for a Value directive leave every such sum unchanged. *)
Theorem double_entry_conservation pr ds r :
  balancer.Process2 pr ds = Ok r →
  (∀ k, total k r.1.2 = 0%Qc) ∧
  (∀ k d', d' ∈ r.2 → total k (Day.Amounts d') = 0%Qc) ∧
  (∀ k oa t am p am',
     balancer.bookPosting oa t am p = Ok am' → total k am' = total k am) ∧
  (∀ k oa st v st',
     balancer.processValue pr oa st v = Ok st' → total k st'.1 = total k st.1) ∧
  (∀ k oa t am p am',
     balancer_Process.bookPosting oa t am p = Ok am' → total k am' = total k am).
Proof.
  intros Hrun. split_and!.
  - intros k. destruct (balancer_facts.run_total k _ _ _ _ Hrun) as [Hend _].
    rewrite Hend. apply total_empty.
  - intros k d' Hd'. destruct (balancer_facts.run_total k _ _ _ _ Hrun) as [_ Hout].
    rewrite (Hout _ Hd'). apply total_empty.
  - intros k oa t am p am'. apply balancer_facts.bookPosting_total.
  - intros k oa st v st'. apply balancer_facts.processValue_total.
  - intros k oa t am p am'. apply balancer_Process_facts.Process_bookPosting_total.
Qed.

Lemma double_entry_conservation_witness :
  balancer.Process2 pr0 [day_open; day_value; day_close] = Ok run3 ∧
  (∀ k, total k run3.1.2 = 0%Qc) ∧
  (∀ k d', d' ∈ run3.2 → total k (Day.Amounts d') = 0%Qc).
Proof.
  assert (balancer.Process2 pr0 [day_open; day_value; day_close] = Ok run3) as Hrun
    by (apply is_ok_ok_or; vm_compute; reflexivity).
  split; [exact Hrun|].
  destruct (double_entry_conservation pr0 _ run3 Hrun) as (H1 & H2 & _).
  split; [exact H1|exact H2].
Defined.

End conservation.

(** ** The balancers side by side *)

Module variants.

Import ast examples.

(** The balancer of [Balancer.Process] sorts the transactions of the day
    once the transactions for the Value directives are appended: what it
    hands on is the sort of the transactions of the day followed by one
    synthesised transaction for each Value directive. *)
Lemma Process_processValues_sorts pr oa amts d r :
  balancer_Process.processValues pr oa amts d = Ok r →
  ∃ synthesised,
    length synthesised = length (Day.Values d) ∧
    Day.Transactions r.2
    = balancer_Process.sortTransactions pr (Day.Transactions d ++ synthesised).
Proof.
  unfold balancer_Process.processValues. intros Hrun.
  apply bind_Ok_inv in Hrun as (st & Hloop & Hrun). inversion Hrun; subst r.
  simpl. clear Hrun.
  enough (∀ vs s s', forM (balancer_Process.processValue pr oa) s vs = Ok s' →
                     ∃ new, length new = length vs ∧ s'.2 = s.2 ++ new) as Hgen.
  { destruct (Hgen _ _ _ Hloop) as (new & Hlen & ->). eauto. }
  clear. induction vs as [|v vs IH]; intros s s' Hrun.
  - inversion Hrun; subst s'. exists []. by rewrite app_nil_r.
  - rewrite forM_cons in Hrun. apply bind_Ok_inv in Hrun as (s1 & Hv & Hrun).
    destruct (IH _ _ Hrun) as (new & Hlen & ->).
    destruct s as [amts txs]. unfold balancer_Process.processValue in Hv.
    destruct (balancer_Process.IsOpen oa (v_Account v)); cbn [negb] in Hv; [|done].
    inversion Hv; subst s1. cbn [snd]. eexists (_ :: new).
    split; [simpl; by rewrite Hlen|]. by rewrite <-app_assoc.
Qed.

(** In the balancers that keep a set of open accounts an EQUITY account is
    open only when an Open directive opened it: a posting that credits
    [Equity:Opening] on a day that opens the debit account alone fails. *)
Lemma Process_requires_Open_for_EQUITY :
  ∃ t, balancer_Process.Process (balancer_Process.mkBalancer jctx0 id) [day_equity]
       = Err (balancer_Process.CreditNotOpen t opening).
Proof. eexists. vm_compute. reflexivity. Qed.

Lemma Balance_requires_Open_for_EQUITY :
  ∃ t, process.Balance env0 None process.init day_equity_postings
       = Err (process.AccountNotOpen t opening).
Proof. eexists. vm_compute. reflexivity. Qed.

End variants.

Module ast_order_facts.

Import ast ast_order.

Lemma ascii_compare_refl (a : Ascii.ascii) : Ascii.compare a a = Eq.
Proof. unfold Ascii.compare. apply N.compare_refl. Qed.

Lemma string_compare_refl (s : string) : String.compare s s = Eq.
Proof. induction s as [|a s IH]; simpl; [done|]. by rewrite ascii_compare_refl. Qed.

Lemma ascii_compare_Eq (a b : Ascii.ascii) : Ascii.compare a b = Eq → a = b.
Proof. apply Ascii.compare_eq_iff. Qed.

Lemma ascii_compare_Lt_trans (a b c : Ascii.ascii) :
  Ascii.compare a b = Lt → Ascii.compare b c = Lt → Ascii.compare a c = Lt.
Proof.
  unfold Ascii.compare. rewrite !N.compare_lt_iff. apply N.lt_trans.
Qed.

Lemma string_compare_Lt_trans (s1 s2 s3 : string) :
  String.compare s1 s2 = Lt → String.compare s2 s3 = Lt → String.compare s1 s3 = Lt.
Proof.
  revert s2 s3. induction s1 as [|a s1 IH]; intros [|b s2] [|c s3]; simpl; try done.
  destruct (Ascii.compare a b) eqn:Hab; [|clear IH|done].
  - apply ascii_compare_Eq in Hab as ->.
    destruct (Ascii.compare b c); [apply IH|done..].
  - intros _. destruct (Ascii.compare b c) eqn:Hbc; [| |done].
    + apply ascii_compare_Eq in Hbc as <-. by rewrite Hab.
    + by rewrite (ascii_compare_Lt_trans _ _ _ Hab Hbc).
Qed.

Lemma ltb_irrefl (s : string) : String.ltb s s = false.
Proof. unfold String.ltb. by rewrite string_compare_refl. Qed.

Lemma ltb_asym (s1 s2 : string) : String.ltb s1 s2 = true → String.ltb s2 s1 = false.
Proof.
  unfold String.ltb. rewrite (String.compare_antisym s2 s1).
  by destruct (String.compare s1 s2).
Qed.

Lemma ltb_trans (s1 s2 s3 : string) :
  String.ltb s1 s2 = true → String.ltb s2 s3 = true → String.ltb s1 s3 = true.
Proof.
  unfold String.ltb.
  destruct (String.compare s1 s2) eqn:H12; [done| |done].
  destruct (String.compare s2 s3) eqn:H23; [done| |done].
  by rewrite (string_compare_Lt_trans _ _ _ H12 H23).
Qed.

Lemma ltb_total (s1 s2 : string) :
  String.ltb s1 s2 = false → String.ltb s2 s1 = false → s1 = s2.
Proof.
  unfold String.ltb. rewrite (String.compare_antisym s2 s1).
  destruct (String.compare s1 s2) eqn:H12; simpl; try done.
  intros _ _. by apply String.compare_eq_iff.
Qed.

(** [Posting.Less] as the lexicographic order of the keys. *)
Lemma Posting_Less_key (p p2 : Posting) :
  Posting_Less p p2 = true ↔
  let '(c, d, a, k) := Posting_key p in
  let '(c2, d2, a2, k2) := Posting_key p2 in
  String.ltb c c2 = true ∨
  c = c2 ∧ (String.ltb d d2 = true ∨
            d = d2 ∧ ((a < a2)%Qc ∨ a = a2 ∧ String.ltb k k2 = true)).
Proof.
  unfold Posting_Less, Posting_key, Decimal.Equal, Decimal.LessThan.
  generalize (Account_Name (Credit p)) (Account_Name (Credit p2))
             (Account_Name (Debit p)) (Account_Name (Debit p2))
             (Amount p) (Amount p2)
             (Commodity_Name (p_Commodity p)) (Commodity_Name (p_Commodity p2)).
  intros c c2 d d2 a a2 k k2.
  repeat case_bool_decide; cbn [negb]; subst;
    rewrite ?ltb_irrefl, ?bool_decide_eq_true;
    try (pose proof (Qclt_not_eq a a2));
    intuition (try congruence);
    exfalso; by eapply (Qclt_not_eq a2 a2).
Qed.


(** X1: [Posting.Less] is a strict order on postings: no posting is less
    than itself, two postings are never less than one another, the relation
    is transitive, and two postings neither of which is less than the other
    agree on everything it compares: the names of both accounts, the amount
    and the name of the commodity. *)
Theorem Posting_Less_is_a_strict_order :
  (∀ p, Posting_Less p p = false) ∧
  (∀ p p2, Posting_Less p p2 = true → Posting_Less p2 p = false) ∧
  (∀ p p2 p3, Posting_Less p p2 = true → Posting_Less p2 p3 = true →
              Posting_Less p p3 = true) ∧
  (∀ p p2, Posting_Less p p2 = false → Posting_Less p2 p = false →
           Posting_key p = Posting_key p2).
Proof.
  split_and!.
  - intros p. apply not_true_iff_false. rewrite Posting_Less_key.
    destruct (Posting_key p) as [[[c d] a] k]. rewrite !ltb_irrefl.
    intros [?|[_ [?|[_ [Ha|[_ ?]]]]]]; try done. by apply (Qclt_not_eq a a).
  - intros p p2 H12. apply not_true_iff_false. revert H12.
    rewrite !Posting_Less_key.
    destruct (Posting_key p) as [[[c d] a] k], (Posting_key p2) as [[[c2 d2] a2] k2].
    intros [Hc|[-> [Hd|[-> [Ha|[-> Hk]]]]]] [Hc'|[Hec [Hd'|[Hed [Ha'|[Hea Hk']]]]]];
      subst; rewrite ?ltb_irrefl in *; try done;
      try (by rewrite (ltb_asym _ _ Hc) in Hc');
      try (by rewrite (ltb_asym _ _ Hd) in Hd');
      try (by rewrite (ltb_asym _ _ Hk) in Hk');
      try (by apply (Qclt_not_eq a a));
      try (by apply (Qclt_not_eq a2 a2)).
    by destruct (Qclt_not_eq a a (Qclt_trans _ _ _ Ha Ha')).
  - intros p p2 p3. rewrite !Posting_Less_key.
    destruct (Posting_key p) as [[[c d] a] k], (Posting_key p2) as [[[c2 d2] a2] k2],
             (Posting_key p3) as [[[c3 d3] a3] k3].
    intros [Hc|[-> [Hd|[-> [Ha|[-> Hk]]]]]] [Hc'|[<- [Hd'|[<- [Ha'|[<- Hk']]]]]];
      eauto 10 using ltb_trans, Qclt_trans.
  - intros p p2 H12%not_true_iff_false H21%not_true_iff_false.
    rewrite Posting_Less_key in H12, H21.
    destruct (Posting_key p) as [[[c d] a] k], (Posting_key p2) as [[[c2 d2] a2] k2].
    assert (c = c2) as ->.
    { apply ltb_total; apply not_true_iff_false; intros ?; tauto. }
    assert (d = d2) as ->.
    { apply ltb_total; apply not_true_iff_false; intros ?; tauto. }
    assert (a = a2) as ->.
    { destruct (Qc_dec a a2) as [[?|?]|?]; [tauto|tauto|done]. }
    assert (k = k2) as ->; [|done].
    apply ltb_total; apply not_true_iff_false; intros ?; tauto.
Qed.

(** X2: [NewPosting] never builds a posting with a negative amount; a
    negative amount is negated and the two accounts change places, so that
    for an amount other than zero the same posting comes out whether one
    passes (credit, debit, amount) or (debit, credit, -amount), and building
    a posting again from the fields of a built one changes nothing. The
    list of target commodities is what [NewPostingWithTargets] was given,
    and the rest of the posting is that of [NewPosting]. *)
Theorem NewPosting_never_negative cr dr c (amt : Qc) targets :
  let p := NewPosting cr dr c amt in
  (0 ≤ Amount p)%Qc ∧
  (Amount p = if bool_decide (amt < 0)%Qc then (- amt)%Qc else amt) ∧
  ((Credit p, Debit p) = if bool_decide (amt < 0)%Qc then (dr, cr) else (cr, dr)) ∧
  (amt ≠ 0%Qc → NewPosting dr cr c (Decimal.Neg amt) = p) ∧
  NewPosting (Credit p) (Debit p) (p_Commodity p) (Amount p) = p ∧
  NewPostingWithTargets cr dr c amt targets
  = mkPosting (Amount p) (Credit p) (Debit p) c targets None.
Proof.
  intros p. subst p.
  unfold NewPostingWithTargets, NewPosting, Decimal.IsNegative, Decimal.Neg.
  case_bool_decide as Hneg; simpl.
  - assert (0 < - amt)%Qc as Hopp.
    { apply Qclt_minus_iff in Hneg. by rewrite Qcplus_0_l in Hneg. }
    rewrite (bool_decide_eq_false_2 (- amt < 0)%Qc)
      by (apply Qcle_not_lt; by apply Qclt_le_weak).
    split_and!; try done. by apply Qclt_le_weak.
  - apply Qcnot_lt_le in Hneg as Hle.
    rewrite (bool_decide_eq_false_2 (amt < 0)%Qc) by done.
    split_and!; try done.
    intros Hnz.
    assert (- amt < 0)%Qc as Hopp.
    { apply Qclt_minus_iff. rewrite Qcopp_involutive, Qcplus_0_l.
      destruct (Qcle_lt_or_eq _ _ Hle) as [?|?]; [done|congruence]. }
    rewrite (bool_decide_eq_true_2 _ Hopp). by rewrite Qcopp_involutive.
Qed.

(** X3: a call of [Transaction.Less] is settled in the first iteration of
    its loop or never: it returns the order of the dates where they differ,
    else the order of the descriptions where they differ, else, where one of
    the transactions has no posting, whether the first has fewer postings,
    else the order of the two leading postings where these are not equal;
    where the leading postings are equal it does not return. No posting
    after the first is ever read. *)
Theorem Transaction_Less_first_iteration_or_never t t2 fuel :
  Transaction_Less (S fuel) t t2 = Less_outcome t t2 ∧
  (Less_outcome t t2 = None → Transaction_Less fuel t t2 = None).
Proof.
  unfold Transaction_Less, Less_outcome.
  destruct (negb (Time_Equal (t_Date t) (t_Date t2))); [by split|].
  destruct (negb (bool_decide (Description t = Description t2))); [by split|].
  destruct (Postings t) as [|p ps], (Postings t2) as [|p2 ps2]; simpl;
    [by split..|].
  destruct (Posting_Equal p p2) eqn:Heq; simpl; [|by split].
  split.
  - by apply (ast_facts.Less_loop_stuck fuel (p :: ps) (p2 :: ps2) 0 p p2).
  - intros _. by apply (ast_facts.Less_loop_stuck fuel (p :: ps) (p2 :: ps2) 0 p p2).
Qed.

End ast_order_facts.

(** ** Accrual expansion and the balancer *)

Module expand_facts.

Import ast ast_order amounts_facts Decimal_facts.

Implicit Types (am : Amounts) (pos : Account * Commodity).

Lemma get_Book_effect am cr dr x c pos :
  get (Book am cr dr x c) pos = (get am pos + effect cr dr c x pos)%Qc.
Proof. rewrite balancer_facts.get_Book. unfold effect. ring. Qed.

Lemma effect_plus cr dr c (x y : Qc) pos :
  effect cr dr c (x + y) pos = (effect cr dr c x pos + effect cr dr c y pos)%Qc.
Proof. unfold effect. repeat case_decide; ring. Qed.

Lemma effect_zero cr dr c pos : effect cr dr c 0 pos = 0%Qc.
Proof. unfold effect. repeat case_decide; ring. Qed.

Lemma effect_self a c x pos : effect a a c x pos = 0%Qc.
Proof. unfold effect. repeat case_decide; ring. Qed.

Lemma effect_chain cr mid dr c x pos :
  (effect cr mid c x pos + effect mid dr c x pos)%Qc = effect cr dr c x pos.
Proof. unfold effect. repeat case_decide; ring. Qed.

Lemma effect_NewPosting cr dr c x pos :
  effect (Credit (NewPosting cr dr c x)) (Debit (NewPosting cr dr c x))
         (p_Commodity (NewPosting cr dr c x)) (Amount (NewPosting cr dr c x)) pos
  = effect cr dr c x pos.
Proof.
  unfold NewPosting. destruct (Decimal.IsNegative x); simpl; [|done].
  unfold effect, Decimal.Neg. repeat case_decide; ring.
Qed.

(** A successful run of the balancer over the transactions of a day books
    every posting, in order. *)
Lemma processTransactions_bookAll oa am d am' :
  balancer.processTransactions oa am d = Ok am' →
  am' = bookAll am (postingsOf (Day.Transactions d)).
Proof.
  unfold balancer.processTransactions, postingsOf, bookAll.
  generalize (Day.Transactions d). intros ts. revert am.
  induction ts as [|t ts IH]; intros am Hrun; [by inversion Hrun|].
  rewrite forM_cons in Hrun. apply bind_Ok_inv in Hrun as (am1 & Ht & Hrun).
  rewrite bind_cons, foldl_app.
  assert (am1 = foldl (λ am p, Book am (Credit p) (Debit p) (Amount p) (p_Commodity p))
                      am (Postings t)) as <-; [|by apply IH].
  clear IH Hrun. revert am Ht.
  induction (Postings t) as [|p ps IHp]; intros am Ht; [by inversion Ht|].
  rewrite forM_cons in Ht. apply bind_Ok_inv in Ht as (am2 & Hp & Ht).
  simpl. rewrite (IHp _ Ht). f_equal. unfold balancer.bookPosting in Hp.
  destruct (balancer.IsOpen oa (Credit p)); cbn [negb] in Hp; [|done].
  destruct (balancer.IsOpen oa (Debit p)); cbn [negb] in Hp; [|done].
  by inversion Hp.
Qed.

Lemma bookAll_app am ps ps' : bookAll am (ps ++ ps') = bookAll (bookAll am ps) ps'.
Proof. unfold bookAll. apply foldl_app. Qed.

(** Booking postings that [NewPosting] builds between two fixed accounts
    adds the effect of the sum of their signed amounts. *)
Lemma get_bookAll_NewPosting {A} am cr dr c (x : nat → Qc) (l : list A) pos :
  get (bookAll am (imap (λ i _, NewPosting cr dr c (x i)) l)) pos
  = (get am pos + effect cr dr c (Decimal.Sum (imap (λ i _, x i) l)) pos)%Qc.
Proof.
  revert am x. induction l as [|y l IH]; intros am x.
  - simpl. rewrite effect_zero. ring.
  - rewrite !imap_cons. unfold bookAll. cbn [foldl].
    fold (bookAll (Book am (Credit (NewPosting cr dr c (x 0)))
                     (Debit (NewPosting cr dr c (x 0)))
                     (Amount (NewPosting cr dr c (x 0)))
                     (p_Commodity (NewPosting cr dr c (x 0))))
            (imap ((λ i _, NewPosting cr dr c (x i)) ∘ S) l)).
    change (imap ((λ i _, NewPosting cr dr c (x i)) ∘ S) l)
      with (imap (λ i (_ : A), NewPosting cr dr c ((x ∘ S) i)) l).
    rewrite IH, get_Book_effect, effect_NewPosting.
    change (imap ((λ i (_ : A), x i) ∘ S) l) with (imap (λ i (_ : A), (x ∘ S) i) l).
    unfold Decimal.Sum at 2. cbn [foldr].
    fold (Decimal.Sum (imap (λ i (_ : A), (x ∘ S) i) l)).
    rewrite effect_plus. ring.
Qed.

Lemma postingsOf_imap_singleton {A} (f : nat → A → Transaction)
    (g : nat → A → Posting) (l : list A) :
  (∀ i y, Postings (f i y) = [g i y]) → postingsOf (imap f l) = imap g l.
Proof.
  revert f g. induction l as [|y l IH]; intros f g Hfg; [done|].
  rewrite !imap_cons. unfold postingsOf. rewrite bind_cons, Hfg. simpl. f_equal.
  apply IH. intros i z. apply Hfg.
Qed.

Lemma imap_replicate {A B} (f : nat → A → B) (c : B) (l : list A) :
  (∀ i y, f i y = c) → imap f l = replicate (length l) c.
Proof.
  revert f. induction l as [|y l IH]; intros f Hf; [done|].
  rewrite imap_cons, Hf. simpl. f_equal. apply IH. intros i z. apply Hf.
Qed.

(** The shares of the periods add up to the amount that was divided. *)
Lemma Sum_shares {A} (l : list A) (amount rem total : Qc) :
  total = (Decimal.NewFromInt (Z.of_nat (length l)) * amount + rem)%Qc →
  l ≠ [] →
  Decimal.Sum (imap (λ i _, if bool_decide (i = 0) then Decimal.Add amount rem
                            else amount) l) = total.
Proof.
  intros -> Hl. destruct l as [|y l]; [done|].
  rewrite imap_cons. unfold Decimal.Sum. cbn [foldr].
  rewrite bool_decide_eq_true_2 by done.
  assert (imap ((λ i (_ : A), if bool_decide (i = 0) then Decimal.Add amount rem
                               else amount) ∘ S) l
          = replicate (length l) amount) as ->.
  { apply imap_replicate. by intros. }
  fold (Decimal.Sum (replicate (length l) amount)). rewrite Sum_replicate.
  cbn [length]. rewrite NewFromInt_succ. unfold Decimal.Add. ring.
Qed.


Lemma QuoRem_None (d d2 : Qc) (precision : Z) :
  Decimal.QuoRem d d2 precision = None ↔ d2 = 0%Qc.
Proof. unfold Decimal.QuoRem. case_bool_decide; split; done. Qed.

Lemma NewFromInt_length_zero {A} (l : list A) :
  Decimal.NewFromInt (Z.of_nat (length l)) = 0%Qc ↔ l = [].
Proof.
  unfold Decimal.NewFromInt. rewrite <-Z2Qc_inj_0, Z2Qc_inj_iff.
  destruct l; simpl; split; (done || lia).
Qed.

(** X4: [Accrual.Expand] panics exactly when the transaction has no
    posting, which it reads at index 0, or when the accrual spans no period,
    which makes it divide by zero. Where it returns, every transaction it
    returns carries exactly one posting, in the commodity of the leading
    posting of the transaction, the tags of the transaction, and no add-on:
    the postings after the first are dropped. *)
Theorem Expand_panics_without_posting_or_period Periods a t :
  (Expand Periods a t = None
   ↔ Postings t = [] ∨ Periods (T0 a) (T1 a) (a_Interval a) = []) ∧
  (∀ tss tx, Expand Periods a t = Some tss → tx ∈ tss →
     Tags tx = Tags t ∧ AddOns tx = [] ∧
     ∃ p posting, Postings tx = [p] ∧ head (Postings t) = Some posting ∧
                  p_Commodity p = p_Commodity posting).
Proof.
  unfold Expand. destruct (Postings t) as [|posting rest] eqn:Hps.
  { split; [by split; [left|]|done]. }
  destruct (accrualAccounts a posting) as [[crS drS] [crM drM]].
  set (periods := Periods (T0 a) (T1 a) (a_Interval a)).
  destruct (Decimal.QuoRem _ _ 1) as [[amount rem]|] eqn:Hq.
  - split.
    + split; [done|]. intros [?|Hnil]; [done|].
      apply NewFromInt_length_zero, (QuoRem_None (Amount posting) _ 1) in Hnil.
      congruence.
    + intros tss tx [= <-] [Hin|Hin]%elem_of_app.
      * case_bool_decide; [|by apply elem_of_nil in Hin].
        apply elem_of_lookup_imap in Hin as (i & period & -> & _). simpl.
        split_and!; [done..|]. eexists _, posting. split_and!; [done..|].
        unfold NewPosting. by destruct (Decimal.IsNegative _).
      * case_bool_decide; [|by apply elem_of_nil in Hin].
        apply list_elem_of_singleton in Hin as ->. simpl.
        split_and!; [done..|]. eexists _, posting. split_and!; [done..|].
        unfold NewPosting. by destruct (Decimal.IsNegative _).
  - split; [|done]. split; [|done]. intros _. right.
    by apply QuoRem_None, NewFromInt_length_zero in Hq.
Qed.

(** X5: accrual expansion is neutral for the books. Where the balancer
    books the transactions [Accrual.Expand] returns, every position ends
    where booking the leading posting of the expanded transaction would
    have left it: the amount leaves the credit account and reaches the debit
    account, in full, and what passes through the accrual account on the
    way adds up to nothing. This holds whatever the sign of the amount and
    whichever of the four routings the account types select. *)
Theorem Expand_books_as_leading_posting Periods a t posting rest tss oa am d am' :
  Postings t = posting :: rest →
  Expand Periods a t = Some tss →
  balancer.processTransactions oa am (Day.with_Transactions d tss) = Ok am' →
  ∀ pos, get am' pos
         = get (Book am (Credit posting) (Debit posting) (Amount posting)
                        (p_Commodity posting)) pos.
Proof.
  intros Hps Hexp Hrun pos.
  apply processTransactions_bookAll in Hrun. subst am'. cbn [Day.with_Transactions
    Day.Transactions].
  unfold Expand in Hexp. rewrite Hps in Hexp.
  destruct (accrualAccounts a posting) as [[crS drS] [crM drM]] eqn:Hacc.
  set (periods := Periods (T0 a) (T1 a) (a_Interval a)) in *.
  destruct (Decimal.QuoRem _ _ 1) as [[amount rem]|] eqn:Hq; [|done].
  inversion Hexp; subst tss. clear Hexp.
  assert (periods ≠ []) as Hne.
  { intros Hnil. apply NewFromInt_length_zero in Hnil.
    apply (QuoRem_None (Amount posting) _ 1) in Hnil. congruence. }
  pose proof (QuoRem_exact _ _ _ _ _ Hq) as Hexact.
  unfold postingsOf. rewrite bind_app. fold (postingsOf). rewrite bookAll_app.
  set (c := p_Commodity posting).
  assert (∀ am1, get (bookAll am1
            ((if bool_decide (crS ≠ drS)
              then [mkTransaction (t_Date t) (Description t) (Tags t)
                      [NewPosting crS drS c (Amount posting)] []]
              else []) ≫= Postings)) pos
          = (get am1 pos + effect crS drS c (Amount posting) pos)%Qc) as Hsingle.
  { intros am1. case_bool_decide as HS.
    - unfold bookAll. simpl. by rewrite get_Book_effect, effect_NewPosting.
    - rewrite HS. simpl. rewrite effect_self. ring. }
  rewrite Hsingle. clear Hsingle.
  assert (get (bookAll am
            ((if bool_decide (crM ≠ drM)
              then imap (λ i period,
                     mkTransaction (End period)
                       (accrualDescription (Description t) (i + 1) (length periods))
                       (Tags t)
                       [NewPosting crM drM c
                          (if bool_decide (i = 0) then Decimal.Add amount rem
                           else amount)] []) periods
              else []) ≫= Postings)) pos
          = (get am pos + effect crM drM c (Amount posting) pos)%Qc) as ->.
  { case_bool_decide as HM.
    - fold (postingsOf (imap (λ i period,
                     mkTransaction (End period)
                       (accrualDescription (Description t) (i + 1) (length periods))
                       (Tags t)
                       [NewPosting crM drM c
                          (if bool_decide (i = 0) then Decimal.Add amount rem
                           else amount)] []) periods)).
      rewrite (postingsOf_imap_singleton _
                 (λ i _, NewPosting crM drM c
                           (if bool_decide (i = 0) then Decimal.Add amount rem
                            else amount))) by done.
      rewrite (get_bookAll_NewPosting am crM drM c
                 (λ i, if bool_decide (i = 0) then Decimal.Add amount rem else amount)).
      rewrite (Sum_shares periods amount rem (Amount posting)); [done| |done].
      rewrite Hexact at 1. done.
    - rewrite HM. simpl. rewrite effect_self. ring. }
  rewrite get_Book_effect. fold c.
  enough ((effect crM drM c (Amount posting) pos + effect crS drS c (Amount posting) pos)%Qc
          = effect (Credit posting) (Debit posting) c (Amount posting) pos) as <- by ring.
  unfold accrualAccounts in Hacc.
  destruct (isAL (Credit posting) && isIE (Debit posting));
    [inversion Hacc; subst; rewrite Qcplus_comm; apply effect_chain|].
  destruct (isIE (Credit posting) && isAL (Debit posting));
    [inversion Hacc; subst; apply effect_chain|].
  destruct (isIE (Credit posting) && isIE (Debit posting));
    inversion Hacc; subst; rewrite effect_self; ring.
Qed.

End expand_facts.

(** ** More on the balancer of [process/balancer.go] *)

Module balancer_more.

Import ast balancer amounts_facts balancer_facts balancers.

Implicit Types (oa : gmap Account bool) (am : Amounts) (k : Commodity).

Lemma has_insert oa a b : has (<[a := true]> oa) b = has oa b || bool_decide (b = a).
Proof.
  unfold has. destruct (decide (b = a)) as [->|Hne].
  - rewrite lookup_insert_eq, bool_decide_eq_true_2 by done. by rewrite orb_true_r.
  - rewrite lookup_insert_ne, bool_decide_eq_false_2 by done. by rewrite orb_false_r.
Qed.

Lemma Open_unfold oa a :
  Open oa a = if has oa a then Err (AccountAlreadyOpen a) else Ok (<[a := true]> oa).
Proof. done. Qed.

(** X6: the openings of a day succeed exactly when they name distinct
    accounts none of which is open; the accounts that are open afterwards
    are those that were open before and those the day opens. Where they
    fail, the error names an account one of them opens. *)
Theorem processOpenings_opens_fresh_distinct_accounts oa d :
  (is_ok (processOpenings oa d) = true
   ↔ NoDup (o_Account <$> Day.Openings d)
     ∧ ∀ a, a ∈ o_Account <$> Day.Openings d → has oa a = false) ∧
  (∀ oa' a, processOpenings oa d = Ok oa' →
     has oa' a = has oa a || bool_decide (a ∈ o_Account <$> Day.Openings d)) ∧
  (∀ e, processOpenings oa d = Err e →
     ∃ a, e = AccountAlreadyOpen a ∧ a ∈ o_Account <$> Day.Openings d).
Proof.
  unfold processOpenings. generalize (Day.Openings d). intros os. revert oa.
  induction os as [|o os IH]; intros oa.
  - split_and!.
    + split; [intros _; split; [constructor|by intros ? ?%elem_of_nil]|done].
    + intros oa' a [= <-]. rewrite bool_decide_eq_false_2 by apply not_elem_of_nil.
      by rewrite orb_false_r.
    + done.
  - rewrite forM_cons, fmap_cons, (Open_unfold oa (o_Account o)).
    destruct (has oa (o_Account o)) eqn:Hhas; simpl.
    + split_and!.
      * split; [done|]. intros [_ Hfresh].
        rewrite Hfresh in Hhas; [done|left].
      * done.
      * intros e [= <-]. eexists. split; [done|left].
    + destruct (IH (<[o_Account o := true]> oa)) as (Hok & Hopen & Herr).
      split_and!.
      * rewrite Hok, NoDup_cons. split.
        -- intros [Hnodup Hfresh]. split; [split; [|done]|].
           ++ intros Hin. specialize (Hfresh _ Hin).
              by rewrite has_insert, bool_decide_eq_true_2, orb_true_r in Hfresh.
           ++ intros a [->|Hin]%elem_of_cons; [done|].
              specialize (Hfresh _ Hin). rewrite has_insert in Hfresh.
              by apply orb_false_iff in Hfresh as [? _].
        -- intros [[Hnotin Hnodup] Hfresh]. split; [done|].
           intros a Hin. rewrite has_insert, Hfresh by (by right).
           rewrite bool_decide_eq_false_2; [done|]. by intros ->.
      * intros oa' a Hrun. rewrite (Hopen _ _ Hrun), has_insert, <-orb_assoc.
        f_equal. rewrite <-bool_decide_or. apply bool_decide_ext.
        rewrite elem_of_cons. tauto.
      * intros e (a & -> & Hin)%Herr. eexists. split; [done|by right].
Qed.

Lemma bookPosting_unfold oa t am p :
  bookPosting oa t am p
  = if negb (IsOpen oa (Credit p)) then Err (CreditNotOpen t (Credit p))
    else if negb (IsOpen oa (Debit p)) then Err (DebitNotOpen t (Debit p))
    else Ok (Book am (Credit p) (Debit p) (ast.Amount p) (p_Commodity p)).
Proof. done. Qed.

Lemma forM_bookPosting_Ok oa t am ps :
  is_ok (forM (bookPosting oa t) am ps) = true
  ↔ ∀ p, p ∈ ps → IsOpen oa (Credit p) = true ∧ IsOpen oa (Debit p) = true.
Proof.
  revert am. induction ps as [|p ps IH]; intros am.
  - split; [by intros _ ? ?%elem_of_nil|done].
  - rewrite forM_cons, (bookPosting_unfold oa t am p).
    destruct (IsOpen oa (Credit p)) eqn:Hcr; cbn [negb].
    2:{ split; [done|]. intros Hall. destruct (Hall p) as [? _]; [left|congruence]. }
    destruct (IsOpen oa (Debit p)) eqn:Hdr; cbn [negb].
    2:{ split; [done|]. intros Hall. destruct (Hall p) as [_ ?]; [left|congruence]. }
    simpl. rewrite IH. split.
    + intros Hall q [->|Hin]%elem_of_cons; [done|by apply Hall].
    + intros Hall q Hin. apply Hall. by right.
Qed.

Lemma forM_bookPosting_Err oa t am ps e :
  forM (bookPosting oa t) am ps = Err e →
  ∃ p, p ∈ ps ∧
    (e = CreditNotOpen t (Credit p) ∧ IsOpen oa (Credit p) = false
     ∨ e = DebitNotOpen t (Debit p) ∧ IsOpen oa (Credit p) = true
       ∧ IsOpen oa (Debit p) = false).
Proof.
  revert am. induction ps as [|p ps IH]; intros am; [done|].
  rewrite forM_cons, (bookPosting_unfold oa t am p).
  destruct (IsOpen oa (Credit p)) eqn:Hcr; cbn [negb].
  2:{ intros [= <-]. exists p. split; [left|]. by left. }
  destruct (IsOpen oa (Debit p)) eqn:Hdr; cbn [negb].
  2:{ intros [= <-]. exists p. split; [left|]. by right. }
  simpl. intros (q & Hin & Hq)%IH. exists q. split; [by right|done].
Qed.

(** X7: the transactions of a day are booked exactly when the credit and
    the debit account of every posting are open; where they are not, the
    error carries the transaction and the account of a posting of the day
    whose credit account is not open, or whose debit account is not open
    while its credit account is. *)
Theorem processTransactions_needs_open_accounts oa am d :
  (is_ok (processTransactions oa am d) = true
   ↔ ∀ t p, t ∈ Day.Transactions d → p ∈ Postings t →
       IsOpen oa (Credit p) = true ∧ IsOpen oa (Debit p) = true) ∧
  (∀ e, processTransactions oa am d = Err e →
     ∃ t p, t ∈ Day.Transactions d ∧ p ∈ Postings t ∧
       (e = CreditNotOpen t (Credit p) ∧ IsOpen oa (Credit p) = false
        ∨ e = DebitNotOpen t (Debit p) ∧ IsOpen oa (Credit p) = true
          ∧ IsOpen oa (Debit p) = false)).
Proof.
  unfold processTransactions. generalize (Day.Transactions d). intros ts. revert am.
  induction ts as [|t ts IH]; intros am.
  - split; [|done]. split; [by intros _ ? ? ?%elem_of_nil|done].
  - rewrite forM_cons.
    destruct (forM (bookPosting oa t) am (Postings t)) as [am1|e1] eqn:Ht; simpl.
    + assert (is_ok (forM (bookPosting oa t) am (Postings t)) = true) as Hok
        by (by rewrite Ht).
      rewrite forM_bookPosting_Ok in Hok.
      destruct (IH am1) as [Hiff Herr]. split.
      * rewrite Hiff. split.
        -- intros Hall t' p [->|Hin]%elem_of_cons; [apply Hok|by apply Hall].
        -- intros Hall t' p Hin. apply Hall. by right.
      * intros e (t' & p & Hin & Hp)%Herr. exists t', p. split; [by right|done].
    + split.
      * split; [done|]. intros Hall.
        assert (is_ok (forM (bookPosting oa t) am (Postings t)) = true) as Hok.
        { apply forM_bookPosting_Ok. intros p Hp. apply (Hall t); [left|done]. }
        by rewrite Ht in Hok.
      * intros e [= <-]. apply forM_bookPosting_Err in Ht as (p & Hin & Hp).
        exists t, p. split; [left|done].
Qed.


(** The transactions the Value directives of a day give rise to. *)
Lemma processValues_adjustments pr oa vs am txs r :
  forM (processValue pr oa) (am, txs) vs = Ok r →
  ∃ adj, r.2 = txs ++ adj ∧
    Forall2 (λ v tx, t_Date tx = v_Date v ∧
                     Description tx = valuationDescription (v_Commodity v) (v_Account v) ∧
                     Tags tx = [] ∧ AddOns tx = [] ∧
                     ∃ p, Postings tx = [p] ∧ p_Commodity p = v_Commodity v ∧
                          Targets p = [v_Commodity v])
            vs adj.
Proof.
  revert am txs. induction vs as [|v vs IH]; intros am txs Hrun.
  - inversion Hrun; subst r. exists []. split; [by rewrite app_nil_r|constructor].
  - rewrite forM_cons in Hrun. apply bind_Ok_inv in Hrun as ([am1 txs1] & Hv & Hrun).
    apply IH in Hrun as (adj & -> & Hall). unfold processValue in Hv.
    destruct (IsOpen oa (v_Account v)); cbn [negb] in Hv; [|done].
    inversion Hv; subst am1 txs1. eexists (_ :: adj).
    split; [by rewrite <-app_assoc|]. constructor; [|done]. simpl.
    split_and!; [done..|]. eexists. split; [done|].
    unfold NewPostingWithTargets, NewPosting. by destruct (Decimal.IsNegative _).
Qed.

(** X8: [Process2] hands on as many days as it takes in, each with its
    date and its directives of every other kind untouched and with its
    transactions followed by one transaction for each Value directive of the
    day, in the order of the directives: dated as the directive, described
    "Valuation adjustment for <commodity> in <account>", without tags, with
    a single posting in the commodity of the directive and that commodity as
    its only target. *)
Theorem Process2_appends_one_adjustment_per_Value pr ds r :
  Process2 pr ds = Ok r →
  Forall2 (λ d d',
             directivesOf d' = directivesOf d ∧
             ∃ adj, Day.Transactions d' = Day.Transactions d ++ adj ∧
               Forall2 (λ v tx,
                          t_Date tx = v_Date v ∧
                          Description tx
                          = valuationDescription (v_Commodity v) (v_Account v) ∧
                          Tags tx = [] ∧ AddOns tx = [] ∧
                          ∃ p, Postings tx = [p] ∧ p_Commodity p = v_Commodity v ∧
                               Targets p = [v_Commodity v])
                       (Day.Values d) adj)
          ds r.2.
Proof.
  unfold Process2. generalize ((∅, ∅) : accounts * Amounts). revert r.
  induction ds as [|d ds IH]; intros r st Hrun.
  - inversion Hrun; subst r. constructor.
  - simpl in Hrun. apply bind_Ok_inv in Hrun as (r1 & Hd & Hrun).
    apply bind_Ok_inv in Hrun as (r2 & Hds & Hrun). inversion Hrun; subst r.
    simpl. constructor; [|by eapply IH]. clear IH Hds Hrun.
    unfold processDay in Hd.
    apply bind_Ok_inv in Hd as (oa & _ & Hd).
    apply bind_Ok_inv in Hd as (am & _ & Hd).
    apply bind_Ok_inv in Hd as (rv & Hv & Hd).
    apply bind_Ok_inv in Hd as (u & _ & Hd).
    apply bind_Ok_inv in Hd as (st' & _ & Hd). inversion Hd; subst r1. simpl.
    split; [done|]. apply processValues_adjustments in Hv as (adj & -> & Hall).
    by exists adj.
Qed.

Lemma processOpenings_other oa d oa' a :
  processOpenings oa d = Ok oa' →
  (∀ o, o ∈ Day.Openings d → o_Account o ≠ a) →
  has oa' a = has oa a.
Proof.
  unfold processOpenings. intros Hrun Hother.
  apply (forM_invariant (λ oa', has oa' a = has oa a)) in Hrun; [done| |done].
  intros oa1 o oa2 Ho <-. rewrite Open_unfold.
  destruct (has oa1 (o_Account o)); [done|]. intros [= <-].
  rewrite has_insert, bool_decide_eq_false_2; [by rewrite orb_false_r|].
  intros ->. by apply (Hother o).
Qed.

Lemma processTransactions_Ok_open oa am d am' t p :
  processTransactions oa am d = Ok am' →
  t ∈ Day.Transactions d → p ∈ Postings t →
  IsOpen oa (Credit p) = true ∧ IsOpen oa (Debit p) = true.
Proof.
  intros Hrun Ht Hp.
  destruct (forM_Ok_inv _ _ _ _ _ Hrun Ht) as (am0 & am1 & Hinner).
  destruct (forM_Ok_inv _ _ _ _ _ Hinner Hp) as (am2 & am3 & Hbook).
  rewrite bookPosting_unfold in Hbook.
  destruct (IsOpen oa (Credit p)); cbn [negb] in Hbook; [|done].
  by destruct (IsOpen oa (Debit p)).
Qed.

(** X9: once a day closed an account other than an EQUITY account, the
    account is no longer in the map of open accounts, so that an Open of it
    is accepted again, and a later day that does not open it and holds a
    posting that credits or debits it is not balanced: the run ends with an
    error there. *)
Theorem closed_account_rejects_postings pr st d r c d2 t p :
  processDay pr st d = Ok r →
  c ∈ Day.Closings d →
  Account_Type (c_Account c) ≠ EQUITY →
  (∀ o, o ∈ Day.Openings d2 → o_Account o ≠ c_Account c) →
  t ∈ Day.Transactions d2 → p ∈ Postings t →
  Credit p = c_Account c ∨ Debit p = c_Account c →
  has r.1.1 (c_Account c) = false ∧
  is_ok (Open r.1.1 (c_Account c)) = true ∧
  is_ok (processDay pr r.1 d2) = false.
Proof.
  intros Hday Hc Hty Hnoopen Ht Hp Hside.
  destruct (processDay_gone _ _ _ _ _ Hday Hc) as [[Hgone _] _].
  assert (has r.1.1 (c_Account c) = false) as Hhas by (unfold has; by rewrite Hgone).
  split; [done|]. split; [by rewrite Open_unfold, Hhas|].
  unfold processDay.
  destruct (processOpenings r.1.1 d2) as [oa|] eqn:Ho; [|done]. simpl.
  destruct (processTransactions oa r.1.2 d2) as [am|] eqn:Htx; [|done].
  destruct (processTransactions_Ok_open _ _ _ _ _ _ Htx Ht Hp) as [Hcr Hdr].
  assert (IsOpen oa (c_Account c) = false) as Hclosed.
  { unfold IsOpen. rewrite (processOpenings_other _ _ _ _ Ho Hnoopen), Hhas.
    by rewrite bool_decide_eq_false_2. }
  destruct Hside as [Heq|Heq]; rewrite Heq in *; congruence.
Qed.

(** X10: a posting whose credit account is its debit account changes no
    amount, yet it creates the position: the position is in the map
    afterwards, with the amount it had or with zero, and a balance assertion
    of that amount passes, which on a position that was never booked it
    does not. *)
Theorem self_posting_creates_the_position oa t am a c x targets lot date :
  IsOpen oa a = true →
  ∃ am',
    bookPosting oa t am (mkPosting x a a c targets lot) = Ok am' ∧
    (∀ pos, get am' pos = get am pos) ∧
    am' !! (a, c) = Some (get am (a, c)) ∧
    checkAssertion oa am' () (mkAssertion date a (get am (a, c)) c) = Ok () ∧
    (am !! (a, c) = None →
     is_ok (checkAssertion oa am () (mkAssertion date a (get am (a, c)) c)) = false).
Proof.
  intros Hopen. rewrite bookPosting_unfold. simpl. rewrite Hopen. cbn [negb].
  eexists. split; [done|].
  assert (Book am a a x c !! (a, c) = Some (get am (a, c))) as Hpos.
  { unfold Book. rewrite lookup_insert_eq, get_insert, decide_True by done.
    f_equal. unfold Decimal.Add, Decimal.Sub. ring. }
  split_and!.
  - intros pos. rewrite get_Book. repeat case_decide; ring.
  - done.
  - unfold checkAssertion. simpl. rewrite Hopen, Hpos. cbn [negb].
    unfold Decimal.Equal. by rewrite bool_decide_eq_true_2.
  - intros Hnone. unfold checkAssertion. simpl. by rewrite Hopen, Hnone.
Qed.

End balancer_more.

(** ** What [Balancer.Process] accepts, [Balancer.Process2] accepts *)

Module balancers_facts.

Import ast amounts_facts balancers.

Implicit Types (s : gset Account) (m : gmap Account bool) (am : Amounts).

Lemma agree_IsOpen s m a :
  agree s m → balancer_Process.IsOpen s a = true → balancer.IsOpen m a = true.
Proof.
  intros Hag Hopen. apply balancer_Process_facts.IsOpen_set_membership, Hag in Hopen.
  unfold balancer.IsOpen. by rewrite Hopen.
Qed.

Lemma agree_insert s m a : agree s m → agree ({[a]} ∪ s) (<[a := true]> m).
Proof.
  intros Hag b. rewrite balancer_more.has_insert, elem_of_union, elem_of_singleton.
  rewrite orb_true_iff, bool_decide_eq_true, (Hag b). tauto.
Qed.

Lemma agree_delete s m a : agree s m → agree (s ∖ {[a]}) (delete a m).
Proof.
  intros Hag b. rewrite elem_of_difference, elem_of_singleton, (Hag b).
  unfold balancer.has. destruct (decide (b = a)) as [->|Hne].
  - rewrite lookup_delete_eq. simpl. split; [by intros [_ []]|done].
  - rewrite lookup_delete_ne by done. tauto.
Qed.

Lemma sim_processOpenings s m d s' :
  agree s m →
  balancer_Process.processOpenings s d = Ok s' →
  ∃ m', balancer.processOpenings m d = Ok m' ∧ agree s' m'.
Proof.
  unfold balancer_Process.processOpenings, balancer.processOpenings.
  generalize (Day.Openings d). intros os. revert s m.
  induction os as [|o os IH]; intros s m Hag Hrun.
  - inversion Hrun; subst s'. by exists m.
  - rewrite forM_cons in Hrun. apply bind_Ok_inv in Hrun as (s1 & Ho & Hrun).
    unfold balancer_Process.Open in Ho.
    case_bool_decide as Hin; cbn [snd fst negb] in Ho; [done|].
    inversion Ho; subst s1.
    rewrite forM_cons, balancer_more.Open_unfold.
    assert (balancer.has m (o_Account o) = false) as ->.
    { apply not_true_iff_false. by rewrite <-(Hag _). }
    simpl. eapply IH; [|done]. by apply agree_insert.
Qed.

Lemma sim_bookPostings s m t am ps am' :
  agree s m →
  forM (balancer_Process.bookPosting s t) am ps = Ok am' →
  forM (balancer.bookPosting m t) am ps = Ok am'.
Proof.
  intros Hag. revert am. induction ps as [|p ps IH]; intros am Hrun; [by inversion Hrun|].
  rewrite forM_cons in Hrun. apply bind_Ok_inv in Hrun as (am1 & Hp & Hrun).
  rewrite forM_cons, balancer_more.bookPosting_unfold.
  unfold balancer_Process.bookPosting in Hp.
  destruct (balancer_Process.IsOpen s (Credit p)) eqn:Hcr; cbn [negb] in Hp; [|done].
  destruct (balancer_Process.IsOpen s (Debit p)) eqn:Hdr; cbn [negb] in Hp; [|done].
  rewrite (agree_IsOpen _ _ _ Hag Hcr), (agree_IsOpen _ _ _ Hag Hdr). cbn [negb].
  inversion Hp; subst am1. simpl. by apply IH.
Qed.

Lemma sim_processTransactions s m am d am' :
  agree s m →
  balancer_Process.processTransactions s am d = Ok am' →
  balancer.processTransactions m am d = Ok am'.
Proof.
  intros Hag. unfold balancer_Process.processTransactions, balancer.processTransactions.
  generalize (Day.Transactions d). intros ts. revert am.
  induction ts as [|t ts IH]; intros am Hrun; [by inversion Hrun|].
  rewrite forM_cons in Hrun. apply bind_Ok_inv in Hrun as (am1 & Ht & Hrun).
  rewrite forM_cons, (sim_bookPostings _ _ _ _ _ _ Hag Ht). simpl. by apply IH.
Qed.

Lemma processValue_unfold pr oa am transactions v :
  balancer.processValue pr oa (am, transactions) v
  = if negb (balancer.IsOpen oa (v_Account v))
    then Err (balancer.ValueAccountNotOpen v)
    else
      let valAcc := journal.ValuationAccountFor (balancer.Context pr) (v_Account v) in
      let posting :=
        NewPostingWithTargets valAcc (v_Account v) (v_Commodity v)
          (Decimal.Sub (v_Amount v) (amounts.Amount am (v_Account v) (v_Commodity v)))
          [v_Commodity v] in
      Ok (Book am (Credit posting) (Debit posting) (ast.Amount posting)
               (p_Commodity posting),
          transactions ++ [mkTransaction (v_Date v)
             (balancer.valuationDescription (v_Commodity v) (v_Account v))
             [] [posting] []]).
Proof. done. Qed.

Lemma sim_processValues pr s m vs am txs txs0 r :
  agree s m →
  forM (balancer_Process.processValue pr s) (am, txs) vs = Ok r →
  ∃ adj,
    forM (balancer.processValue (balancer.mkBalancer (balancer_Process.Context pr)) m)
         (am, txs0) vs = Ok (r.1, txs0 ++ adj) ∧
    r.2 = txs ++ adj.
Proof.
  intros Hag. revert am txs txs0. induction vs as [|v vs IH]; intros am txs txs0 Hrun.
  - inversion Hrun; subst r. exists []. by rewrite !app_nil_r.
  - rewrite forM_cons in Hrun. apply bind_Ok_inv in Hrun as ([am1 txs1] & Hv & Hrun).
    unfold balancer_Process.processValue in Hv.
    destruct (balancer_Process.IsOpen s (v_Account v)) eqn:Hopen; cbn [negb] in Hv;
      [|done].
    inversion Hv; subst am1 txs1. clear Hv.
    rewrite forM_cons, processValue_unfold.
    rewrite (agree_IsOpen _ _ _ Hag Hopen). cbn [negb]. cbv zeta.
    match type of Hrun with
    | forM _ (?a, _ ++ [?tx]) _ = _ =>
      destruct (IH a _ (txs0 ++ [tx]) Hrun) as (adj & Hrun2 & Htxs);
      exists (tx :: adj)
    end.
    split.
    + rewrite <-app_assoc in Hrun2. exact Hrun2.
    + by rewrite Htxs, <-app_assoc.
Qed.

Lemma sim_processAssertions s m am asserts :
  agree s m →
  forM (balancer_Process.checkAssertion s am) () asserts = Ok () →
  forM (balancer.checkAssertion m am) () asserts = Ok ().
Proof.
  intros Hag. induction asserts as [|a asserts IH]; intros Hrun; [done|].
  rewrite forM_cons in Hrun. apply bind_Ok_inv in Hrun as ([] & Ha & Hrun).
  rewrite forM_cons.
  assert (balancer.checkAssertion m am () a = Ok ()) as ->; [|by apply IH].
  unfold balancer_Process.checkAssertion in Ha. unfold balancer.checkAssertion.
  destruct (balancer_Process.IsOpen s (as_Account a)) eqn:Hopen; cbn [negb] in Ha;
    [|done].
  rewrite (agree_IsOpen _ _ _ Hag Hopen). cbn [negb].
  unfold AccountCommodityKey in Ha.
  destruct (am !! (as_Account a, as_Commodity a)) as [va|]; [|done].
  by destruct (Decimal.Equal va (as_Amount a)).
Qed.

Lemma sim_closePositions c order am am' :
  forM (balancer_Process.closePosition c) am order = Ok am' →
  forM (balancer.closePosition c) am order = Ok am'.
Proof.
  revert am. induction order as [|[pos amount] order IH]; intros am;
    [by intros [= <-]|].
  rewrite !forM_cons, balancer_facts.closePosition_unfold.
  change (balancer_Process.closePosition c am (pos, amount))
    with (if negb (bool_decide (pos.1 = c_Account c)) then Ok am
          else if negb (Decimal.IsZero amount)
               then Err (balancer_Process.NonzeroClose c amount pos.2)
               else Ok (delete pos am) : result balancer_Process.Error Amounts).
  case_bool_decide; cbn [negb]; [|apply IH].
  destruct (Decimal.IsZero amount); cbn [negb]; [apply IH|done].
Qed.

Lemma processClosing_unfold m am c :
  balancer.processClosing (m, am) c
  = am' ← forM (balancer.closePosition c) am (map_to_list am);
    oa ← balancer.Close m (c_Account c);
    Ok (oa, am').
Proof. done. Qed.

Lemma sim_processClosings cs s m am st' :
  agree s m →
  forM balancer_Process.processClosing (s, am) cs = Ok st' →
  ∃ m', forM balancer.processClosing (m, am) cs = Ok (m', st'.2) ∧ agree st'.1 m'.
Proof.
  revert s m am. induction cs as [|c cs IH]; intros s m am Hag Hrun.
  - inversion Hrun; subst st'. by exists m.
  - rewrite forM_cons in Hrun. apply bind_Ok_inv in Hrun as ([s1 am1] & Hc & Hrun).
    unfold balancer_Process.processClosing, balancer_Process.processClosingIn in Hc.
    apply bind_Ok_inv in Hc as (am2 & Hloop & Hc). cbn [fst snd] in *.
    unfold balancer_Process.Close in Hc.
    case_bool_decide as Hin; cbn [negb fst snd] in Hc; [|done].
    inversion Hc; subst s1 am2. clear Hc.
    rewrite forM_cons, processClosing_unfold.
    rewrite (sim_closePositions _ _ _ _ Hloop). simpl.
    unfold balancer.Close. rewrite (proj1 (Hag _) Hin). cbn [negb]. simpl.
    eapply IH; [|done]. by apply agree_delete.
Qed.

Lemma sim_processDay pr s m am d r :
  agree s m →
  balancer_Process.processDay pr (s, am) d = Ok r →
  ∃ r2,
    balancer.processDay (balancer.mkBalancer (balancer_Process.Context pr)) (m, am) d
    = Ok r2 ∧
    agree r.1.1 r2.1.1 ∧ r2.1.2 = r.1.2 ∧
    directivesOf r.2 = directivesOf r2.2 ∧
    Day.Amounts r.2 = Day.Amounts r2.2 ∧
    Day.Transactions r.2
    = balancer_Process.sortTransactions pr (Day.Transactions r2.2).
Proof.
  intros Hag Hrun. unfold balancer_Process.processDay in Hrun. cbn [fst snd] in Hrun.
  apply bind_Ok_inv in Hrun as (s1 & Ho & Hrun).
  apply bind_Ok_inv in Hrun as (am1 & Ht & Hrun).
  apply bind_Ok_inv in Hrun as (rv & Hv & Hrun).
  apply bind_Ok_inv in Hrun as ([] & Ha & Hrun).
  apply bind_Ok_inv in Hrun as (st' & Hc & Hrun). inversion Hrun; subst r. clear Hrun.
  destruct (sim_processOpenings _ _ _ _ Hag Ho) as (m1 & Ho2 & Hag1).
  pose proof (sim_processTransactions _ _ _ _ _ Hag1 Ht) as Ht2.
  unfold balancer_Process.processValues in Hv.
  apply bind_Ok_inv in Hv as (rv0 & Hv & Hrv). inversion Hrv; subst rv. clear Hrv.
  cbn [fst snd] in *.
  destruct (sim_processValues _ _ _ _ _ _ [] _ Hag1 Hv) as (adj & Hv2 & Hadj).
  unfold balancer_Process.processAssertions in Ha. cbn [Day.with_Transactions
    Day.Assertions] in Ha.
  pose proof (sim_processAssertions _ _ _ _ Hag1 Ha) as Ha2.
  unfold balancer_Process.processClosings in Hc. cbn [Day.with_Transactions
    Day.Closings] in Hc.
  destruct (sim_processClosings _ _ _ _ _ Hag1 Hc) as (m2 & Hc2 & Hag2).
  eexists. unfold balancer.processDay. cbn [fst snd].
  rewrite Ho2. simpl. rewrite Ht2. simpl.
  unfold balancer.processValues. rewrite Hv2. simpl.
  unfold balancer.processAssertions. rewrite Ha2. simpl.
  unfold balancer.processClosings. rewrite Hc2. simpl.
  split; [done|]. simpl. split_and!; [done..|]. by rewrite Hadj.
Qed.

(** X11: [Balancer.Process2] accepts every run of days that
    [Balancer.Process] accepts and computes the same books: the same
    accounts are open at the end, the positions are the same, and day by day
    the directives and the snapshot of the positions agree, while the
    transactions [Process] hands on are those of [Process2], sorted. *)
Theorem Process2_accepts_what_Process_accepts pr ds r :
  balancer_Process.Process pr ds = Ok r →
  ∃ r2,
    balancer.Process2 (balancer.mkBalancer (balancer_Process.Context pr)) ds = Ok r2 ∧
    agree r.1.1 r2.1.1 ∧ r2.1.2 = r.1.2 ∧
    Forall2 (λ d1 d2,
               directivesOf d1 = directivesOf d2 ∧
               Day.Amounts d1 = Day.Amounts d2 ∧
               Day.Transactions d1
               = balancer_Process.sortTransactions pr (Day.Transactions d2))
            r.2 r2.2.
Proof.
  unfold balancer_Process.Process, balancer.Process2.
  assert (agree ∅ ∅) as Hag by (intros a; by rewrite elem_of_empty).
  revert Hag. generalize (∅ : gset Account) (∅ : gmap Account bool) (∅ : Amounts).
  revert r. induction ds as [|d ds IH]; intros r s m am Hag Hrun.
  - inversion Hrun; subst r. eexists. split; [done|]. simpl.
    split_and!; [done..|constructor].
  - simpl in Hrun. apply bind_Ok_inv in Hrun as ([[s1 am1] d1] & Hd & Hrun).
    apply bind_Ok_inv in Hrun as (r' & Hds & Hrun). inversion Hrun; subst r.
    clear Hrun. cbn [fst snd] in *.
    destruct (sim_processDay _ _ _ _ _ _ Hag Hd)
      as ([[m1 am1'] d2] & Hd2 & Hag1 & Ham & Hdir & Hsnap & Htx).
    cbn [fst snd] in *. subst am1'.
    destruct (IH _ _ _ _ Hag1 Hds) as (r2' & Hds2 & Hag2 & Ham2 & Hall).
    eexists. simpl. rewrite Hd2. simpl. rewrite Hds2. simpl.
    split; [done|]. simpl. split_and!; [done..|]. by constructor.
Qed.

End balancers_facts.

(** ** More on [journal.Balance] *)

Module process_more.

Import process amounts_facts process_facts.

Implicit Types (values am : Amounts) (order : list ((Account * Commodity) * Qc)).

(** After the gains of a day are booked, every position the loop visited
    for an asset or liability account, in a commodity other than the
    valuation commodity, is valued at the price of the day. *)
Lemma valuateGainsIn_market env v values d order r :
  NoDup order.*1 →
  valuation_apart env order →
  valuateGainsIn order env v values d = Ok r →
  Normalized r.2 = Normalized d ∧
  ∀ a k amt, ((a, k), amt) ∈ order → ast.isAL a = true → k ≠ v →
    Valuate (Normalized d) k amt = Some (get r.1 (a, k)).
Proof.
  intros Hnodup Hval Hrun. unfold valuateGainsIn in Hrun.
  apply bind_Ok_inv in Hrun as (st' & Hloop & Hrun). inversion Hrun; subst r.
  split; [done|]. cbn [fst snd].
  rewrite (valuateGain_refines _ _ _ _ values) in Hloop by done.
  apply specGain_run in Hloop as (_ & _ & Hin & _ & _ & Hok); [|done..].
  intros a k amt He Hal Hk.
  destruct (gainOf_ok_eligible v (Normalized d) values a k amt Hk Hal (Hok _ He))
    as [value Hvalue].
  pose proof (Hin _ He Hal) as Hget. cbn [fst snd] in Hget.
  rewrite Hget, Hvalue. f_equal.
  unfold gainAt. rewrite (gainOf_eligible _ _ _ _ _ _ _ Hk Hal Hvalue).
  destruct (Decimal.IsZero _) eqn:Hz.
  - apply IsZero_true in Hz. unfold Decimal.Sub in Hz.
    assert (value = get values (a, k)) as ->; [|ring].
    rewrite <-(Qcplus_0_l (get values (a, k))), <-Hz. ring.
  - unfold Decimal.Sub. ring.
Qed.

Lemma processClosings_subseteq accounts am d cl :
  processClosings accounts am d = Ok cl → cl.2 ⊆ am.
Proof.
  unfold processClosings. intros Hrun.
  apply (forM_invariant (λ st, st.2 ⊆ am)) in Hrun; [done| |done].
  intros st c st' _ Hsub (_ & -> & _)%process_balance_facts.processClosing_clears.
  cbn [snd]. etrans; [apply map_filter_subseteq|done].
Qed.

Lemma valuateTransactions_Normalized v values d r :
  valuateTransactions v values d = Ok r → Normalized r.2 = Normalized d.
Proof.
  unfold valuateTransactions. intros Hrun.
  apply bind_Ok_inv in Hrun as (r' & _ & Hrun). by inversion Hrun.
Qed.

Lemma processValues_Normalized env accounts am d r :
  processValues env accounts am d = Ok r → Normalized r.2 = Normalized d.
Proof.
  unfold processValues. intros Hrun.
  apply bind_Ok_inv in Hrun as (r' & _ & Hrun). by inversion Hrun.
Qed.

(** X12: the valuation invariant of a day. When [journal.Balance] has
    processed a day with a valuation commodity, every position of an asset
    or liability account that is left in the amounts, in a commodity other
    than the valuation commodity, has the value of its amount at the
    normalised price of the day: the postings of the day were valued and
    booked, and the gain transactions made up the difference. Valuation
    accounts are not asset or liability accounts. *)
Theorem Balance_values_positions_at_the_price_of_the_day env v st d r :
  (∀ a, ast.isAL a = true →
        ast.isAL (journal.ValuationAccountFor (jctx env) a) = false) →
  Balance env (Some v) st d = Ok r →
  ∀ a k amt,
    st_amounts r.1 !! (a, k) = Some amt → ast.isAL a = true → k ≠ v →
    Valuate (Normalized d) k amt = Some (get (st_values r.1) (a, k)).
Proof.
  intros Hapart Hrun a k amt Hpos Hal Hk. unfold Balance in Hrun.
  apply bind_Ok_inv in Hrun as (accounts & _ & Hrun).
  apply bind_Ok_inv in Hrun as (am & _ & Hrun).
  apply bind_Ok_inv in Hrun as (rv & Hv & Hrun).
  apply bind_Ok_inv in Hrun as (u & _ & Hrun).
  apply bind_Ok_inv in Hrun as (r2 & Hval & Hrun).
  apply bind_Ok_inv in Hrun as (cl & Hcl & Hrun).
  inversion Hrun; subst r. cbn [fst snd st_amounts st_values] in *. clear Hrun.
  apply bind_Ok_inv in Hval as (r1 & Hvt & Hgains).
  apply processClosings_subseteq in Hcl.
  pose proof (lookup_weaken _ _ _ _ Hpos Hcl) as Hbefore.
  unfold valuateGains in Hgains.
  apply valuateGainsIn_market in Hgains as [_ Hmarket].
  - rewrite <-(processValues_Normalized _ _ _ _ _ Hv).
    rewrite <-(valuateTransactions_Normalized _ _ _ _ Hvt).
    apply Hmarket; [|done..]. by apply elem_of_map_to_list.
  - apply NoDup_fst_map_to_list.
  - intros e _. apply Hapart.
Qed.

End process_more.

(** ** The valuation of the postings of a day *)

Module process_values_facts.

Import process process_values amounts_facts process_facts.

Implicit Types (values : Amounts) (p : Posting) (ps : list Posting).

Lemma bookedValue_nil pos : bookedValue [] pos = 0%Qc.
Proof. done. Qed.

Lemma bookedValue_cons p ps pos :
  bookedValue (p :: ps) pos
  = ((if bool_decide (ast.isAL (Account_ p) = true ∧ (Account_ p, p_Commodity p) = pos)
      then Value p else 0) + bookedValue ps pos)%Qc.
Proof.
  unfold bookedValue. rewrite filter_cons. case_decide as Hp.
  - rewrite bool_decide_eq_true_2 by done. done.
  - rewrite bool_decide_eq_false_2 by done. ring.
Qed.

Lemma bookedValue_app ps ps' pos :
  bookedValue (ps ++ ps') pos = (bookedValue ps pos + bookedValue ps' pos)%Qc.
Proof.
  induction ps as [|p ps IH]; [rewrite bookedValue_nil; simpl; ring|].
  rewrite <-app_comm_cons, !bookedValue_cons, IH. ring.
Qed.

Lemma valuatePosting_Ok v normalized values p r :
  valuatePosting v normalized values p = Ok r →
  ∃ value,
    valueOf v normalized p = Some value ∧
    r.2 = with_Value p value ∧
    ∀ pos, get r.1 pos = (get values pos + bookedValue [r.2] pos)%Qc.
Proof.
  unfold valuatePosting, valueOf.
  rewrite (bool_decide_ext (v = p_Commodity p) (p_Commodity p = v)) by (split; congruence).
  case_bool_decide as Hv; cbn [negb].
  - simpl. intros Hrun. exists (Amount p). split; [done|].
    destruct (ast.isAL (Account_ p)) eqn:Hal; inversion Hrun; subst r; clear Hrun;
      (split; [done|]); intros pos; rewrite bookedValue_cons, bookedValue_nil;
      cbn [fst snd with_Value Account_ p_Commodity Value].
    + rewrite get_Add. unfold AccountCommodityKey.
      case_decide as Hpos.
      * rewrite bool_decide_eq_true_2 by done. subst pos. ring.
      * rewrite bool_decide_eq_false_2 by (intros [_ ?]; done). ring.
    + rewrite bool_decide_eq_false_2 by (intros [? _]; congruence). ring.
  - destruct (Valuate normalized (p_Commodity p) (Amount p)) as [value|]; [|done].
    simpl. intros Hrun. exists value. split; [done|].
    destruct (ast.isAL (Account_ p)) eqn:Hal; inversion Hrun; subst r; clear Hrun;
      (split; [done|]); intros pos; rewrite bookedValue_cons, bookedValue_nil;
      cbn [fst snd with_Value Account_ p_Commodity Value].
    + rewrite get_Add. unfold AccountCommodityKey.
      case_decide as Hpos.
      * rewrite bool_decide_eq_true_2 by done. subst pos. ring.
      * rewrite bool_decide_eq_false_2 by (intros [_ ?]; done). ring.
    + rewrite bool_decide_eq_false_2 by (intros [? _]; congruence). ring.
Qed.

Lemma valuatePosting_is_ok v normalized values p :
  is_ok (valuatePosting v normalized values p) = true ↔ priced v normalized p.
Proof.
  unfold valuatePosting, priced, Valuate.
  rewrite (bool_decide_ext (v = p_Commodity p) (p_Commodity p = v)) by (split; congruence).
  case_bool_decide as Hv; cbn [negb].
  - simpl. destruct (ast.isAL _); split; (done || by left).
  - destruct (normalized !! p_Commodity p) as [price|] eqn:Hprice; simpl.
    + destruct (ast.isAL _); split; (done || by right).
    + split; [done|]. intros [?|[? ?]]; done.
Qed.


Lemma mapM_cons {E S X} (body : S → X → result E (S * X)) s x xs :
  mapM body s (x :: xs)
  = r ← body s x; r' ← mapM body r.1 xs; Ok (r'.1, r.2 :: r'.2).
Proof. done. Qed.

Lemma valuatePostings_Ok v normalized ps values r :
  mapM (valuatePosting v normalized) values ps = Ok r →
  Forall2 (λ p p', ∃ value, valueOf v normalized p = Some value
                            ∧ p' = with_Value p value) ps r.2 ∧
  ∀ pos, get r.1 pos = (get values pos + bookedValue r.2 pos)%Qc.
Proof.
  revert values r. induction ps as [|p ps IH]; intros values r Hrun.
  - inversion Hrun; subst r. split; [constructor|].
    intros pos. rewrite bookedValue_nil. simpl. ring.
  - rewrite mapM_cons in Hrun. apply bind_Ok_inv in Hrun as (r1 & Hp & Hrun).
    apply bind_Ok_inv in Hrun as (r2 & Hps & Hrun). inversion Hrun; subst r.
    clear Hrun. apply valuatePosting_Ok in Hp as (value & Hvalue & Hp' & Hget).
    apply IH in Hps as [Hall Hget']. cbn [fst snd]. split.
    + constructor; [by exists value|done].
    + intros pos. rewrite Hget', Hget.
      rewrite (bookedValue_app [r1.2] r2.2). ring.
Qed.

Lemma valuatePostings_is_ok v normalized ps values :
  is_ok (mapM (valuatePosting v normalized) values ps) = true
  ↔ ∀ p, p ∈ ps → priced v normalized p.
Proof.
  revert values. induction ps as [|p ps IH]; intros values.
  - split; [by intros _ ? ?%elem_of_nil|done].
  - rewrite mapM_cons.
    destruct (valuatePosting v normalized values p) as [r1|e] eqn:Hp; simpl.
    + assert (priced v normalized p) as Hpriced
        by (apply (valuatePosting_is_ok v normalized values); by rewrite Hp).
      specialize (IH r1.1).
      destruct (mapM (valuatePosting v normalized) r1.1 ps) as [r2|e2]; simpl.
      * split; [|done]. intros _ q [->|Hin]%elem_of_cons; [done|].
        by apply IH.
      * split; [done|]. intros Hall. apply IH. intros q Hq. apply Hall. by right.
    + split; [done|]. intros Hall.
      assert (is_ok (valuatePosting v normalized values p) = true) as Hok
        by (apply valuatePosting_is_ok, Hall; left).
      by rewrite Hp in Hok.
Qed.

Lemma valuateAll_is_ok v normalized ts values :
  is_ok (mapM (λ values t,
                 r ← mapM (valuatePosting v normalized) values (Postings t);
                 Ok (r.1, mkTransaction (t_Date t) (Description t) r.2))
              values ts) = true
  ↔ ∀ t p, t ∈ ts → p ∈ Postings t → priced v normalized p.
Proof.
  revert values. induction ts as [|t ts IH]; intros values.
  - split; [by intros _ ? ? ?%elem_of_nil|done].
  - rewrite mapM_cons. cbv beta.
    destruct (mapM (valuatePosting v normalized) values (Postings t))
      as [r1|e] eqn:Ht; cbn [mbind result_bind fst snd].
    + assert (∀ p, p ∈ Postings t → priced v normalized p) as Hpriced
        by (apply (valuatePostings_is_ok v _ _ values); by rewrite Ht).
      specialize (IH r1.1).
      destruct (mapM _ r1.1 ts) as [r2|e2]; simpl in *.
      * split; [|done]. intros _ t' p [->|Hin]%elem_of_cons; [by apply Hpriced|].
        by apply IH.
      * split; [done|]. intros Hall. apply IH. intros t' p Hin.
        apply Hall. by right.
    + split; [done|]. intros Hall.
      assert (is_ok (mapM (valuatePosting v normalized) values (Postings t)) = true)
        as Hok by (apply valuatePostings_is_ok; intros p Hp; apply (Hall t); [left|done]).
      by rewrite Ht in Hok.
Qed.

Lemma valuateAll_Ok v normalized ts values r :
  mapM (λ values t,
          r ← mapM (valuatePosting v normalized) values (Postings t);
          Ok (r.1, mkTransaction (t_Date t) (Description t) r.2))
       values ts = Ok r →
  Forall2 (λ t t',
             t_Date t' = t_Date t ∧ Description t' = Description t ∧
             Forall2 (λ p p', ∃ value, valueOf v normalized p = Some value
                                       ∧ p' = with_Value p value)
                     (Postings t) (Postings t'))
          ts r.2 ∧
  ∀ pos, get r.1 pos = (get values pos + bookedValue (allPostings r.2) pos)%Qc.
Proof.
  revert values r. induction ts as [|t ts IH]; intros values r Hrun.
  - inversion Hrun; subst r. split; [constructor|].
    intros pos. simpl. rewrite bookedValue_nil. ring.
  - rewrite mapM_cons in Hrun. apply bind_Ok_inv in Hrun as (r1 & Ht & Hrun).
    apply bind_Ok_inv in Hrun as (r2 & Hts & Hrun). inversion Hrun; subst r.
    clear Hrun. cbv beta in Ht.
    apply bind_Ok_inv in Ht as (rp & Hps & Ht). inversion Ht; subst r1. clear Ht.
    apply valuatePostings_Ok in Hps as [Hall Hget].
    apply IH in Hts as [Hall' Hget']. cbn [fst snd] in *. split.
    + constructor; [|done]. by split_and!.
    + intros pos. rewrite Hget', Hget. unfold allPostings.
      rewrite bind_cons, bookedValue_app. cbn [Postings]. ring.
Qed.

(** X13: with a valuation commodity, the postings of a day are valued
    exactly when each of them is in the valuation commodity or in a
    commodity with a normalised price. Then every transaction keeps its
    date, its description and its postings, each posting keeps everything but
    its value, which becomes its amount where the posting is in the
    valuation commodity and its amount times the price of its commodity
    elsewhere, and every position of the values grows by the values of the
    postings of asset and liability accounts at that position. *)
Theorem valuateTransactions_values_every_posting v values d :
  (is_ok (valuateTransactions v values d) = true
   ↔ ∀ t p, t ∈ Transactions d → p ∈ Postings t → priced v (Normalized d) p) ∧
  ∀ r, valuateTransactions v values d = Ok r →
    Forall2 (λ t t',
               t_Date t' = t_Date t ∧ Description t' = Description t ∧
               Forall2 (λ p p', ∃ value, valueOf v (Normalized d) p = Some value
                                         ∧ p' = with_Value p value)
                       (Postings t) (Postings t'))
            (Transactions d) (Transactions r.2) ∧
    ∀ pos, get r.1 pos
           = (get values pos + bookedValue (allPostings (Transactions r.2)) pos)%Qc.
Proof.
  unfold valuateTransactions. split.
  - rewrite <-(valuateAll_is_ok v (Normalized d) (Transactions d) values).
    by destruct (mapM _ values (Transactions d)).
  - intros r Hrun. apply bind_Ok_inv in Hrun as (r0 & Hrun & Hr).
    inversion Hr; subst r. clear Hr. cbn [fst snd with_Transactions Transactions].
    by apply valuateAll_Ok.
Qed.

End process_values_facts.

(** ** More on the valuator of [process/valuator.go] *)

Module valuator_more.

Import ast valuator valuator_stream amounts_facts.

Implicit Types (values : Amounts) (order : list ((Account * Commodity) * Qc))
  (st : list Transaction * Amounts).

Lemma computeValuation_total k pr v date prices st e st' :
  computeValuation pr v date prices st e = Some st' → total k st'.2 = total k st.2.
Proof.
  destruct e as [pos va]. unfold computeValuation.
  case_bool_decide; [by intros [= <-]|].
  destruct (_ && _); [by intros [= <-]|].
  destruct (process.Valuate prices pos.2 va) as [value|]; [|done].
  destruct (Decimal.IsZero _); [by intros [= <-]|].
  destruct (ValuationAccountFor pr pos.1) as [valAcc|]; [|done].
  intros [= <-]. apply total_Book.
Qed.

Lemma foldl_option_None {A B} (f : A → B → option A) (l : list B) :
  foldl (λ acc e, acc ≫= λ acc, f acc e) None l = None.
Proof. by induction l. Qed.

Lemma foldl_option_invariant {A B} (P : A → Prop) (f : A → B → option A)
    (l : list B) (a a' : A) :
  (∀ a e a', e ∈ l → P a → f a e = Some a' → P a') →
  P a → foldl (λ acc e, acc ≫= λ acc, f acc e) (Some a) l = Some a' → P a'.
Proof.
  revert a. induction l as [|e l IH]; intros a Hstep Ha Hrun.
  - by inversion Hrun; subst.
  - simpl in Hrun. destruct (f a e) as [a1|] eqn:He.
    + apply (IH a1); [|by eapply Hstep; [left|..]|done].
      intros ? ? ? ?. apply Hstep. by right.
    + by rewrite foldl_option_None in Hrun.
Qed.

Lemma computeValuationTransactionsIn_total k order pr day day' :
  computeValuationTransactionsIn order pr day = Some day' →
  total k (Values day') = total k (Values day).
Proof.
  unfold computeValuationTransactionsIn.
  destruct (Valuation pr) as [v|]; [|by intros [= <-]].
  destruct (foldl _ _ order) as [st'|] eqn:Hrun; [|done].
  intros [= <-]. cbn [with_state Values].
  apply (foldl_option_invariant (λ st, total k st.2 = total k (Values day))) in Hrun;
    [done| |done].
  intros st e st1 _ <-. apply computeValuation_total.
Qed.

Section stream.
Context (onError : Commodity → Qc → Qc).

Lemma valuateAndBookPosting_total k pr prices s posting :
  total k (valuateAndBookPosting onError pr prices s posting).1.1 = total k s.1.
Proof.
  unfold valuateAndBookPosting.
  destruct (Valuation pr) as [v|]; [destruct (negb _)|]; cbn [fst snd];
    apply total_Book.
Qed.

Lemma mapAccum_invariant {S X} (P : S → Prop) (body : S → X → S * X) s xs :
  (∀ s x, P s → P (body s x).1) → P s → P (mapAccum body s xs).1.
Proof.
  intros Hbody Hs. unfold mapAccum.
  enough (∀ acc, P acc.1 →
            P (foldl (λ acc x, let r := body acc.1 x in (r.1, acc.2 ++ [r.2]))
                     acc xs).1) as H by (by apply (H (s, []))).
  induction xs as [|x xs IH]; intros acc Hacc; [done|].
  simpl. apply IH. simpl. by apply Hbody.
Qed.

Lemma valuateAndBookTransaction_total k pr day t :
  total k (Values (valuateAndBookTransaction onError pr day t).1)
  = total k (Values day).
Proof.
  unfold valuateAndBookTransaction. cbn [fst Values].
  apply (mapAccum_invariant (λ s, total k s.1 = total k (Values day))); [|done].
  intros s x <-. apply valuateAndBookPosting_total.
Qed.

Lemma stream_processDay_total k pr values day r :
  processDay onError pr values day = Some r →
  total k (Values r.1) = total k values.
Proof.
  unfold processDay. intros Hrun.
  apply bind_Some in Hrun as (day' & Hcomp & Hr). inversion Hr; subst r. clear Hr.
  cbn [fst]. unfold computeValuationTransactions in Hcomp.
  rewrite (computeValuationTransactionsIn_total k _ _ _ _ Hcomp).
  set (day0 := mkDay _ _ _ values _).
  enough (∀ ts acc, total k (Values acc.1) = total k values →
            total k (Values (foldl (λ acc t,
                       let r := valuateAndBookTransaction onError pr acc.1 t in
                       (r.1, acc.2 ++ r.2)) acc ts).1) = total k values) as H
    by (by apply (H _ (day0, []))).
  clear. induction ts as [|t ts IH]; intros acc Hacc; [done|].
  cbn [foldl]. apply IH. cbv zeta. cbn [fst].
  by rewrite valuateAndBookTransaction_total.
Qed.

(** X14: the valuator keeps the values balanced. In every day it sends
    on, whatever the prices and whether or not a price was missing, the
    values of each commodity sum to zero over all positions: it books every
    posting and every adjustment from one account to another. *)
Theorem ProcessStream_keeps_values_balanced pr days r :
  ProcessStream onError pr days = Some r →
  length r.1 = length days ∧
  ∀ day k, day ∈ r.1 → total k (Values day) = 0%Qc.
Proof.
  unfold ProcessStream.
  enough (∀ values, (∀ k, total k values = 0%Qc) →
            run onError pr values days = Some r →
            length r.1 = length days ∧
            ∀ day k, day ∈ r.1 → total k (Values day) = 0%Qc) as Hgen
    by (apply Hgen; intros k; apply total_empty).
  revert r. induction days as [|day days IH]; intros r values Hstart Hrun.
  - inversion Hrun; subst r. split; [done|]. by intros ? ? ?%elem_of_nil.
  - simpl in Hrun. apply bind_Some in Hrun as (r1 & Hday & Hrun).
    apply bind_Some in Hrun as (r2 & Hrest & Hr). inversion Hr; subst r. clear Hr.
    cbn [fst snd].
    assert (∀ k, total k (Values r1.1) = 0%Qc) as Hnext.
    { intros k. rewrite (stream_processDay_total k _ _ _ _ Hday). apply Hstart. }
    apply IH in Hrest as [Hlen Hall]; [|done]. split; [simpl; by rewrite Hlen|].
    intros day' k [->|Hin]%elem_of_cons; [apply Hnext|by apply Hall].
Qed.

End stream.

(** One position of the loop of [computeValuationTransactions]: an
    eligible position is left at the value of its amount, and no other
    position of an asset or liability account moves. *)
Lemma computeValuation_step pr v date prices st e st' :
  valuation_apart pr →
  computeValuation pr v date prices st e = Some st' →
  (isAL e.1.1 = true → e.1.2 ≠ v →
   process.Valuate prices e.1.2 e.2 = Some (get st'.2 e.1)) ∧
  (∀ pos, isAL pos.1 = true → pos ≠ e.1 → get st'.2 pos = get st.2 pos).
Proof.
  intros Hapart. destruct e as [[a k] va]. unfold computeValuation. cbn [fst snd].
  case_bool_decide as Hk; [by intros [= <-]|].
  destruct (negb (bool_decide (Account_Type a = ASSETS))
            && negb (bool_decide (Account_Type a = LIABILITIES))) eqn:Hal.
  { intros [= <-]. split; [|done]. intros Hal'. unfold isAL in Hal'.
    by destruct (bool_decide _), (bool_decide _). }
  assert (isAL a = true) as Hal'.
  { unfold isAL. by destruct (bool_decide _), (bool_decide _). }
  destruct (process.Valuate prices k va) as [value|]; [|done].
  destruct (Decimal.IsZero _) eqn:Hz.
  - intros [= <-]. split; [|done]. intros _ _. f_equal.
    apply IsZero_true in Hz. unfold Decimal.Sub in Hz.
    rewrite <-(Qcplus_0_l (get st.2 (a, k))), <-Hz. ring.
  - destruct (ValuationAccountFor pr a) as [valAcc|] eqn:Hacc; [|done].
    intros [= <-]. cbn [snd]. pose proof (Hapart _ _ Hal' Hacc) as Hval.
    assert (valAcc ≠ a) as Hne by (intros ->; congruence).
    split.
    + intros _ _. f_equal. rewrite balancer_facts.get_Book.
      rewrite decide_False, decide_True by congruence. unfold Decimal.Sub. ring.
    + intros pos Hpos Hne'. rewrite balancer_facts.get_Book.
      rewrite decide_False by (intros ->; simpl in Hpos; congruence).
      rewrite decide_False by done. ring.
Qed.

Lemma computeValuation_run pr v date prices order st st' :
  valuation_apart pr →
  NoDup order.*1 →
  foldl (λ acc e, acc ≫= λ acc, computeValuation pr v date prices acc e) (Some st) order
  = Some st' →
  (∀ e, e ∈ order → isAL e.1.1 = true → e.1.2 ≠ v →
        process.Valuate prices e.1.2 e.2 = Some (get st'.2 e.1)) ∧
  (∀ pos, isAL pos.1 = true → pos ∉ order.*1 → get st'.2 pos = get st.2 pos).
Proof.
  intros Hapart. revert st. induction order as [|e order IH]; intros st Hnodup Hrun.
  - inversion Hrun; subst st'. split; [by intros ? ?%elem_of_nil|done].
  - simpl in Hrun. rewrite fmap_cons in Hnodup.
    apply NoDup_cons in Hnodup as [Hfresh Hnodup].
    destruct (computeValuation pr v date prices st e) as [st1|] eqn:He;
      [|by rewrite foldl_option_None in Hrun].
    apply computeValuation_step in He as [Hhere Hothers]; [|done].
    apply IH in Hrun as [Hin Hout]; [|done]. split.
    + intros e' [->|He']%elem_of_cons Hal Hk; [|by apply Hin].
      rewrite (Hout _ Hal Hfresh). by apply Hhere.
    + intros pos Hal Hnotin. rewrite fmap_cons in Hnotin.
      apply not_elem_of_cons in Hnotin as [Hne Hnotin].
      rewrite (Hout _ Hal Hnotin). by apply Hothers.
Qed.

(** X15: after [computeValuationTransactions], in whatever order it
    visited the amounts of the day, every position of an asset or liability
    account in a commodity other than the valuation commodity is valued at
    the price of the day: the value of the position is its amount times the
    price. Positions of such accounts that are not among the amounts of the
    day keep their value. The valuation account of an asset or liability
    account is an account of another kind. *)
Theorem computeValuationTransactions_values_at_the_price pr day order day' v :
  valuation_apart pr →
  Valuation pr = Some v →
  order ≡ₚ map_to_list (Day.Amounts (Day_ day)) →
  computeValuationTransactionsIn order pr day = Some day' →
  (∀ a k amt, Day.Amounts (Day_ day) !! (a, k) = Some amt → isAL a = true → k ≠ v →
     process.Valuate (Prices day) k amt = Some (get (Values day') (a, k))) ∧
  (∀ a k, Day.Amounts (Day_ day) !! (a, k) = None → isAL a = true →
     get (Values day') (a, k) = get (Values day) (a, k)).
Proof.
  intros Hapart Hv Hperm Hrun. unfold computeValuationTransactionsIn in Hrun.
  rewrite Hv in Hrun.
  destruct (foldl _ _ order) as [st'|] eqn:Hloop; [|done].
  inversion Hrun; subst day'. clear Hrun. cbn [with_state Values].
  apply computeValuation_run in Hloop as [Hin Hout];
    [|done|rewrite Hperm; apply NoDup_fst_map_to_list].
  split.
  - intros a k amt Hpos Hal Hk. apply (Hin ((a, k), amt)); [|done..].
    rewrite Hperm. by apply elem_of_map_to_list.
  - intros a k Hnone Hal. apply Hout; [done|].
    rewrite Hperm. intros ([pos amt] & Heq & Hin')%list_elem_of_fmap.
    simpl in Heq. subst pos. apply elem_of_map_to_list in Hin'. congruence.
Qed.

End valuator_more.

(** ** The journal: dates, days and what the filter keeps *)

Module journal_facts.

Import ast astbuilder journal_Journal astbuilder_kept astbuilder_facts.

Implicit Types (days : gmap Z Day.t) (date : Time) (ds : list Directive).

Lemma keyed_empty : keyed ∅.
Proof. intros k d. by rewrite lookup_empty. Qed.

Lemma keyed_AST_Day days k : keyed days → Day.Date (AST_Day days k) = k.
Proof.
  intros Hk. unfold AST_Day. destruct (days !! k) as [d|] eqn:Hd; simpl; [|done].
  by apply Hk.
Qed.

Lemma keyed_insert days k d : keyed days → Day.Date d = k → keyed (<[k := d]> days).
Proof.
  intros Hk Hd k' d'. destruct (decide (k = k')) as [->|Hne].
  - rewrite lookup_insert_eq. by intros [= <-].
  - rewrite lookup_insert_ne by done. apply Hk.
Qed.

Lemma keyed_AddOpen days o : keyed days → keyed (astbuilder.AddOpen days o).
Proof. intros Hk. apply keyed_insert; [done|]. simpl. by apply keyed_AST_Day. Qed.

Lemma keyed_AddPrice days p : keyed days → keyed (astbuilder.AddPrice days p).
Proof. intros Hk. apply keyed_insert; [done|]. simpl. by apply keyed_AST_Day. Qed.

Lemma keyed_AddTransaction days t : keyed days → keyed (astbuilder.AddTransaction days t).
Proof. intros Hk. apply keyed_insert; [done|]. simpl. by apply keyed_AST_Day. Qed.

Lemma keyed_AddValue days v : keyed days → keyed (astbuilder.AddValue days v).
Proof. intros Hk. apply keyed_insert; [done|]. simpl. by apply keyed_AST_Day. Qed.

Lemma keyed_AddAssertion days a : keyed days → keyed (astbuilder.AddAssertion days a).
Proof. intros Hk. apply keyed_insert; [done|]. simpl. by apply keyed_AST_Day. Qed.

Lemma keyed_AddClose days c : keyed days → keyed (astbuilder.AddClose days c).
Proof. intros Hk. apply keyed_insert; [done|]. simpl. by apply keyed_AST_Day. Qed.

Lemma keyed_AddTransactions days ts :
  keyed days → keyed (foldl astbuilder.AddTransaction days ts).
Proof.
  revert days. induction ts as [|t ts IH]; intros days Hk; [done|].
  simpl. by apply IH, keyed_AddTransaction.
Qed.

Lemma built_keyed ctx j ts : built ctx j ts → keyed (Days j).
Proof.
  induction 1; simpl;
    eauto using keyed_empty, keyed_AddOpen, keyed_AddPrice, keyed_AddTransaction,
      keyed_AddValue, keyed_AddAssertion, keyed_AddClose.
Qed.

Lemma foldr_min_snoc (z x : Z) (l : list Z) :
  foldr Z.min z (l ++ [x]) = Z.min (foldr Z.min z l) x.
Proof. induction l as [|y l IH]; simpl; [lia|]. rewrite IH. lia. Qed.

Lemma foldr_max_snoc (z x : Z) (l : list Z) :
  foldr Z.max z (l ++ [x]) = Z.max (foldr Z.max z l) x.
Proof. induction l as [|y l IH]; simpl; [lia|]. rewrite IH. lia. Qed.

Lemma foldr_min_le (z : Z) (l : list Z) x : x ∈ l → (foldr Z.min z l ≤ x)%Z.
Proof.
  induction l as [|y l IH]; [by intros ?%elem_of_nil|].
  intros [->|Hin]%elem_of_cons; simpl; [lia|]. specialize (IH Hin). lia.
Qed.

Lemma foldr_max_ge (z : Z) (l : list Z) x : x ∈ l → (x ≤ foldr Z.max z l)%Z.
Proof.
  induction l as [|y l IH]; [by intros ?%elem_of_nil|].
  intros [->|Hin]%elem_of_cons; simpl; [lia|]. specialize (IH Hin). lia.
Qed.

(** X16: in a journal built with the [Add] methods, [Min] is the earliest
    and [Max] the latest date of the transactions that were added, counted
    together with 9999-12-31 for [Min] and with the zero time for [Max],
    which is where they stand while no transaction was added. Every
    transaction added lies between them; directives of the other kinds, an
    Open before the first transaction for one, do not move them. *)
Theorem Min_Max_bound_the_transactions ctx j ts :
  built ctx j ts →
  Min j = foldr Z.min Date_9999_12_31 (t_Date <$> ts) ∧
  Max j = foldr Z.max zeroTime (t_Date <$> ts) ∧
  (∀ t, t ∈ ts → (Min j ≤ t_Date t ≤ Max j)%Z) ∧
  (∀ o p v a c,
     Min (AddOpen j o) = Min j ∧ Max (AddOpen j o) = Max j ∧
     Min (AddPrice j p) = Min j ∧ Max (AddPrice j p) = Max j ∧
     Min (AddValue j v) = Min j ∧ Max (AddValue j v) = Max j ∧
     Min (AddAssertion j a) = Min j ∧ Max (AddAssertion j a) = Max j ∧
     Min (AddClose j c) = Min j ∧ Max (AddClose j c) = Max j).
Proof.
  intros Hbuilt.
  assert (Min j = foldr Z.min Date_9999_12_31 (t_Date <$> ts) ∧
          Max j = foldr Z.max zeroTime (t_Date <$> ts)) as [Hmin Hmax].
  { induction Hbuilt as [|j ts o _ IH|j ts p _ IH|j ts t Hb IH|j ts v _ IH
                         |j ts a _ IH|j ts c _ IH]; try done.
    destruct IH as [Hmin Hmax]. unfold Min, Max, AddTransaction in *.
    cbn [min_ max_]. rewrite (keyed_AST_Day _ _ (built_keyed _ _ _ Hb)).
    rewrite fmap_app. change (t_Date <$> [t]) with [t_Date t].
    rewrite foldr_min_snoc, foldr_max_snoc, <-Hmin, <-Hmax.
    unfold Time_After, Time_Before. split; case_bool_decide; lia. }
  split_and!; [done|done| |done].
  intros t Ht. rewrite Hmin, Hmax.
  assert (t_Date t ∈ t_Date <$> ts) as Hin by (by apply list_elem_of_fmap_2).
  split; [by apply foldr_min_le|by apply foldr_max_ge].
Qed.

End journal_facts.

(** ** The days the assembler sends on ([ASTBuilder.Source2]) *)

Module source_facts.

Import ast astbuilder astbuilder_kept journal_Journal astbuilder_facts journal_facts.

Implicit Types (days : gmap Z Day.t) (date : Time) (ds : list Directive).

Lemma addDirective_keyed Periods pr days d days' :
  keyed days → addDirective Periods pr days d = Ok days' → keyed days'.
Proof.
  intros Hk. destruct d as [o|p|t|a|v|c|?|?]; simpl; try done.
  - intros [= <-]. by apply keyed_AddOpen.
  - intros [= <-]. by apply keyed_AddPrice.
  - case_bool_decide; [by intros [= <-]|].
    set (t' := if bool_decide _ then _ else t).
    case_bool_decide; [|intros [= <-]; by apply keyed_AddTransaction].
    intros Hrun. apply (forM_invariant keyed) in Hrun; [done| |done].
    intros s addOn s' _ Hs. unfold addOnStep. destruct addOn as [acc|]; [|done].
    destruct (ast.Expand Periods acc t'); [|done].
    intros [= <-]. by apply keyed_AddTransactions.
  - destruct (MatchAccount _ _); cbn [negb]; [|by intros [= <-]].
    destruct (MatchCommodity _ _); cbn [negb]; [|by intros [= <-]].
    intros [= <-]. by apply keyed_AddAssertion.
  - destruct (MatchAccount _ _); cbn [negb]; [|by intros [= <-]].
    destruct (MatchCommodity _ _); cbn [negb]; [|by intros [= <-]].
    intros [= <-]. by apply keyed_AddValue.
  - destruct (MatchAccount _ _); cbn [negb]; [|by intros [= <-]].
    intros [= <-]. by apply keyed_AddClose.
Qed.

Lemma assemble_keyed Periods pr ds days :
  assemble Periods pr ds = Ok days → keyed days.
Proof.
  unfold assemble. intros Hrun.
  apply (forM_invariant keyed) in Hrun; [done| |apply keyed_empty].
  intros s d s' _. apply addDirective_keyed.
Qed.

Global Instance Day_le_trans : Transitive Day_le.
Proof. intros d1 d2 d3. unfold Day_le. lia. Qed.

Global Instance Day_le_total : Total Day_le.
Proof. intros d1 d2. unfold Day_le. lia. Qed.

Lemma StronglySorted_strict (l : list Day.t) :
  StronglySorted Day_le l → NoDup (Day.Date <$> l) →
  StronglySorted (λ d d2, (Day.Date d < Day.Date d2)%Z) l.
Proof.
  induction 1 as [|d l Hsorted IH Hall]; intros Hnodup; [constructor|].
  rewrite fmap_cons in Hnodup. apply NoDup_cons in Hnodup as [Hfresh Hnodup].
  constructor; [by apply IH|].
  rewrite Forall_forall in *. intros d2 Hin. specialize (Hall _ Hin).
  unfold Day_le in Hall.
  assert (Day.Date d ≠ Day.Date d2); [|lia].
  intros Heq. apply Hfresh. rewrite Heq. by apply list_elem_of_fmap_2.
Qed.

(** X17: the days [Source2] sends on come by strictly increasing date,
    one day for each date, and each is a day of the assembled map, stored
    there under its date. *)
Theorem Source2_sends_days_by_increasing_date Periods sortTransactions pr ds out :
  Source2 Periods sortTransactions pr ds = Ok out →
  StronglySorted (λ d d2, (Day.Date d < Day.Date d2)%Z) out ∧
  ∃ days, assemble Periods pr ds = Ok days ∧
    ∀ d, d ∈ out ↔
      ∃ d0, days !! Day.Date d = Some d0 ∧
            d = Day.with_Transactions d0 (sortTransactions (Day.Transactions d0)).
Proof.
  unfold Source2. intros Hrun.
  apply bind_Ok_inv in Hrun as (days & Hasm & Hout). inversion Hout; subst out.
  clear Hout. pose proof (assemble_keyed _ _ _ _ Hasm) as Hkeyed.
  unfold SortedDays.
  set (f := λ e : Z * Day.t,
              Day.with_Transactions e.2 (sortTransactions (Day.Transactions e.2))).
  assert (Day.Date <$> (f <$> map_to_list days) = (map_to_list days).*1) as Hdates.
  { rewrite <-list_fmap_compose. apply list_fmap_ext.
    intros i [k d] Hin%list_elem_of_lookup_2%elem_of_map_to_list. simpl.
    by apply Hkeyed. }
  split.
  - apply StronglySorted_strict; [apply StronglySorted_merge_sort; apply _|].
    rewrite merge_sort_Permutation, Hdates. apply NoDup_fst_map_to_list.
  - exists days. split; [done|]. intros d.
    rewrite merge_sort_Permutation, list_elem_of_fmap. split.
    + intros ([k d0] & -> & Hin%elem_of_map_to_list). exists d0. split; [|done].
      simpl. by rewrite (Hkeyed _ _ Hin).
    + intros (d0 & Hd0 & ->). exists (Day.Date d0, d0). split; [done|].
      apply elem_of_map_to_list. exact Hd0.
Qed.

(** *** Open and Price directives *)

Lemma Openings_insert days k d date :
  Day.Openings (AST_Day (<[k := d]> days) date)
  = if decide (k = date) then Day.Openings d else Day.Openings (AST_Day days date).
Proof. rewrite AST_Day_insert. by case_decide. Qed.

Lemma Prices_insert days k d date :
  Day.Prices (AST_Day (<[k := d]> days) date)
  = if decide (k = date) then Day.Prices d else Day.Prices (AST_Day days date).
Proof. rewrite AST_Day_insert. by case_decide. Qed.

Lemma Transactions_insert days k d date :
  Day.Transactions (AST_Day (<[k := d]> days) date)
  = if decide (k = date) then Day.Transactions d
    else Day.Transactions (AST_Day days date).
Proof. rewrite AST_Day_insert. by case_decide. Qed.

Lemma Transactions_AddTransaction days t date :
  Day.Transactions (AST_Day (astbuilder.AddTransaction days t) date)
  = Day.Transactions (AST_Day days date)
    ++ (if bool_decide (t_Date t = date) then [t] else []).
Proof.
  unfold astbuilder.AddTransaction. rewrite Transactions_insert.
  case_decide; subst; [by rewrite bool_decide_eq_true_2|].
  by rewrite bool_decide_eq_false_2, app_nil_r.
Qed.

Lemma Transactions_AddTransactions days ts date :
  Day.Transactions (AST_Day (foldl astbuilder.AddTransaction days ts) date)
  = Day.Transactions (AST_Day days date) ++ filter (λ t, t_Date t = date) ts.
Proof.
  revert days. induction ts as [|t ts IH]; intros days; simpl.
  - by rewrite app_nil_r.
  - rewrite IH, Transactions_AddTransaction, <-app_assoc. f_equal.
    rewrite filter_cons. by case_bool_decide; case_decide.
Qed.

(** What one directive adds to the Open and Price directives of a day. *)
Lemma addDirective_opened Periods pr days d days' date :
  addDirective Periods pr days d = Ok days' →
  Day.Openings (AST_Day days' date)
  = Day.Openings (AST_Day days date) ++ opened date [d] ∧
  Day.Prices (AST_Day days' date)
  = Day.Prices (AST_Day days date) ++ quoted date [d].
Proof.
  unfold opened, quoted.
  destruct d as [o|p|t|a|v|c|?|?]; simpl; rewrite ?app_nil_r; try done.
  - intros [= <-]. unfold astbuilder.AddOpen.
    rewrite Openings_insert, Prices_insert. simpl.
    case_decide; subst; [by rewrite bool_decide_eq_true_2|].
    by rewrite bool_decide_eq_false_2, app_nil_r.
  - intros [= <-]. unfold astbuilder.AddPrice.
    rewrite Openings_insert, Prices_insert. simpl.
    case_decide; subst; [by rewrite bool_decide_eq_true_2|].
    by rewrite bool_decide_eq_false_2, app_nil_r.
  - case_bool_decide; [by intros [= <-]|].
    set (t' := if bool_decide _ then _ else t).
    case_bool_decide.
    + intros Hrun.
      apply (forM_invariant
               (λ days', Day.Openings (AST_Day days' date)
                         = Day.Openings (AST_Day days date) ∧
                         Day.Prices (AST_Day days' date)
                         = Day.Prices (AST_Day days date))) in Hrun; [done| |done].
      intros s addOn s' _ [Hs1 Hs2]. unfold addOnStep.
      destruct addOn as [acc|]; [|done].
      destruct (ast.Expand Periods acc t') as [tss|]; [|done].
      intros [= <-]. rewrite <-Hs1, <-Hs2. clear.
      revert s. induction tss as [|ts tss IH]; intros s; [done|].
      simpl. destruct (IH (astbuilder.AddTransaction s ts)) as [-> ->].
      unfold astbuilder.AddTransaction. rewrite Openings_insert, Prices_insert.
      by case_decide; subst.
    + intros [= <-]. unfold astbuilder.AddTransaction.
      rewrite Openings_insert, Prices_insert. by case_decide; subst.
  - destruct (MatchAccount _ _); cbn [negb]; [|by intros [= <-]].
    destruct (MatchCommodity _ _); cbn [negb]; [|by intros [= <-]].
    intros [= <-]. unfold astbuilder.AddAssertion.
    rewrite Openings_insert, Prices_insert. by case_decide; subst.
  - destruct (MatchAccount _ _); cbn [negb]; [|by intros [= <-]].
    destruct (MatchCommodity _ _); cbn [negb]; [|by intros [= <-]].
    intros [= <-]. unfold astbuilder.AddValue.
    rewrite Openings_insert, Prices_insert. by case_decide; subst.
  - destruct (MatchAccount _ _); cbn [negb]; [|by intros [= <-]].
    intros [= <-]. unfold astbuilder.AddClose.
    rewrite Openings_insert, Prices_insert. by case_decide; subst.
Qed.

Lemma opened_cons date d ds : opened date (d :: ds) = opened date [d] ++ opened date ds.
Proof. unfold opened. simpl. by rewrite app_nil_r. Qed.

Lemma quoted_cons date d ds : quoted date (d :: ds) = quoted date [d] ++ quoted date ds.
Proof. unfold quoted. simpl. by rewrite app_nil_r. Qed.

(** X18: the filter never drops an Open or a Price directive. In the days
    the assembler builds, the openings of a day are the Open directives of
    the stream with that date and its prices are the Price directives with
    that date, all of them and in the order of the stream, whatever the
    filter matches. *)
Theorem Open_and_Price_directives_pass_the_filter Periods pr ds days :
  assemble Periods pr ds = Ok days →
  ∀ date,
    Day.Openings (AST_Day days date) = opened date ds ∧
    Day.Prices (AST_Day days date) = quoted date ds ∧
    (∀ o, o ∈ Day.Openings (AST_Day days (o_Date o)) ↔ DOpen o ∈ ds) ∧
    (∀ p, p ∈ Day.Prices (AST_Day days (pr_Date p)) ↔ DPrice p ∈ ds).
Proof.
  unfold assemble. intros Hrun.
  assert (∀ date, Day.Openings (AST_Day days date) = opened date ds ∧
                  Day.Prices (AST_Day days date) = quoted date ds) as Hall.
  { intros date.
    enough (∀ days0, forM (addDirective Periods pr) days0 ds = Ok days →
              Day.Openings (AST_Day days date)
              = Day.Openings (AST_Day days0 date) ++ opened date ds ∧
              Day.Prices (AST_Day days date)
              = Day.Prices (AST_Day days0 date) ++ quoted date ds) as Hgen
      by (apply (Hgen ∅ Hrun)).
    clear Hrun. induction ds as [|d ds IH]; intros days0 Hrun.
    - inversion Hrun; subst days. by rewrite !app_nil_r.
    - rewrite forM_cons in Hrun. apply bind_Ok_inv in Hrun as (days1 & Hd & Hrun).
      destruct (IH _ Hrun) as [-> ->].
      destruct (addDirective_opened _ _ _ _ _ date Hd) as [-> ->].
      by rewrite (opened_cons date d ds), (quoted_cons date d ds), !app_assoc. }
  intros date. destruct (Hall date) as [Ho Hp]. split_and!; [done|done| |].
  - intros o. destruct (Hall (o_Date o)) as [-> _].
    unfold opened. rewrite list_elem_of_bind. split.
    + intros (d & Hin & Hd). destruct d; try by apply elem_of_nil in Hin.
      case_bool_decide; [|by apply elem_of_nil in Hin].
      by apply list_elem_of_singleton in Hin as ->.
    + intros Hd. exists (DOpen o). split; [|done].
      rewrite bool_decide_eq_true_2 by done. left.
  - intros p. destruct (Hall (pr_Date p)) as [_ ->].
    unfold quoted. rewrite list_elem_of_bind. split.
    + intros (d & Hin & Hd). destruct d; try by apply elem_of_nil in Hin.
      case_bool_decide; [|by apply elem_of_nil in Hin].
      by apply list_elem_of_singleton in Hin as ->.
    + intros Hd. exists (DPrice p). split; [|done].
      rewrite bool_decide_eq_true_2 by done. left.
Qed.


(** *** Transactions *)

Lemma filter_length_eq {A} (P : A → Prop) `{!∀ x, Decision (P x)} (l : list A) :
  ¬ length (filter P l) < length l → filter P l = l.
Proof.
  induction l as [|x l IH]; [done|]. rewrite filter_cons.
  case_decide as HP; simpl; intros Hlen.
  - f_equal. apply IH. lia.
  - pose proof (length_filter P l). lia.
Qed.

(** The transaction the assembler goes on with is the transaction cut
    down to the postings that match. *)
Lemma restricted_as_in_the_loop b t :
  (if bool_decide (length (kept b t) < length (Postings t))
   then with_Postings t (kept b t) else t) = restricted b t.
Proof.
  unfold restricted. case_bool_decide as Hlen; [done|].
  unfold kept in *. rewrite (filter_length_eq _ _ Hlen). by destruct t.
Qed.

Lemma addDirective_transaction Periods pr days t :
  addDirective Periods pr days (DTransaction t)
  = if bool_decide (kept (Filter_ pr) t = []) then Ok days
    else if bool_decide (AddOns t = [])
         then Ok (astbuilder.AddTransaction days (restricted (Filter_ pr) t))
         else forM (addOnStep Periods (restricted (Filter_ pr) t)) days (AddOns t).
Proof.
  cbn [addDirective]. fold (kept (Filter_ pr) t). rewrite restricted_as_in_the_loop.
  rewrite (bool_decide_ext (length (kept (Filter_ pr) t) = 0) (kept (Filter_ pr) t = []))
    by (by destruct (kept (Filter_ pr) t)).
  case_bool_decide; [done|]. cbn [restricted with_Postings AddOns].
  rewrite (bool_decide_ext (0 < length (AddOns t)) (AddOns t ≠ []))
    by (destruct (AddOns t); simpl; split; (done || lia)).
  by repeat case_bool_decide.
Qed.

Lemma addOnSteps_Transactions Periods t days addOns days' date :
  forM (addOnStep Periods t) days addOns = Ok days' →
  ∃ added,
    Day.Transactions (AST_Day days' date)
    = Day.Transactions (AST_Day days date) ++ added ∧
    ∀ t', t' ∈ added →
      ∃ acc tss, AddOnAccrual acc ∈ addOns ∧ ast.Expand Periods acc t = Some tss ∧
                 t' ∈ tss ∧ date = t_Date t'.
Proof.
  revert days. induction addOns as [|addOn addOns IH]; intros days Hrun.
  - inversion Hrun; subst days'. exists []. split; [by rewrite app_nil_r|].
    by intros ? ?%elem_of_nil.
  - rewrite forM_cons in Hrun. apply bind_Ok_inv in Hrun as (days1 & Hstep & Hrun).
    apply IH in Hrun as (added & -> & Hadded). unfold addOnStep in Hstep.
    destruct addOn as [acc|]; [|done].
    destruct (ast.Expand Periods acc t) as [tss|] eqn:Hexp; [|done].
    inversion Hstep; subst days1. rewrite Transactions_AddTransactions.
    eexists. split; [by rewrite <-app_assoc|].
    intros t' [Hin|Hin]%elem_of_app.
    + apply list_elem_of_filter in Hin as [<- Hin]. exists acc, tss.
      split_and!; [left|done..].
    + destruct (Hadded _ Hin) as (acc' & tss' & ? & ? & ? & ?).
      exists acc', tss'. split_and!; [by right|done..].
Qed.

(** What one directive adds to the transactions of a day. *)
Lemma addDirective_Transactions Periods pr days d days' date :
  addDirective Periods pr days d = Ok days' →
  ∃ added,
    Day.Transactions (AST_Day days' date)
    = Day.Transactions (AST_Day days date) ++ added ∧
    (∀ t', t' ∈ added →
       ∃ t, d = DTransaction t ∧ kept (Filter_ pr) t ≠ [] ∧
         (AddOns t = [] ∧ t' = restricted (Filter_ pr) t ∧ date = t_Date t
          ∨ ∃ acc tss, AddOnAccrual acc ∈ AddOns t ∧
              ast.Expand Periods acc (restricted (Filter_ pr) t) = Some tss ∧
              t' ∈ tss ∧ date = t_Date t')) ∧
    (∀ t, d = DTransaction t → AddOns t = [] → kept (Filter_ pr) t ≠ [] →
          date = t_Date t → restricted (Filter_ pr) t ∈ added).
Proof.
  assert (∀ days', Day.Transactions (AST_Day days' date)
                   = Day.Transactions (AST_Day days date) →
          (∀ t, d ≠ DTransaction t) →
          ∃ added,
            Day.Transactions (AST_Day days' date)
            = Day.Transactions (AST_Day days date) ++ added ∧
            (∀ t', t' ∈ added →
               ∃ t, d = DTransaction t ∧ kept (Filter_ pr) t ≠ [] ∧
                 (AddOns t = [] ∧ t' = restricted (Filter_ pr) t ∧ date = t_Date t
                  ∨ ∃ acc tss, AddOnAccrual acc ∈ AddOns t ∧
                      ast.Expand Periods acc (restricted (Filter_ pr) t) = Some tss ∧
                      t' ∈ tss ∧ date = t_Date t')) ∧
            (∀ t, d = DTransaction t → AddOns t = [] → kept (Filter_ pr) t ≠ [] →
                  date = t_Date t → restricted (Filter_ pr) t ∈ added)) as Hsame.
  { intros days0 Heq Hd. exists []. split_and!; [by rewrite app_nil_r| |].
    - by intros ? ?%elem_of_nil.
    - intros t ->. by destruct (Hd t). }
  destruct d as [o|p|t|a|v|c|?|?]; try done.
  - intros [= <-]. apply Hsame; [|done]. unfold astbuilder.AddOpen.
    rewrite Transactions_insert. by case_decide; subst.
  - intros [= <-]. apply Hsame; [|done]. unfold astbuilder.AddPrice.
    rewrite Transactions_insert. by case_decide; subst.
  - clear Hsame. rewrite addDirective_transaction.
    case_bool_decide as Hkept.
    { intros [= <-]. exists []. split_and!; [by rewrite app_nil_r| |].
      - by intros ? ?%elem_of_nil.
      - by intros t0 [= <-]. }
    case_bool_decide as Haddons.
    + intros [= <-]. rewrite Transactions_AddTransaction. eexists. split; [done|].
      split.
      * intros t'. case_bool_decide as Hdate; [|by intros ?%elem_of_nil].
        intros ->%list_elem_of_singleton. exists t. split_and!; [done..|].
        left. by split_and!.
      * intros t0 [= <-] _ _ ->. rewrite bool_decide_eq_true_2 by done. left.
    + intros Hrun.
      apply (addOnSteps_Transactions _ _ _ _ _ date) in Hrun as (added & -> & Hadded).
      exists added. split_and!; [done| |].
      * intros t' Hin. destruct (Hadded _ Hin) as (acc & tss & ? & ? & ? & ?).
        exists t. split_and!; [done..|]. right. by exists acc, tss.
      * by intros t0 [= <-].
  - simpl. destruct (MatchAccount _ _); cbn [negb];
      [|intros [= <-]; by apply Hsame].
    destruct (MatchCommodity _ _); cbn [negb]; [|intros [= <-]; by apply Hsame].
    intros [= <-]. apply Hsame; [|done]. unfold astbuilder.AddAssertion.
    rewrite Transactions_insert. by case_decide; subst.
  - simpl. destruct (MatchAccount _ _); cbn [negb];
      [|intros [= <-]; by apply Hsame].
    destruct (MatchCommodity _ _); cbn [negb]; [|intros [= <-]; by apply Hsame].
    intros [= <-]. apply Hsame; [|done]. unfold astbuilder.AddValue.
    rewrite Transactions_insert. by case_decide; subst.
  - simpl. destruct (MatchAccount _ _); cbn [negb];
      [|intros [= <-]; by apply Hsame].
    intros [= <-]. apply Hsame; [|done]. unfold astbuilder.AddClose.
    rewrite Transactions_insert. by case_decide; subst.
Qed.

(** X19: what the filter leaves of the transactions. Every transaction of
    an assembled day comes from a transaction of the stream with at least
    one posting that matches the filter: it is that transaction cut down to
    its matching postings, under its date, or, where the transaction has
    add-ons, one of the transactions an accrual among them expands the
    cut-down transaction to. A transaction without add-ons and with a
    matching posting is in the day of its date, cut down to the matching
    postings; a transaction without a matching posting leaves no trace. *)
Theorem Source2_keeps_matching_postings_only Periods pr ds days :
  assemble Periods pr ds = Ok days →
  (∀ date t', t' ∈ Day.Transactions (AST_Day days date) →
     ∃ t, DTransaction t ∈ ds ∧ kept (Filter_ pr) t ≠ [] ∧
       (AddOns t = [] ∧ t' = restricted (Filter_ pr) t ∧ date = t_Date t ∧
        (∀ p, p ∈ Postings t' → Posting_Matches p (Filter_ pr) = true)
        ∨ ∃ acc tss, AddOnAccrual acc ∈ AddOns t ∧
            ast.Expand Periods acc (restricted (Filter_ pr) t) = Some tss ∧
            t' ∈ tss ∧ date = t_Date t')) ∧
  (∀ t, DTransaction t ∈ ds → AddOns t = [] → kept (Filter_ pr) t ≠ [] →
     restricted (Filter_ pr) t ∈ Day.Transactions (AST_Day days (t_Date t))).
Proof.
  unfold assemble. intros Hrun.
  assert (∀ date, ∃ added,
            Day.Transactions (AST_Day days date) = added ∧
            (∀ t', t' ∈ added →
               ∃ t, DTransaction t ∈ ds ∧ kept (Filter_ pr) t ≠ [] ∧
                 (AddOns t = [] ∧ t' = restricted (Filter_ pr) t ∧ date = t_Date t
                  ∨ ∃ acc tss, AddOnAccrual acc ∈ AddOns t ∧
                      ast.Expand Periods acc (restricted (Filter_ pr) t) = Some tss ∧
                      t' ∈ tss ∧ date = t_Date t')) ∧
            (∀ t, DTransaction t ∈ ds → AddOns t = [] → kept (Filter_ pr) t ≠ [] →
                  date = t_Date t → restricted (Filter_ pr) t ∈ added)) as Hall.
  { intros date.
    enough (∀ days0, forM (addDirective Periods pr) days0 ds = Ok days →
              ∃ added,
                Day.Transactions (AST_Day days date)
                = Day.Transactions (AST_Day days0 date) ++ added ∧
                (∀ t', t' ∈ added →
                   ∃ t, DTransaction t ∈ ds ∧ kept (Filter_ pr) t ≠ [] ∧
                     (AddOns t = [] ∧ t' = restricted (Filter_ pr) t ∧ date = t_Date t
                      ∨ ∃ acc tss, AddOnAccrual acc ∈ AddOns t ∧
                          ast.Expand Periods acc (restricted (Filter_ pr) t) = Some tss ∧
                          t' ∈ tss ∧ date = t_Date t')) ∧
                (∀ t, DTransaction t ∈ ds → AddOns t = [] →
                      kept (Filter_ pr) t ≠ [] → date = t_Date t →
                      restricted (Filter_ pr) t ∈ added)) as Hgen
      by (destruct (Hgen ∅ Hrun) as (added & Heq & ?); exists added;
          split; [by rewrite Heq|done]).
    clear Hrun. induction ds as [|d ds IH]; intros days0 Hrun.
    - inversion Hrun; subst days. exists []. split_and!; [by rewrite app_nil_r| |].
      + by intros ? ?%elem_of_nil.
      + by intros ? ?%elem_of_nil.
    - rewrite forM_cons in Hrun. apply bind_Ok_inv in Hrun as (days1 & Hd & Hrun).
      destruct (IH _ Hrun) as (added2 & -> & Hsound2 & Hcomplete2).
      destruct (addDirective_Transactions _ _ _ _ _ date Hd)
        as (added1 & -> & Hsound1 & Hcomplete1).
      exists (added1 ++ added2). split_and!; [by rewrite app_assoc| |].
      + intros t' [Hin|Hin]%elem_of_app.
        * destruct (Hsound1 _ Hin) as (t & -> & ? & ?). exists t.
          split_and!; [left|done..].
        * destruct (Hsound2 _ Hin) as (t & ? & ? & ?). exists t.
          split_and!; [by right|done..].
      + intros t [<-|Hin]%elem_of_cons Ha Hk Hdate; apply elem_of_app.
        * left. by apply Hcomplete1.
        * right. by apply Hcomplete2. }
  split.
  - intros date t' Hin. destruct (Hall date) as (added & Heq & Hsound & _).
    rewrite Heq in Hin. destruct (Hsound _ Hin) as (t & Ht & Hk & Horigin).
    exists t. split_and!; [done..|].
    destruct Horigin as [(Ha & -> & ->)|?]; [left|by right].
    split_and!; [done..|]. intros p Hp. cbn [restricted with_Postings Postings] in Hp.
    unfold kept in Hp. by apply list_elem_of_filter in Hp as [? _].
  - intros t Ht Ha Hk. destruct (Hall (t_Date t)) as (added & Heq & _ & Hcomplete).
    rewrite Heq. by apply Hcomplete.
Qed.

(** X20: the assembler has no case for a Currency or an Include
    directive: a stream that holds one is not assembled, and where the
    directives before it were, the error is the one for an unknown
    directive, with that directive. *)
Theorem Source2_rejects_unknown_directives Periods sortTransactions pr ds d :
  d ∈ ds → unknown d = true →
  is_ok (Source2 Periods sortTransactions pr ds) = false ∧
  ∀ ds1 ds2 days,
    ds = ds1 ++ d :: ds2 → assemble Periods pr ds1 = Ok days →
    Source2 Periods sortTransactions pr ds = Err (UnknownDirective d).
Proof.
  intros Hin Hunknown.
  assert (∀ days, addDirective Periods pr days d = Err (UnknownDirective d)) as Hd
    by (intros days; by destruct d).
  split.
  - unfold Source2. destruct (assemble Periods pr ds) as [days|] eqn:Hrun; [|done].
    unfold assemble in Hrun.
    destruct (forM_Ok_inv _ _ _ _ _ Hrun Hin) as (s0 & s1 & Hstep).
    by rewrite Hd in Hstep.
  - intros ds1 ds2 days -> Hrun. unfold Source2, assemble in *.
    rewrite forM_app, Hrun. cbn [mbind result_bind]. by rewrite forM_cons, Hd.
Qed.

End source_facts.

(** ** The scanner *)

Module scanner_facts.

Import scanner.

Local Open Scope Z_scope.

Implicit Types (s : Scanner) (rest input text : list rune) (k i : nat).

Lemma int_small (z : Z) : - 2 ^ 63 ≤ z < 2 ^ 63 → int z = z.
Proof. intros Hz. unfold int. rewrite Z.mod_small; lia. Qed.

Lemma RuneLen_bounds (r : rune) : -1 ≤ RuneLen r ≤ 4.
Proof. unfold RuneLen. repeat case_bool_decide; simpl; lia. Qed.

Lemma nth_hd_tail {A} (l : list A) (d : A) (i : nat) :
  nth i (hd d l :: tail l) d = nth i l d.
Proof. destruct l as [|x l]; [by destruct i as [|[|?]]|done]. Qed.

(** *** A reader that does not fail *)

Lemma Advance_clean s rest :
  reader s = Ok <$> rest →
  (Advance s).2 = None ∧
  reader (Advance s).1 = Ok <$> tail rest ∧
  current (Advance s).1 = hd EOF rest ∧
  Path (Advance s).1 = Path s.
Proof.
  intros Hr. unfold Advance. rewrite Hr. destruct rest as [|c rest]; simpl; done.
Qed.

Lemma advanced_S k s : advanced (S k) s = advanced k (Advance s).1.
Proof. unfold advanced. by rewrite Nat.iter_succ_r. Qed.

Lemma advanced_clean k s rest :
  reader s = Ok <$> rest →
  reader (advanced k s) = Ok <$> drop k rest ∧
  current (advanced k s) = runeAt (current s :: rest) k ∧
  Path (advanced k s) = Path s.
Proof.
  revert s rest. induction k as [|k IH]; intros s rest Hr.
  - by rewrite drop_0.
  - rewrite advanced_S.
    destruct (Advance_clean s rest Hr) as (_ & Hr' & Hc' & Hp').
    destruct (IH _ _ Hr') as (Hr'' & Hc'' & Hp''). split_and!.
    + rewrite Hr''. f_equal. clear. destruct rest; simpl; by rewrite ?drop_nil.
    + rewrite Hc'', Hc'. unfold runeAt. by rewrite nth_hd_tail.
    + congruence.
Qed.

(** *** Positions *)

Lemma lastLine_snoc text r :
  lastLine (text ++ [r])
  = if bool_decide (r = newline) then [] else lastLine text ++ [r].
Proof.
  unfold lastLine. rewrite reverse_snoc. simpl.
  case_bool_decide; simpl; [done|]. by rewrite reverse_cons.
Qed.

Lemma sum_RuneLen_bounds text :
  - Z.of_nat (length text) ≤ foldr Z.add 0 (RuneLen <$> text)
  ≤ 4 * Z.of_nat (length text).
Proof.
  induction text as [|r text IH]; [simpl; lia|].
  rewrite fmap_cons. cbn [foldr length].
  pose proof (RuneLen_bounds r). lia.
Qed.

Lemma lastLine_length text : (length (lastLine text) ≤ length text)%nat.
Proof.
  unfold lastLine. rewrite length_reverse, <-(length_reverse text).
  induction (reverse text) as [|r l IH]; simpl; [done|].
  destruct (negb _); simpl; lia.
Qed.

(** One call of [Advance] moves the position over the current rune. *)
Lemma Advance_position s rest path text :
  reader s = Ok <$> rest →
  pos s = positionAfter path text →
  Z.of_nat (length text) + 1 < 2 ^ 61 →
  pos (Advance s).1 = positionAfter path (text ++ [current s]).
Proof.
  intros Hr Hpos Hlen. unfold Advance. rewrite Hr.
  assert (∀ ch, pos (mkScanner (Ok <$> tail rest) ch (Path s)
            (if bool_decide (current s = newline)
             then mkFilePosition (fp_Path (pos s)) (int (Line (pos s) + 1)) 1
                    (int (BytePos (pos s) + RuneLen (current s)))
                    (int (RunePos (pos s) + 1))
             else mkFilePosition (fp_Path (pos s)) (Line (pos s))
                    (int (Column (pos s) + 1))
                    (int (BytePos (pos s) + RuneLen (current s)))
                    (int (RunePos (pos s) + 1))))
          = positionAfter path (text ++ [current s])) as Hgoal.
  { intros ch. cbn [pos]. rewrite Hpos. unfold positionAfter.
    cbn [fp_Path Line Column BytePos RunePos].
    pose proof (sum_RuneLen_bounds text). pose proof (RuneLen_bounds (current s)).
    pose proof (lastLine_length text).
    pose proof (length_filter (λ r, r = newline) text).
    rewrite filter_app, !length_app, fmap_app, foldr_app, lastLine_snoc.
    cbn [fmap list_fmap foldr length]. rewrite filter_cons, filter_nil.
    assert (foldr Z.add (RuneLen (current s) + 0) (RuneLen <$> text)
            = foldr Z.add 0 (RuneLen <$> text) + RuneLen (current s)) as ->.
    { clear. induction text as [|r text IH]; [simpl; lia|].
      rewrite fmap_cons. cbn [foldr]. rewrite IH. lia. }
    case_bool_decide as Hnl.
    - rewrite decide_True by done.
      f_equal; cbn [length]; rewrite ?int_small; lia.
    - rewrite decide_False by done. rewrite length_app.
      f_equal; cbn [length]; rewrite ?int_small; lia. }
  destruct rest as [|c rest]; simpl; [apply (Hgoal EOF)|apply (Hgoal c)].
Qed.

Lemma met_S input k : met input (S k) = met input k ++ [runeAt input k].
Proof. unfold met. by rewrite seq_S, fmap_app. Qed.

Lemma length_met input k : length (met input k) = k.
Proof. unfold met. by rewrite length_fmap, length_seq. Qed.

(** X21: the position of the scanner. A scanner made by [New] over a
    reader that gives the runes of [input] holds, after [k] calls of
    [Advance], none of which fails, the rune number [k] of the input, or
    [EOF] once the input is used up, and its position counts what it has
    moved over: that many runes, the bytes of their encodings, a line for
    each newline, and as column one more than the runes after the last
    newline. The count goes on past the end of the input, one rune and one
    byte for each call. The counters are 64-bit integers; the text moved
    over is shorter than 2^61 runes. *)
Theorem Advance_tracks_the_position input path k :
  Z.of_nat k < 2 ^ 61 →
  ∃ s0,
    New (Ok <$> input) path = Ok s0 ∧
    Current (advanced k s0) = runeAt input k ∧
    Position (advanced k s0) = positionAfter path (met input k) ∧
    (Advance (advanced k s0)).2 = None.
Proof.
  intros Hk. unfold New.
  assert (∃ s0, (let '(ch, err, r') := Reader_ReadRune (Ok <$> input) in
                 match err with
                 | Some (io_failure msg) => Err (ReadFailed msg)
                 | _ => Ok (mkScanner r'
                              match err with Some io_EOF => EOF | _ => ch end
                              path (mkFilePosition path 1 1 0 0))
                 end) = Ok s0 ∧
               reader s0 = Ok <$> tail input ∧ current s0 = runeAt input 0 ∧
               pos s0 = positionAfter path []) as (s0 & Hnew & Hr & Hc & Hp).
  { destruct input as [|c input]; simpl; eexists; split_and!; done. }
  exists s0. split; [exact Hnew|]. clear Hnew.
  assert (∀ j, reader (advanced j s0) = Ok <$> drop j (tail input) ∧
               current (advanced j s0) = runeAt input j) as Hclean.
  { intros j. destruct (advanced_clean j s0 _ Hr) as (Hr' & Hc' & _).
    split; [done|]. rewrite Hc', Hc. unfold runeAt.
    replace (nth 0 input EOF) with (hd EOF input) by (by destruct input).
    apply nth_hd_tail. }
  split_and!.
  - apply Hclean.
  - unfold Position. induction k as [|k IH]; [done|].
    destruct (Hclean k) as [Hrk Hck].
    change (advanced (S k) s0) with ((Advance (advanced k s0)).1).
    rewrite met_S, <-Hck.
    apply (Advance_position _ _ _ _ Hrk); [apply IH; lia|].
    rewrite length_met. lia.
  - destruct (Hclean k) as [Hrk _]. by apply (Advance_clean _ _ Hrk).
Qed.


(** *** The loops *)

Lemma takeWhile_hd_tail (p : rune → bool) rest :
  p EOF = false →
  takeWhile p (hd EOF rest :: tail rest) = takeWhile p rest.
Proof. intros Hp. destruct rest as [|c rest]; simpl; [by rewrite Hp|done]. Qed.

Lemma written_cons r text :
  written (r :: text)
  = (if bool_decide (RuneLen r = -1) then RuneError else r) :: written text.
Proof. done. Qed.

Lemma ReadWhile_loop_run (pred : rune → bool) fuel s rest b :
  reader s = Ok <$> rest →
  let run :=
    takeWhile (λ r, pred r && negb (bool_decide (r = EOF))) (current s :: rest) in
  (length run < fuel)%nat →
  ReadWhile_loop fuel pred s b
  = Some (advanced (length run) s, (b ++ written run, None)).
Proof.
  revert s rest b. induction fuel as [|fuel IH]; intros s rest b Hr run Hfuel; [lia|].
  subst run. revert Hfuel. cbn [ReadWhile_loop takeWhile]. unfold Current.
  destruct (pred (current s) && negb (bool_decide (current s = EOF))) eqn:Hcond.
  - cbn [length]. intros Hfuel.
    destruct (Advance_clean s rest Hr) as (Herr & Hr' & Hc' & _).
    destruct (Advance s) as [s' err] eqn:Hadv. simpl in Herr, Hr', Hc'. subst err.
    rewrite (IH s' (tail rest) _ Hr'); rewrite Hc', takeWhile_hd_tail;
      [|by rewrite andb_false_r|lia|by rewrite andb_false_r].
    rewrite advanced_S, Hadv. unfold WriteRune.
    by rewrite written_cons, <-app_assoc.
  - intros _. by rewrite app_nil_r.
Qed.

Lemma takeWhile_stops {A} (p : A → bool) (l : list A) (d : A) :
  p d = false → p (nth (length (takeWhile p l)) l d) = false.
Proof.
  intros Hd. induction l as [|x l IH]; simpl; [done|].
  destruct (p x) eqn:Hx; simpl; done.
Qed.

Lemma takeWhile_all {A} (p : A → bool) (l : list A) :
  Forall (λ x, p x = true) (takeWhile p l).
Proof.
  induction l as [|x l IH]; simpl; [constructor|].
  destruct (p x) eqn:Hx; by constructor.
Qed.

(** X22: what [ReadWhile] reads. Over a reader that does not fail,
    [ReadWhile] returns, without an error, the longest run of runes from
    the current one on that satisfy the predicate and are not [EOF]; a rune
    that is no Unicode code point is written as U+FFFD. The scanner is left
    on the rune after the run, which does not satisfy the predicate or is
    [EOF]. The loop needs one more round than the run is long. *)
Theorem ReadWhile_reads_the_longest_run (pred : rune → bool) fuel s rest :
  reader s = Ok <$> rest →
  let wanted := λ r, pred r && negb (bool_decide (r = EOF)) in
  let run := takeWhile wanted (current s :: rest) in
  (length run < fuel)%nat →
  ReadWhile fuel pred s = Some (advanced (length run) s, (written run, None)) ∧
  Forall (λ r, pred r = true ∧ r ≠ EOF) run ∧
  wanted (Current (advanced (length run) s)) = false.
Proof.
  intros Hr wanted run Hfuel. split_and!.
  - unfold ReadWhile. by rewrite (ReadWhile_loop_run pred fuel s rest [] Hr Hfuel).
  - eapply Forall_impl; [apply takeWhile_all|]. intros r [Hp Hn]%andb_true_iff.
    split; [done|]. by apply negb_true_iff, bool_decide_eq_false in Hn.
  - unfold Current. destruct (advanced_clean (length run) s rest Hr) as (_ & -> & _).
    apply takeWhile_stops. unfold wanted. by rewrite andb_false_r.
Qed.

Lemma runeAt_advance s rest i :
  runeAt (hd EOF rest :: tail rest) i = runeAt (current s :: rest) (S i).
Proof. unfold runeAt. by rewrite nth_hd_tail. Qed.

(** X23: when [ConsumeUntil] returns. Over a reader that does not fail,
    [ConsumeUntil] stops on the first rune from the current one on that
    satisfies the predicate, and returns no error; [EOF], which the scanner
    holds for ever once the input is used up, is a rune like the others
    here. If neither a rune ahead nor [EOF] satisfies the predicate, the
    loop does not end: it returns after no number of rounds. *)
Theorem ConsumeUntil_stops_at_the_first_match_only (pred : rune → bool) s rest :
  reader s = Ok <$> rest →
  let input := current s :: rest in
  (∀ i fuel,
     pred (runeAt input i) = true →
     (∀ j, (j < i)%nat → pred (runeAt input j) = false) →
     (i < fuel)%nat →
     ConsumeUntil fuel pred s = Some (advanced i s, None)) ∧
  ((∀ i, pred (runeAt input i) = false) →
   ∀ fuel, ConsumeUntil fuel pred s = None).
Proof.
  intros Hr input. subst input. split.
  - intros i. revert s rest Hr. induction i as [|i IH];
      intros s rest Hr fuel Hi Hbefore Hfuel.
    + destruct fuel as [|fuel]; [lia|]. cbn [ConsumeUntil]. unfold Current.
      change (runeAt (current s :: rest) 0) with (current s) in Hi. by rewrite Hi.
    + destruct fuel as [|fuel]; [lia|]. cbn [ConsumeUntil]. unfold Current.
      pose proof (Hbefore 0%nat ltac:(lia)) as H0.
      change (runeAt (current s :: rest) 0) with (current s) in H0. rewrite H0.
      destruct (Advance_clean s rest Hr) as (Herr & Hr' & Hc' & _).
      destruct (Advance s) as [s' err] eqn:Hadv. simpl in Herr, Hr', Hc'. subst err.
      cbn [negb]. rewrite advanced_S, Hadv. cbn [fst].
      apply (IH s' (tail rest) Hr'); [| |lia].
      * by rewrite Hc', (runeAt_advance s).
      * intros j Hj. rewrite Hc', (runeAt_advance s). apply Hbefore. lia.
  - intros Hnever fuel. revert s rest Hr Hnever.
    induction fuel as [|fuel IH]; intros s rest Hr Hnever; [done|].
    cbn [ConsumeUntil]. unfold Current.
    pose proof (Hnever 0%nat) as H0.
    change (runeAt (current s :: rest) 0) with (current s) in H0. rewrite H0.
    destruct (Advance_clean s rest Hr) as (Herr & Hr' & Hc' & _).
    destruct (Advance s) as [s' err] eqn:Hadv. simpl in Herr, Hr', Hc'. subst err.
    cbn [negb]. apply (IH s' (tail rest) Hr').
    intros i. rewrite Hc', (runeAt_advance s). apply Hnever.
Qed.

(** X24: [ConsumeWhile] at the end of the input. [ConsumeWhile] does not
    look for [EOF], as [ReadWhile] does: over a reader that does not fail and
    with a predicate that [EOF] and every rune ahead satisfy, it returns
    after no number of rounds, while [ReadWhile] with the same predicate
    returns the rest of the input. *)
Theorem ConsumeWhile_runs_past_the_end (pred : rune → bool) s rest :
  reader s = Ok <$> rest →
  pred EOF = true →
  Forall (λ r, pred r = true ∧ r ≠ EOF) (current s :: rest) →
  (∀ fuel, ConsumeWhile fuel pred s = None) ∧
  ReadWhile (2 + length rest) pred s
  = Some (advanced (1 + length rest) s, (written (current s :: rest), None)).
Proof.
  intros Hr Heof Hall. split.
  - assert (∀ s', reader s' = [] → current s' = EOF →
                 ∀ fuel, ConsumeWhile fuel pred s' = None) as Hend.
    { intros s' Hr' Hc' fuel. revert s' Hr' Hc'.
      induction fuel as [|fuel IH]; intros s' Hr' Hc'; [done|].
      cbn [ConsumeWhile]. unfold Current. rewrite Hc', Heof.
      unfold Advance. rewrite Hr'. cbn. by apply IH. }
    intros fuel. revert s rest Hr Hall.
    induction fuel as [|fuel IH]; intros s rest Hr Hall; [done|].
    cbn [ConsumeWhile]. unfold Current.
    apply Forall_cons in Hall as [[Hp _] Hall]. rewrite Hp.
    destruct (Advance_clean s rest Hr) as (Herr & Hr' & Hc' & _).
    destruct (Advance s) as [s' err] eqn:Hadv. simpl in Herr, Hr', Hc'. subst err.
    destruct rest as [|c rest].
    + by apply Hend.
    + apply (IH s' rest Hr'). simpl in Hc'. by rewrite Hc'.
  - assert (takeWhile (λ r, pred r && negb (bool_decide (r = EOF)))
              (current s :: rest) = current s :: rest) as Hrun.
    { induction Hall as [|r l [Hp Hn] _ IH]; [done|]. simpl.
      by rewrite Hp, bool_decide_eq_false_2, IH. }
    unfold ReadWhile. rewrite (ReadWhile_loop_run pred _ s rest [] Hr);
      rewrite Hrun; [done|simpl; lia].
Qed.


Lemma met_advance s rest i :
  met (current s :: rest) (S i) = current s :: met (hd EOF rest :: tail rest) i.
Proof.
  unfold met. cbn [seq fmap list_fmap]. f_equal.
  rewrite <-fmap_S_seq, <-list_fmap_compose. apply list_fmap_ext.
  intros _ j _. simpl. by rewrite (runeAt_advance s).
Qed.

Lemma ParseString_loop_match str0 str s rest b :
  reader s = Ok <$> rest →
  (∀ i, (i < length str)%nat → nth i str EOF = runeAt (current s :: rest) i) →
  ParseString_loop str0 str s b = (advanced (length str) s, None).
Proof.
  revert s rest b. induction str as [|ch str IH]; intros s rest b Hr Hsame; [done|].
  cbn [ParseString_loop length]. unfold Current.
  pose proof (Hsame 0%nat ltac:(simpl; lia)) as H0. simpl in H0. subst ch.
  rewrite bool_decide_eq_true_2 by done. cbn [negb].
  destruct (Advance_clean s rest Hr) as (Herr & Hr' & Hc' & _).
  destruct (Advance s) as [s' err] eqn:Hadv. simpl in Herr, Hr', Hc'. subst err.
  rewrite advanced_S, Hadv. cbn [fst]. apply (IH s' (tail rest) _ Hr').
  intros i Hi. rewrite Hc', (runeAt_advance s). apply (Hsame (S i)). simpl. lia.
Qed.

Lemma ParseString_loop_mismatch str0 str s rest b i :
  reader s = Ok <$> rest →
  (i < length str)%nat →
  (∀ j, (j < i)%nat → nth j str EOF = runeAt (current s :: rest) j) →
  nth i str EOF ≠ runeAt (current s :: rest) i →
  ParseString_loop str0 str s b
  = (advanced i s,
     Some (ExpectedString str0 (b ++ written (met (current s :: rest) (S i))))).
Proof.
  revert s rest b i. induction str as [|ch str IH];
    intros s rest b i Hr Hi Hsame Hdiff; [simpl in Hi; lia|].
  cbn [ParseString_loop]. unfold Current. destruct i as [|i].
  - simpl in Hdiff. rewrite bool_decide_eq_false_2 by done. done.
  - pose proof (Hsame 0%nat ltac:(lia)) as H0. simpl in H0. subst ch.
    rewrite bool_decide_eq_true_2 by done. cbn [negb].
    destruct (Advance_clean s rest Hr) as (Herr & Hr' & Hc' & _).
    destruct (Advance s) as [s' err] eqn:Hadv. simpl in Herr, Hr', Hc'. subst err.
    rewrite advanced_S, Hadv. cbn [fst].
    rewrite (IH s' (tail rest) _ i Hr').
    + rewrite Hc', (met_advance s rest (S i)), written_cons.
      unfold WriteRune. by rewrite <-app_assoc.
    + simpl in Hi. lia.
    + intros j Hj. rewrite Hc', (runeAt_advance s). apply (Hsame (S j)). lia.
    + rewrite Hc', (runeAt_advance s). apply Hdiff.
Qed.

(** X25: what [ParseString] consumes. Over a reader that does not fail,
    [ParseString] moves the scanner over the runes of the string as long as
    they are the runes ahead. If all are, it returns no error and the
    scanner stands after the string. At the first rune that differs, it
    returns an error with the string and the runes met so far, the
    differing one included, and leaves the scanner on that rune: the runes
    that matched are not given back. *)
Theorem ParseString_keeps_what_it_matched str s rest :
  reader s = Ok <$> rest →
  let input := current s :: rest in
  ((∀ i, (i < length str)%nat → nth i str EOF = runeAt input i) →
   ParseString str s = (advanced (length str) s, None)) ∧
  (∀ i,
     (i < length str)%nat →
     (∀ j, (j < i)%nat → nth j str EOF = runeAt input j) →
     nth i str EOF ≠ runeAt input i →
     ParseString str s
     = (advanced i s, Some (ExpectedString str (written (met input (S i))))) ∧
     Current (advanced i s) = runeAt input i).
Proof.
  intros Hr input. split.
  - intros Hsame. by apply (ParseString_loop_match str str s rest [] Hr).
  - intros i Hi Hsame Hdiff. split.
    + by apply (ParseString_loop_mismatch str str s rest [] i Hr).
    + unfold Current. by destruct (advanced_clean i s rest Hr) as (_ & -> & _).
Qed.

(** X26: the scanner as a reader of runes. [ReadRune] advances first and
    returns the rune the scanner then holds. So the calls on a scanner made
    by [New], over a reader that does not fail, return the runes of the
    input from the second on, each with the length of its encoding: the
    rune the scanner held when it was made is not returned. Once the input
    is used up every call returns [EOF] with size 1 and no error; the end
    of the input is never reported. *)
Theorem ReadRune_skips_the_first_rune_and_never_ends input path k :
  ∃ s0,
    New (Ok <$> input) path = Ok s0 ∧
    Current s0 = runeAt input 0 ∧
    ReadRune (advanced k s0)
    = (advanced (S k) s0,
       Ok (runeAt input (S k), RuneLen (runeAt input (S k)))) ∧
    ((length input ≤ S k)%nat → (ReadRune (advanced k s0)).2 = Ok (EOF, 1)).
Proof.
  assert (∃ s0, New (Ok <$> input) path = Ok s0 ∧
                reader s0 = Ok <$> tail input ∧ current s0 = runeAt input 0)
    as (s0 & Hnew & Hr & Hc).
  { unfold New. destruct input as [|c input]; simpl; eexists; split_and!; done. }
  exists s0. split; [exact Hnew|]. split; [exact Hc|].
  destruct (advanced_clean k s0 _ Hr) as (Hrk & _ & _).
  destruct (advanced_clean (S k) s0 _ Hr) as (_ & Hck & _).
  assert (current (advanced (S k) s0) = runeAt input (S k)) as Hcur.
  { rewrite Hck, Hc. unfold runeAt.
    replace (nth 0 input EOF) with (hd EOF input) by (by destruct input).
    apply nth_hd_tail. }
  assert (ReadRune (advanced k s0)
          = (advanced (S k) s0,
             Ok (runeAt input (S k), RuneLen (runeAt input (S k))))) as Hread.
  { unfold ReadRune.
    destruct (Advance_clean _ _ Hrk) as (Herr & _).
    change (advanced (S k) s0) with ((Advance (advanced k s0)).1) in Hcur |- *.
    destruct (Advance (advanced k s0)) as [s' err]. simpl in Herr, Hcur |- *.
    subst err. unfold Current. by rewrite Hcur. }
  split; [exact Hread|]. intros Hlen. rewrite Hread. cbn [snd].
  unfold runeAt. by rewrite nth_overflow by lia.
Qed.

End scanner_facts.

(** ** The formatter *)

Module format_facts.

Import scanner format.

Local Open Scope Z_scope.

Implicit Types (src b : list rune) (es : list (Range * list rune)).

Lemma copy_buffer (n : nat) src b :
  (n ≤ length src)%nat →
  copy buffer_Write n (Ok <$> src) b
  = ((Ok <$> drop n src, b ++ written (take n src)), None).
Proof.
  revert src b. induction n as [|n IH]; intros src b Hn.
  - by rewrite drop_0, take_0, app_nil_r.
  - destruct src as [|r src]; [simpl in Hn; lia|].
    cbn [copy fmap list_fmap Reader_ReadRune buffer_Write].
    change (list_fmap _ _ Ok src) with (Ok <$> src).
    rewrite IH by (simpl in Hn; lia). unfold string_of_rune.
    by rewrite <-app_assoc.
Qed.

Lemma seek_clean (n : nat) src :
  (n ≤ length src)%nat → seek n (Ok <$> src) = (Ok <$> drop n src, None).
Proof.
  revert src. induction n as [|n IH]; intros src Hn; [by rewrite drop_0|].
  destruct src as [|r src]; [simpl in Hn; lia|].
  cbn [seek fmap list_fmap Reader_ReadRune].
  change (list_fmap _ _ Ok src) with (Ok <$> src).
  rewrite IH by (simpl in Hn; lia). done.
Qed.

Lemma in_order_end pos es len : in_order pos es len → pos ≤ last_end pos es ≤ len.
Proof.
  revert pos. induction es as [|e es IH]; intros pos Hes; [simpl in *; lia|].
  destruct Hes as (H1 & H2 & Hes). apply IH in Hes.
  unfold last_end in *. simpl. lia.
Qed.

(** The loop from a position [pos] of the source on. *)
Lemma Format_loop_buffer src es pos b tail :
  0 ≤ pos →
  in_order pos es (Z.of_nat (length src)) →
  (∀ pos' (rd : Reader), Format_loop buffer_Write tail pos' rd (b ++ formatted src pos es)
     = Format_loop buffer_Write tail 0 rd (b ++ formatted src pos es)) →
  Format_loop buffer_Write (((λ e, ItemDirective (printed e)) <$> es) ++ tail) pos
    (Ok <$> drop (Z.to_nat pos) src) b
  = Format_loop buffer_Write tail 0
      (Ok <$> drop (Z.to_nat (last_end pos es)) src) (b ++ formatted src pos es).
Proof.
  revert pos b. induction es as [|e es IH]; intros pos b Hpos Hes Htail.
  - simpl in *. rewrite app_nil_r in *. apply Htail.
  - destruct Hes as (H1 & H2 & Hes). pose proof (in_order_end _ _ _ Hes) as Hend.
    cbn [fmap list_fmap app Format_loop printed Position WriteTo fst snd].
    rewrite copy_buffer by (rewrite length_drop; lia).
    rewrite drop_drop, seek_clean by (rewrite length_drop; lia).
    rewrite drop_drop. unfold buffer_Write.
    replace (Z.to_nat pos + Z.to_nat (Start e.1 - pos)
             + Z.to_nat (End_ e.1 - Start e.1))%nat
      with (Z.to_nat (End_ e.1)) by lia.
    change (list_fmap _ _ ?f es) with (f <$> es).
    rewrite IH; [|lia|done|].
    + unfold last_end. simpl. fold (between src pos (Start e.1)).
      by rewrite <-!app_assoc.
    + intros pos' rd. fold (between src pos (Start e.1)).
      rewrite <-!app_assoc. simpl in Htail. apply Htail.
Qed.

(** X27: what the formatter writes. The directives of the channel lie in
    the source one after the other and each writes its text; the
    destination is a buffer and the source does not fail. Then [Format]
    returns no error, and the buffer holds the text of the source before
    and between the directives rune by rune, the text each directive writes
    in the place of its range and, where the channel ends with [io.EOF],
    one newline. What the source holds after the last directive is neither
    read nor written. Where the channel is closed without [io.EOF] no
    newline is written. *)
Theorem Format_keeps_the_gaps_and_drops_the_tail src es rest :
  in_order 0 es (Z.of_nat (length src)) →
  let items := (λ e, ItemDirective (printed e)) <$> es in
  let left := Ok <$> drop (Z.to_nat (last_end 0 es)) src in
  Format buffer_Write (items ++ ItemError io_EOF :: rest) (Ok <$> src) []
  = ((left, formatted src 0 es ++ [newline]), None) ∧
  Format buffer_Write items (Ok <$> src) [] = ((left, formatted src 0 es), None).
Proof.
  intros Hes items left. subst items left. unfold Format. split.
  - pose proof (Format_loop_buffer src es 0 [] (ItemError io_EOF :: rest)
                  ltac:(lia) Hes ltac:(done)) as Hloop.
    change (Z.to_nat 0) with 0%nat in Hloop. rewrite drop_0 in Hloop.
    by rewrite Hloop.
  - pose proof (Format_loop_buffer src es 0 [] [] ltac:(lia) Hes ltac:(done))
      as Hloop.
    change (Z.to_nat 0) with 0%nat in Hloop.
    rewrite drop_0, app_nil_r in Hloop. by rewrite Hloop.
Qed.

Lemma copy_short (n : nat) src b :
  (length src < n)%nat →
  copy buffer_Write n (Ok <$> src) b = (([], b ++ written src), Some (Failed io_EOF)).
Proof.
  revert src b. induction n as [|n IH]; intros src b Hn; [lia|].
  destruct src as [|r src].
  - by rewrite app_nil_r.
  - cbn [copy fmap list_fmap Reader_ReadRune buffer_Write].
    change (list_fmap _ _ Ok src) with (Ok <$> src).
    rewrite IH by (simpl in Hn; lia). unfold string_of_rune.
    by rewrite <-app_assoc.
Qed.

Lemma seek_short (n : nat) src :
  (length src < n)%nat → seek n (Ok <$> src) = ([], Some (Failed io_EOF)).
Proof.
  revert src. induction n as [|n IH]; intros src Hn; [lia|].
  destruct src as [|r src]; [done|].
  cbn [seek fmap list_fmap Reader_ReadRune].
  change (list_fmap _ _ Ok src) with (Ok <$> src).
  by rewrite IH by (simpl in Hn; lia).
Qed.

(** X28: a directive that ends after the source. Where the range of a
    directive reaches beyond the end of a source that does not fail,
    [Format] returns [io.EOF] as its error: the source is used up, the
    buffer holds the text before the directive, the directive is not
    written, and neither is the newline, whatever the channel holds
    next. *)
Theorem Format_reports_the_end_of_a_short_source src e rest :
  0 ≤ Start e.1 ≤ End_ e.1 →
  Z.of_nat (length src) < End_ e.1 →
  Format buffer_Write (ItemDirective (printed e) :: rest) (Ok <$> src) []
  = (([], written (between src 0 (Start e.1))), Some (Failed io_EOF)).
Proof.
  intros Hrange Hshort. unfold Format, between.
  cbn [Format_loop printed Position WriteTo fst snd].
  change (Z.to_nat 0) with 0%nat. rewrite drop_0, Z.sub_0_r.
  destruct (decide (Z.to_nat (Start e.1) ≤ length src)%nat) as [Hin|Hout].
  - rewrite copy_buffer by done. rewrite seek_short by (rewrite length_drop; lia).
    done.
  - rewrite copy_short by lia. by rewrite take_ge by lia.
Qed.

End format_facts.

(** ** The properties above on concrete journals *)

Module samples_facts.

Import ast examples samples amounts_facts.

Lemma Some_default {A} (x : option A) (d : A) :
  from_option (λ _, true) false x = true → x = Some (default d x).
Proof. by destruct x. Qed.

Lemma Expand_books_as_leading_posting_witness :
  Postings rent2023 = [rent_posting] ∧
  Expand Periods2023 accrue2023 rent2023 = Some rent_expanded ∧
  balancer.processTransactions accrual_accounts ∅ rent_day = Ok rent_booked ∧
  length rent_expanded = 13 ∧
  ∀ pos, get rent_booked pos
         = get (Book ∅ (Credit rent_posting) (Debit rent_posting)
                       (Amount rent_posting) (p_Commodity rent_posting)) pos.
Proof.
  assert (Postings rent2023 = [rent_posting]) as H1 by reflexivity.
  assert (Expand Periods2023 accrue2023 rent2023 = Some rent_expanded) as H2
    by (apply Some_default; vm_compute; reflexivity).
  assert (balancer.processTransactions accrual_accounts ∅ rent_day = Ok rent_booked)
    as H3 by (apply is_ok_ok_or; vm_compute; reflexivity).
  split_and!; [exact H1|exact H2|exact H3|vm_compute; reflexivity|].
  exact (expand_facts.Expand_books_as_leading_posting Periods2023 accrue2023 rent2023
           rent_posting [] rent_expanded accrual_accounts ∅ (Day.empty 19358%Z)
           rent_booked H1 H2 H3).
Defined.

Lemma Process2_appends_one_adjustment_per_Value_witness :
  balancer.Process2 pr0 [day_open; day_value] = Ok run2 ∧
  Forall2 (λ d d', balancers.directivesOf d' = balancers.directivesOf d ∧
                   length (Day.Transactions d')
                   = (length (Day.Transactions d) + length (Day.Values d))%nat)
          [day_open; day_value] run2.2.
Proof.
  assert (balancer.Process2 pr0 [day_open; day_value] = Ok run2) as Hrun
    by (apply is_ok_ok_or; vm_compute; reflexivity).
  split; [exact Hrun|].
  eapply Forall2_impl;
    [exact (balancer_more.Process2_appends_one_adjustment_per_Value pr0 _ run2 Hrun)|].
  intros d d' (Hdir & adj & Htx & Hadj). split; [exact Hdir|].
  rewrite Htx, length_app. f_equal. symmetry. exact (Forall2_length _ _ _ Hadj).
Defined.

Lemma closed_account_rejects_postings_witness :
  balancer.processDay pr0 state2 day_close = Ok day3 ∧
  balancer.has day3.1.1 cash = false ∧
  is_ok (balancer.processDay pr0 day3.1 day_after) = false.
Proof.
  assert (balancer.processDay pr0 state2 day_close = Ok day3) as Hrun
    by (apply is_ok_ok_or; vm_compute; reflexivity).
  split; [exact Hrun|].
  assert (close_cash ∈ Day.Closings day_close) as Hin by left.
  assert (Account_Type (c_Account close_cash) ≠ EQUITY) as Hty by discriminate.
  assert (∀ o, o ∈ Day.Openings day_after → o_Account o ≠ c_Account close_cash)
    as Hno by (intros o Ho; exact (False_ind _ (proj1 (elem_of_nil o) Ho))).
  assert (refund ∈ Day.Transactions day_after) as Ht by left.
  assert (refund_posting ∈ Postings refund) as Hp by left.
  assert (Credit refund_posting = c_Account close_cash
          ∨ Debit refund_posting = c_Account close_cash) as Hside
    by (right; vm_compute; reflexivity).
  destruct (balancer_more.closed_account_rejects_postings pr0 state2 day_close day3
              close_cash day_after refund refund_posting Hrun Hin Hty Hno Ht Hp Hside)
    as (Hhas & _ & Hfail).
  split; [exact Hhas|exact Hfail].
Defined.

Lemma self_posting_creates_the_position_witness :
  balancer.IsOpen {[cash := true]} cash = true ∧
  ∃ am',
    balancer.bookPosting {[cash := true]} coffee ∅
      (mkPosting (usd 3) cash cash "EUR" [] None) = Ok am' ∧
    am' !! (cash, "EUR") = Some (get ∅ (cash, "EUR")) ∧
    balancer.checkAssertion {[cash := true]} am' ()
      (mkAssertion 19359%Z cash (get ∅ (cash, "EUR")) "EUR") = Ok ().
Proof.
  assert (balancer.IsOpen {[cash := true]} cash = true) as Hopen
    by (vm_compute; reflexivity).
  split; [exact Hopen|].
  destruct (balancer_more.self_posting_creates_the_position {[cash := true]} coffee ∅
              cash "EUR" (usd 3) [] None 19359%Z Hopen)
    as (am' & Hbook & _ & Hpos & Hpass & _).
  exists am'. split; [exact Hbook|]. split; [exact Hpos|exact Hpass].
Defined.

Lemma Process2_accepts_what_Process_accepts_witness :
  balancer_Process.Process pr1 [day_open; day_value] = Ok run2_Process ∧
  ∃ r2,
    balancer.Process2 pr0 [day_open; day_value] = Ok r2 ∧
    r2.1.2 = run2_Process.1.2 ∧
    Day.Amounts <$> run2_Process.2 = Day.Amounts <$> r2.2.
Proof.
  assert (balancer_Process.Process pr1 [day_open; day_value] = Ok run2_Process) as Hrun
    by (apply is_ok_ok_or; vm_compute; reflexivity).
  split; [exact Hrun|].
  destruct (balancers_facts.Process2_accepts_what_Process_accepts pr1 _ run2_Process Hrun)
    as (r2 & Hrun2 & _ & Ham & Hall).
  exists r2. split; [exact Hrun2|]. split; [exact Ham|].
  clear -Hall. induction Hall as [|d1 d2 l1 l2 (_ & Hsnap & _) _ IH]; [reflexivity|].
  rewrite !fmap_cons, Hsnap, IH. reflexivity.
Defined.


Lemma Balance_values_positions_at_the_price_of_the_day_witness :
  process.Balance env0 (Some "USD") st_held day_gain = Ok balanced_gain ∧
  process.st_amounts balanced_gain.1 !! (foreign, "EUR") = Some amount_held ∧
  process.Valuate (process.Normalized day_gain) "EUR" amount_held
  = Some (get (process.st_values balanced_gain.1) (foreign, "EUR")).
Proof.
  assert (∀ a, isAL a = true →
            isAL (journal.ValuationAccountFor (process.jctx env0) a) = false)
    as Hapart by (intros a _; reflexivity).
  assert (process.Balance env0 (Some "USD") st_held day_gain = Ok balanced_gain)
    as Hrun by (apply is_ok_ok_or; vm_compute; reflexivity).
  assert (process.st_amounts balanced_gain.1 !! (foreign, "EUR") = Some amount_held)
    as Hpos by (apply Some_default; vm_compute; reflexivity).
  assert (isAL foreign = true) as Hal by reflexivity.
  assert ("EUR" ≠ "USD") as Hk by discriminate.
  split; [exact Hrun|]. split; [exact Hpos|].
  exact (process_more.Balance_values_positions_at_the_price_of_the_day env0 "USD"
           st_held day_gain balanced_gain Hapart Hrun foreign "EUR" amount_held
           Hpos Hal Hk).
Defined.

Lemma ProcessStream_keeps_values_balanced_witness :
  valuator_stream.ProcessStream zero_on_error valuator0 [val_day] = Some streamed0 ∧
  length streamed0.1 = 1%nat ∧
  ∀ day k, day ∈ streamed0.1 → total k (valuator.Values day) = 0%Qc.
Proof.
  assert (valuator_stream.ProcessStream zero_on_error valuator0 [val_day]
          = Some streamed0) as Hrun
    by (apply Some_default; vm_compute; reflexivity).
  split; [exact Hrun|].
  exact (valuator_more.ProcessStream_keeps_values_balanced zero_on_error valuator0
           [val_day] streamed0 Hrun).
Defined.

Lemma computeValuationTransactions_values_at_the_price_witness :
  valuator.computeValuationTransactions valuator0 val_day = Some val_day_adjusted ∧
  Day.Amounts (valuator.Day_ val_day) !! (foreign, "EUR") = Some amount_of_day ∧
  process.Valuate (valuator.Prices val_day) "EUR" amount_of_day
  = Some (get (valuator.Values val_day_adjusted) (foreign, "EUR")).
Proof.
  assert (valuator_stream.valuation_apart valuator0) as Hapart
    by (intros a valAcc _ Hv; injection Hv as <-; reflexivity).
  assert (valuator.Valuation valuator0 = Some "USD") as Hv by reflexivity.
  assert (map_to_list (Day.Amounts (valuator.Day_ val_day))
          ≡ₚ map_to_list (Day.Amounts (valuator.Day_ val_day))) as Hperm
    by reflexivity.
  assert (valuator.computeValuationTransactionsIn
            (map_to_list (Day.Amounts (valuator.Day_ val_day))) valuator0 val_day
          = Some val_day_adjusted) as Hrun
    by (apply Some_default; vm_compute; reflexivity).
  assert (Day.Amounts (valuator.Day_ val_day) !! (foreign, "EUR")
          = Some amount_of_day) as Hpos
    by (apply Some_default; vm_compute; reflexivity).
  split; [exact Hrun|]. split; [exact Hpos|].
  exact (proj1 (valuator_more.computeValuationTransactions_values_at_the_price
                  valuator0 val_day _ val_day_adjusted "USD" Hapart Hv Hperm Hrun)
           foreign "EUR" amount_of_day Hpos eq_refl ltac:(discriminate)).
Defined.

Lemma Min_Max_bound_the_transactions_witness :
  journal_Journal.built jctx0 journal1 [wages] ∧
  journal_Journal.Min journal1 = 19359%Z ∧
  journal_Journal.Max journal1 = 19359%Z.
Proof.
  assert (journal_Journal.built jctx0 journal1 ([] ++ [wages])) as Hbuilt.
  { apply journal_Journal.built_AddTransaction, journal_Journal.built_AddOpen,
      journal_Journal.built_New. }
  split; [exact Hbuilt|].
  destruct (journal_facts.Min_Max_bound_the_transactions jctx0 journal1 _ Hbuilt)
    as (Hmin & Hmax & _).
  split; [exact Hmin|exact Hmax].
Defined.

Lemma Source2_sends_days_by_increasing_date_witness :
  astbuilder.Source2 Periods2023 id builder0 stream0 = Ok sent0 ∧
  StronglySorted (λ d d2, (Day.Date d < Day.Date d2)%Z) sent0.
Proof.
  assert (astbuilder.Source2 Periods2023 id builder0 stream0 = Ok sent0) as Hrun
    by (apply is_ok_ok_or; vm_compute; reflexivity).
  split; [exact Hrun|].
  exact (proj1 (source_facts.Source2_sends_days_by_increasing_date Periods2023 id
                  builder0 stream0 sent0 Hrun)).
Defined.

Lemma Open_and_Price_directives_pass_the_filter_witness :
  astbuilder.assemble Periods2023 builder0 stream0 = Ok assembled0 ∧
  Day.Openings (astbuilder.AST_Day assembled0 19358%Z)
  = astbuilder_kept.opened 19358%Z stream0.
Proof.
  assert (astbuilder.assemble Periods2023 builder0 stream0 = Ok assembled0) as Hrun
    by (apply is_ok_ok_or; vm_compute; reflexivity).
  split; [exact Hrun|].
  exact (proj1 (source_facts.Open_and_Price_directives_pass_the_filter Periods2023
                  builder0 stream0 assembled0 Hrun 19358%Z)).
Defined.

Lemma Source2_keeps_matching_postings_only_witness :
  astbuilder.assemble Periods2023 builder0 stream0 = Ok assembled0 ∧
  ∀ date t', t' ∈ Day.Transactions (astbuilder.AST_Day assembled0 date) →
    ∃ t, astbuilder.DTransaction t ∈ stream0 ∧
         astbuilder_kept.kept (astbuilder.Filter_ builder0) t ≠ [].
Proof.
  assert (astbuilder.assemble Periods2023 builder0 stream0 = Ok assembled0) as Hrun
    by (apply is_ok_ok_or; vm_compute; reflexivity).
  split; [exact Hrun|]. intros date t' Hin.
  destruct (proj1 (source_facts.Source2_keeps_matching_postings_only Periods2023
                     builder0 stream0 assembled0 Hrun) date t' Hin)
    as (t & Ht & Hkept & _).
  exists t. split; [exact Ht|exact Hkept].
Defined.

Lemma Source2_rejects_unknown_directives_witness :
  currency_usd ∈ stream_currency ∧
  astbuilder_kept.unknown currency_usd = true ∧
  astbuilder.Source2 Periods2023 id builder0 stream_currency
  = Err (astbuilder.UnknownDirective currency_usd).
Proof.
  assert (currency_usd ∈ stream_currency) as Hin by (right; left).
  assert (astbuilder_kept.unknown currency_usd = true) as Hunknown by reflexivity.
  split; [exact Hin|]. split; [exact Hunknown|].
  assert (astbuilder.assemble Periods2023 builder0 [astbuilder.DOpen (mkOpen 19358%Z cash)]
          = Ok (ok_or (astbuilder.assemble Periods2023 builder0
                         [astbuilder.DOpen (mkOpen 19358%Z cash)]) ∅)) as Hbefore
    by (apply is_ok_ok_or; vm_compute; reflexivity).
  exact (proj2 (source_facts.Source2_rejects_unknown_directives Periods2023 id
                  builder0 stream_currency currency_usd Hin Hunknown)
           [astbuilder.DOpen (mkOpen 19358%Z cash)] [] _ eq_refl Hbefore).
Defined.

Lemma Advance_tracks_the_position_witness :
  (Z.of_nat 3 < 2 ^ 61)%Z ∧
  ∃ s0,
    scanner.New (Ok <$> text_ab_c) "journal.knut" = Ok s0 ∧
    scanner.Current (scanner.advanced 3 s0) = 99%Z ∧
    scanner.Position (scanner.advanced 3 s0)
    = scanner.mkFilePosition "journal.knut" 2 1 3 3.
Proof.
  assert (Z.of_nat 3 < 2 ^ 61)%Z as Hk by reflexivity.
  split; [exact Hk|].
  destruct (scanner_facts.Advance_tracks_the_position text_ab_c "journal.knut" 3 Hk)
    as (s0 & Hnew & Hcur & Hpos & _).
  exists s0. split; [exact Hnew|]. split; [exact Hcur|exact Hpos].
Defined.

Lemma ReadWhile_reads_the_longest_run_witness :
  scanner.reader scan0 = Ok <$> [98; 10; 99]%Z ∧
  scanner.ReadWhile 3 isLetter scan0
  = Some (scanner.advanced 2 scan0, ([97; 98]%Z, None)).
Proof.
  assert (scanner.reader scan0 = Ok <$> [98; 10; 99]%Z) as Hr by reflexivity.
  split; [exact Hr|].
  exact (proj1 (scanner_facts.ReadWhile_reads_the_longest_run isLetter 3 scan0
                  [98; 10; 99]%Z Hr ltac:(simpl; lia))).
Defined.

Lemma ConsumeUntil_stops_at_the_first_match_only_witness :
  scanner.reader scan0 = Ok <$> [98; 10; 99]%Z ∧
  scanner.ConsumeUntil 3 isNewline scan0 = Some (scanner.advanced 2 scan0, None) ∧
  ∀ fuel, scanner.ConsumeUntil fuel (λ _, false) scan0 = None.
Proof.
  assert (scanner.reader scan0 = Ok <$> [98; 10; 99]%Z) as Hr by reflexivity.
  split; [exact Hr|]. split.
  - apply (proj1 (scanner_facts.ConsumeUntil_stops_at_the_first_match_only isNewline
                    scan0 [98; 10; 99]%Z Hr) 2%nat 3%nat); [reflexivity| |lia].
    intros [|[|j]] Hj; [reflexivity|reflexivity|lia].
  - apply (proj2 (scanner_facts.ConsumeUntil_stops_at_the_first_match_only
                    (λ _, false) scan0 [98; 10; 99]%Z Hr)).
    intros i. reflexivity.
Defined.

Lemma ConsumeWhile_runs_past_the_end_witness :
  scanner.reader scan0 = Ok <$> [98; 10; 99]%Z ∧
  anyRune scanner.EOF = true ∧
  (∀ fuel, scanner.ConsumeWhile fuel anyRune scan0 = None) ∧
  scanner.ReadWhile 5 anyRune scan0
  = Some (scanner.advanced 4 scan0, ([97; 98; 10; 99]%Z, None)).
Proof.
  assert (scanner.reader scan0 = Ok <$> [98; 10; 99]%Z) as Hr by reflexivity.
  assert (anyRune scanner.EOF = true) as Heof by reflexivity.
  assert (Forall (λ r, anyRune r = true ∧ r ≠ scanner.EOF)
            (scanner.current scan0 :: [98; 10; 99]%Z)) as Hall
    by (repeat constructor; discriminate).
  split; [exact Hr|]. split; [exact Heof|].
  exact (scanner_facts.ConsumeWhile_runs_past_the_end anyRune scan0 [98; 10; 99]%Z
           Hr Heof Hall).
Defined.

Lemma ParseString_keeps_what_it_matched_witness :
  scanner.reader scan0 = Ok <$> [98; 10; 99]%Z ∧
  scanner.ParseString [97; 98]%Z scan0 = (scanner.advanced 2 scan0, None) ∧
  scanner.ParseString [97; 99]%Z scan0
  = (scanner.advanced 1 scan0,
     Some (scanner.ExpectedString [97; 99]%Z [97; 98]%Z)).
Proof.
  assert (scanner.reader scan0 = Ok <$> [98; 10; 99]%Z) as Hr by reflexivity.
  split; [exact Hr|]. split.
  - apply (proj1 (scanner_facts.ParseString_keeps_what_it_matched [97; 98]%Z scan0
                    [98; 10; 99]%Z Hr)).
    intros [|[|i]] Hi; [reflexivity|reflexivity|simpl in Hi; lia].
  - apply (proj2 (scanner_facts.ParseString_keeps_what_it_matched [97; 99]%Z scan0
                    [98; 10; 99]%Z Hr) 1%nat); [simpl; lia| |discriminate].
    intros [|j] Hj; [reflexivity|lia].
Defined.

Lemma Format_keeps_the_gaps_and_drops_the_tail_witness :
  format.in_order 0 [edit_b] (Z.of_nat (length text_ab_c)) ∧
  format.Format format.buffer_Write
    ([format.ItemDirective (format.printed edit_b)]
     ++ [format.ItemError scanner.io_EOF]) (Ok <$> text_ab_c) []
  = ((Ok <$> [10; 99]%Z, [97; 66; 10]%Z), None).
Proof.
  assert (format.in_order 0 [edit_b] (Z.of_nat (length text_ab_c))) as Hes
    by (simpl; lia).
  split; [exact Hes|].
  exact (proj1 (format_facts.Format_keeps_the_gaps_and_drops_the_tail text_ab_c
                  [edit_b] [] Hes)).
Defined.

Lemma Format_reports_the_end_of_a_short_source_witness :
  (0 ≤ format.Start edit_late.1 ≤ format.End_ edit_late.1)%Z ∧
  (Z.of_nat (length text_ab_c) < format.End_ edit_late.1)%Z ∧
  format.Format format.buffer_Write
    [format.ItemDirective (format.printed edit_late);
     format.ItemError scanner.io_EOF] (Ok <$> text_ab_c) []
  = (([], [97; 98; 10]%Z), Some (format.Failed scanner.io_EOF)).
Proof.
  assert (0 ≤ format.Start edit_late.1 ≤ format.End_ edit_late.1)%Z as Hrange
    by (simpl; lia).
  assert (Z.of_nat (length text_ab_c) < format.End_ edit_late.1)%Z as Hshort
    by (simpl; lia).
  split; [exact Hrange|]. split; [exact Hshort|].
  exact (format_facts.Format_reports_the_end_of_a_short_source text_ab_c edit_late
           [format.ItemError scanner.io_EOF] Hrange Hshort).
Defined.

End samples_facts.
